(** * TweetStream: a shallow embedding of [tweetstream.py]

    The controller class [TweetStream] of [src/tweetstream.py] is embedded
    as state-passing code over an explicit world: the object's fields, the
    tornado [IOLoop] (a clock and a set of pending timeouts), the
    [IOStream] objects it created, and the trace of everything it handed to
    user callbacks or to the logger.  Python exceptions are results of their
    own, carrying the world at the moment they were raised, so that a
    mutation made before a [raise] is kept, as in Python. *)

From Stdlib Require Import ZArith QArith Qround Qminmax Lia Lqa List Ascii
  String Bool.
From stdpp Require Import base option list strings pretty gmap.

Close Scope Q_scope.
Open Scope string_scope.
Open Scope list_scope.
Open Scope Z_scope.

(** ** Python bytes and text

    What a stream hands over is [bytes], kept as a [string] of one [ascii]
    per byte.  A [str] is kept as its UTF-8 encoding: [decode] checks that
    the bytes are well-formed UTF-8 and changes nothing else, so that
    concatenation, comparison, and the search for an ASCII separator act on
    the encoding as they act on the text.  The methods of [str] that
    consult the Unicode character database ([strip], [split()],
    [splitlines], [lower]) and [int] belong to the library (class
    [Library] below); this module has them for ASCII text, as the sample
    library uses them. *)

Module PyStr.

Definition code (c : ascii) : N := N_of_ascii c.

(** [c.isspace()] for an ASCII character. *)
Definition isspace (c : ascii) : bool :=
  let n := code c in
  ((9 <=? n) && (n <=? 13) || (28 <=? n) && (n <=? 32))%N.

(** The white space [int] skips around an ASCII literal. *)
Definition isblank (c : ascii) : bool :=
  let n := code c in
  ((9 <=? n) && (n <=? 13) || (n =? 32))%N.

(** A line boundary of [str.splitlines] in ASCII text, other than the pair
    CR LF. *)
Definition islinebreak (c : ascii) : bool :=
  let n := code c in
  ((10 <=? n) && (n <=? 13) || (28 <=? n) && (n <=? 30))%N.

Definition CRLF : string := String "013" (String "010" "").

Definition chars (s : string) : list ascii := list_ascii_of_string s.
Definition str (l : list ascii) : string := string_of_list_ascii l.

Fixpoint lstrip_chars (l : list ascii) : list ascii :=
  match l with
  | c :: l' => if isspace c then lstrip_chars l' else l
  | [] => []
  end.

(** [s.strip()] *)
Definition strip (s : string) : string :=
  str (rev (lstrip_chars (rev (lstrip_chars (chars s))))).

(** [s.rstrip()] *)
Definition rstrip (s : string) : string :=
  str (rev (lstrip_chars (rev (chars s)))).

(** [s.split()]: the maximal runs of non-space characters.  [cur] is the
    run being read, reversed. *)
Fixpoint split_ws_aux (cur : list ascii) (l : list ascii) : list string :=
  match l with
  | [] => match cur with [] => [] | _ => [str (rev cur)] end
  | c :: l' =>
      if isspace c
      then match cur with
           | [] => split_ws_aux [] l'
           | _ => str (rev cur) :: split_ws_aux [] l'
           end
      else split_ws_aux (c :: cur) l'
  end.

Definition split_ws (s : string) : list string := split_ws_aux [] (chars s).

(** [s.split(sep)] for a separator of one character: never empty. *)
Fixpoint split_on_aux (sep : ascii) (cur : list ascii) (l : list ascii)
  : list string :=
  match l with
  | [] => [str (rev cur)]
  | c :: l' =>
      if Ascii.eqb c sep
      then str (rev cur) :: split_on_aux sep [] l'
      else split_on_aux sep (c :: cur) l'
  end.

Definition split_on (sep : ascii) (s : string) : list string :=
  split_on_aux sep [] (chars s).

(** [s.splitlines()]: CR LF counts as one boundary, and a boundary at the
    very end opens no further line. *)
Fixpoint splitlines_aux (cur : list ascii) (l : list ascii) : list string :=
  match l with
  | [] => match cur with [] => [] | _ => [str (rev cur)] end
  | c :: l' =>
      if islinebreak c
      then str (rev cur) ::
           match l' with
           | c' :: l'' =>
               if Ascii.eqb c "013" && Ascii.eqb c' "010"
               then splitlines_aux [] l''
               else splitlines_aux [] l'
           | [] => []
           end
      else splitlines_aux (c :: cur) l'
  end.

Definition splitlines (s : string) : list string :=
  splitlines_aux [] (chars s).

(** [sep.join(parts)] *)
Fixpoint join (sep : string) (parts : list string) : string :=
  match parts with
  | [] => ""
  | [p] => p
  | p :: rest => p +:+ sep +:+ join sep rest
  end.

(** [s.replace(old, "")] for a non-empty [old]: the occurrences are
    removed from left to right, without overlap. *)
Fixpoint remove_all_aux (fuel : nat) (old s : string) : string :=
  match fuel with
  | O => s
  | S fuel' =>
      match s with
      | EmptyString => EmptyString
      | String c s' =>
          if String.prefix old s
          then remove_all_aux fuel'
                 old (String.substring (String.length old)
                        (String.length s - String.length old) s)
          else String c (remove_all_aux fuel' old s')
      end
  end.

Definition remove_all (old s : string) : string :=
  remove_all_aux (S (String.length s)) old s.

(** [c.lower()] for an ASCII character. *)
Definition lower_char (c : ascii) : ascii :=
  let n := code c in
  if ((65 <=? n) && (n <=? 90))%N then ascii_of_N (n + 32) else c.

Definition lower (s : string) : string := str (map lower_char (chars s)).

(** The value of a digit in a base up to 16, as [int] reads it. *)
Definition digit_value (c : ascii) : option Z :=
  let n := code c in
  if ((48 <=? n) && (n <=? 57))%N then Some (Z.of_N n - 48)
  else if ((97 <=? n) && (n <=? 102))%N then Some (Z.of_N n - 87)
  else if ((65 <=? n) && (n <=? 70))%N then Some (Z.of_N n - 55)
  else None.

(** The digits of an [int] literal: at least one digit, single
    underscores only between two digits.  [acc] is the value read so far,
    [prev] tells whether the previous character was a digit. *)
Fixpoint digits (base : Z) (acc : Z) (prev : bool) (l : list ascii)
  : option Z :=
  match l with
  | [] => if prev then Some acc else None
  | c :: l' =>
      if Ascii.eqb c "_"
      then if prev then digits base acc false l' else None
      else match digit_value c with
           | Some d =>
               if d <? base then digits base (base * acc + d) true l'
               else None
           | None => None
           end
  end.

Definition unsigned (base : Z) (l : list ascii) : option Z :=
  match l with
  | "0"%char :: x :: l' =>
      if (base =? 16) && (Ascii.eqb x "x" || Ascii.eqb x "X")
      then match l' with
           | "_"%char :: l'' => digits base 0 false l''
           | _ => digits base 0 false l'
           end
      else digits base 0 false l
  | _ => digits base 0 false l
  end.

Fixpoint lstrip_blank (l : list ascii) : list ascii :=
  match l with
  | c :: l' => if isblank c then lstrip_blank l' else l
  | [] => []
  end.

(** [int(s, base)] for base 10 or 16 and an ASCII [s] (Python 3): [None]
    stands for [ValueError]. *)
Definition int (base : Z) (s : string) : option Z :=
  match rev (lstrip_blank (rev (lstrip_blank (chars s)))) with
  | "-"%char :: l => Z.opp <$> unsigned base l
  | "+"%char :: l => unsigned base l
  | l => unsigned base l
  end.

(** *** UTF-8 *)

Definition between (lo hi : N) (c : ascii) : bool :=
  ((lo <=? code c) && (code c <=? hi))%N.

Definition continuation (c : ascii) : bool := between 128 191 c.

(** The well-formed byte sequences of UTF-8: no overlong form, no
    surrogate, nothing above U+10FFFF. *)
Fixpoint well_formed (l : list ascii) : bool :=
  match l with
  | [] => true
  | c :: l1 =>
      if between 0 127 c then well_formed l1
      else if between 194 223 c then
        match l1 with
        | c1 :: l2 => continuation c1 && well_formed l2
        | _ => false
        end
      else if between 224 239 c then
        match l1 with
        | c1 :: c2 :: l3 =>
            (if between 224 224 c then between 160 191 c1
             else if between 237 237 c then between 128 159 c1
             else continuation c1)
            && continuation c2 && well_formed l3
        | _ => false
        end
      else if between 240 244 c then
        match l1 with
        | c1 :: c2 :: c3 :: l4 =>
            (if between 240 240 c then between 144 191 c1
             else if between 244 244 c then between 128 143 c1
             else continuation c1)
            && continuation c2 && continuation c3 && well_formed l4
        | _ => false
        end
      else false
  end.

(** [b.decode(encoding='UTF-8')]: [None] stands for [UnicodeDecodeError]. *)
Definition decode (b : string) : option string :=
  if well_formed (chars b) then Some b else None.

(** *** [repr] of bytes *)

Definition hex_digit (n : N) : ascii :=
  if (n <? 10)%N then ascii_of_N (48 + n) else ascii_of_N (87 + n).

Definition backslash : ascii := "092".
Definition quote1 : ascii := "039".
Definition quote2 : ascii := "034".

Definition escape (quote : ascii) (c : ascii) : list ascii :=
  let n := code c in
  if Ascii.eqb c quote || Ascii.eqb c backslash then [backslash; c]
  else if (n =? 9)%N then [backslash; "t"%char]
  else if (n =? 10)%N then [backslash; "n"%char]
  else if (n =? 13)%N then [backslash; "r"%char]
  else if ((n <? 32) || (127 <=? n))%N
  then [backslash; "x"%char; hex_digit (n / 16); hex_digit (n mod 16)]
  else [c].

(** [repr(b)], which is also [str(b)] and what [%s] gives for bytes: double
    quotes are used when [b] holds a single quote and no double one. *)
Definition bytes_repr (b : string) : string :=
  let l := chars b in
  let quote :=
    if existsb (Ascii.eqb quote1) l && negb (existsb (Ascii.eqb quote2) l)
    then quote2 else quote1 in
  str ("b"%char :: quote :: flat_map (escape quote) l ++ [quote]).

End PyStr.

(** ** Values, exceptions and callbacks *)

(** The values a configuration dict holds. *)
Inductive pyval :=
| PyNone
| PyStr (s : string)
| PyInt (n : Z).

(** [str(v)], as the [%s] conversions of the class use it. *)
Definition pystr (v : pyval) : string :=
  match v with
  | PyNone => "None"
  | PyStr s => s
  | PyInt n => pretty n
  end.

#[local] Set Warnings "-register-all".

(** What [json.loads] returns.  A dict is kept as its items in order. *)
Inductive json :=
| JNull
| JBool (b : bool)
| JInt (n : Z)
| JFloat (q : Q)
| JStr (s : string)
| JList (items : list json)
| JDict (items : list (string * json)).

(** The exceptions that occur in the class and in what it calls. *)
Inductive exn :=
| MissingConfiguration (msg : string)
| Exception (msg : string)
| ValueError
| IndexError
| TypeError
| KeyError (key : string)
| AttributeError
| AssertionError
| StreamClosedError
| gaierror
| UnicodeDecodeError
| OverflowError.

(** [str(self._twitter_stream)]: the identity of a stream object.  Stream
    objects are numbered in the order of their creation and are never
    reused, so the token of a stream is its number. *)
Abbreviation token := nat (only parsing).

(** A callable given by the user of the class ([callback], [error_callback],
    [rate_limited_callback]).  Calling one is recorded in the trace of the
    world; it does not raise and does not call back into the object. *)
Abbreviation handler := nat (only parsing).

(** The callables the class hands to the loop and to its streams: bound
    methods, and the lambdas and the local function of the source that
    close over [id] or [exception_string]. *)
Inductive callback :=
| cb_open_twitter_stream
| cb_stall_callback
| cb_close_before_established_callback
| cb_close_callback
| cb_none                                   (* lambda: None *)
| cb_on_connect (id : token)                (* lambda: self.on_connect(id) *)
| cb_on_headers (id : token)
| cb_on_result (id : token)
| cb_parse_json (id : token)
| cb_get_error_body (exception_string : string).

(** [oauthlib.oauth1.Client]: the constructor stores its arguments. *)
Record OAuthClient := {
  client_key : pyval;
  client_secret : pyval;
  resource_owner_key : pyval;
  resource_owner_secret : pyval
}.

(** The records of the [logging] calls and the [print] of the class, one
    constructor per call site, with the values formatted into the text. *)
Inductive log_record :=
| info_open_twitter_stream
| info_socket_address (address : string)
| error_rate_limited (delay : Z)
| error_connect_failed (response_code : Z) (delay : Z)
| info_established
| error_closed_by_remote
| error_closed_before_established
| error_close_callback
| error_stalled
| print_invalid_tweet (key : string).

(** What leaves the object: calls of the user's callables, and log
    records. *)
Inductive output :=
| Message (f : handler) (response : json)
| Error (f : handler) (error : exn)
| RateLimited (f : handler)
| Log (r : log_record).

(** ** The event loop and the streams *)

(** The part of tornado's [IOLoop] the class uses: a clock, and timeouts
    that can be added and removed.  A timeout is due once the clock has
    reached its deadline. *)
Record Timeout := {
  timeout_id : nat;
  deadline : Q;
  timeout_callback : callback
}.

Record IOLoop := {
  time : Q;
  timeouts : list Timeout;
  next_timeout : nat;
  callbacks : list callback                 (* queued by add_callback *)
}.

(** The operation a stream is waiting on. *)
Inductive pending :=
| Connect (address : string) (cb : callback)
| ReadUntil (delimiter : string) (cb : callback)
| ReadBytes (num_bytes : Z) (cb : callback).

(** The part of tornado's [IOStream] the class uses. *)
Record IOStream := {
  ssl : bool;
  closed : bool;
  close_callback_of : option callback;
  waiting : option pending;
  written : list string
}.

(** ** The object and the world *)

Record TweetStream := {
  _callback : option handler;
  _error_callback : option handler;
  _rate_limited_callback : option handler;
  _clean_message : bool;
  _configuration : gmap string pyval;
  _consumer_key : pyval;
  _consumer_secret : pyval;
  _oauth_client : option OAuthClient;
  _twitter_stream_host : pyval;
  _twitter_stream_scheme : pyval;
  _twitter_stream_port : pyval;
  _twitter_stream : option token;
  _stream_restart_scheduled : bool;
  _stream_restart_in_process : bool;
  _stream_restart_time : option Q;
  _retry_delay : Z;
  _retry_rate_limited_delay : Z;
  _retry_before_established_delay : Q;
  _timeout_handle : option nat;
  _stall_timeout_handle : option nat;
  _current_iostream : option token;
  _partial_tweet : string;
  _method : string;
  _path : string;
  _full_path : string;
  _parameters : list (string * string)
}.

(** Assignment to one attribute. *)
Definition upd_callback (v : option handler) (s : TweetStream) : TweetStream :=
  Build_TweetStream v (_error_callback s) (_rate_limited_callback s)
    (_clean_message s) (_configuration s) (_consumer_key s)
    (_consumer_secret s) (_oauth_client s) (_twitter_stream_host s)
    (_twitter_stream_scheme s) (_twitter_stream_port s) (_twitter_stream s)
    (_stream_restart_scheduled s) (_stream_restart_in_process s)
    (_stream_restart_time s) (_retry_delay s) (_retry_rate_limited_delay s)
    (_retry_before_established_delay s) (_timeout_handle s)
    (_stall_timeout_handle s) (_current_iostream s) (_partial_tweet s)
    (_method s) (_path s) (_full_path s) (_parameters s).
Definition upd_error_callback (v : option handler) (s : TweetStream) : TweetStream :=
  Build_TweetStream (_callback s) v (_rate_limited_callback s)
    (_clean_message s) (_configuration s) (_consumer_key s)
    (_consumer_secret s) (_oauth_client s) (_twitter_stream_host s)
    (_twitter_stream_scheme s) (_twitter_stream_port s) (_twitter_stream s)
    (_stream_restart_scheduled s) (_stream_restart_in_process s)
    (_stream_restart_time s) (_retry_delay s) (_retry_rate_limited_delay s)
    (_retry_before_established_delay s) (_timeout_handle s)
    (_stall_timeout_handle s) (_current_iostream s) (_partial_tweet s)
    (_method s) (_path s) (_full_path s) (_parameters s).
Definition upd_rate_limited_callback (v : option handler) (s : TweetStream) : TweetStream :=
  Build_TweetStream (_callback s) (_error_callback s) v (_clean_message s)
    (_configuration s) (_consumer_key s) (_consumer_secret s)
    (_oauth_client s) (_twitter_stream_host s) (_twitter_stream_scheme s)
    (_twitter_stream_port s) (_twitter_stream s)
    (_stream_restart_scheduled s) (_stream_restart_in_process s)
    (_stream_restart_time s) (_retry_delay s) (_retry_rate_limited_delay s)
    (_retry_before_established_delay s) (_timeout_handle s)
    (_stall_timeout_handle s) (_current_iostream s) (_partial_tweet s)
    (_method s) (_path s) (_full_path s) (_parameters s).
Definition upd_clean_message (v : bool) (s : TweetStream) : TweetStream :=
  Build_TweetStream (_callback s) (_error_callback s)
    (_rate_limited_callback s) v (_configuration s) (_consumer_key s)
    (_consumer_secret s) (_oauth_client s) (_twitter_stream_host s)
    (_twitter_stream_scheme s) (_twitter_stream_port s) (_twitter_stream s)
    (_stream_restart_scheduled s) (_stream_restart_in_process s)
    (_stream_restart_time s) (_retry_delay s) (_retry_rate_limited_delay s)
    (_retry_before_established_delay s) (_timeout_handle s)
    (_stall_timeout_handle s) (_current_iostream s) (_partial_tweet s)
    (_method s) (_path s) (_full_path s) (_parameters s).
Definition upd_configuration (v : gmap string pyval) (s : TweetStream) : TweetStream :=
  Build_TweetStream (_callback s) (_error_callback s)
    (_rate_limited_callback s) (_clean_message s) v (_consumer_key s)
    (_consumer_secret s) (_oauth_client s) (_twitter_stream_host s)
    (_twitter_stream_scheme s) (_twitter_stream_port s) (_twitter_stream s)
    (_stream_restart_scheduled s) (_stream_restart_in_process s)
    (_stream_restart_time s) (_retry_delay s) (_retry_rate_limited_delay s)
    (_retry_before_established_delay s) (_timeout_handle s)
    (_stall_timeout_handle s) (_current_iostream s) (_partial_tweet s)
    (_method s) (_path s) (_full_path s) (_parameters s).
Definition upd_consumer_key (v : pyval) (s : TweetStream) : TweetStream :=
  Build_TweetStream (_callback s) (_error_callback s)
    (_rate_limited_callback s) (_clean_message s) (_configuration s) v
    (_consumer_secret s) (_oauth_client s) (_twitter_stream_host s)
    (_twitter_stream_scheme s) (_twitter_stream_port s) (_twitter_stream s)
    (_stream_restart_scheduled s) (_stream_restart_in_process s)
    (_stream_restart_time s) (_retry_delay s) (_retry_rate_limited_delay s)
    (_retry_before_established_delay s) (_timeout_handle s)
    (_stall_timeout_handle s) (_current_iostream s) (_partial_tweet s)
    (_method s) (_path s) (_full_path s) (_parameters s).
Definition upd_consumer_secret (v : pyval) (s : TweetStream) : TweetStream :=
  Build_TweetStream (_callback s) (_error_callback s)
    (_rate_limited_callback s) (_clean_message s) (_configuration s)
    (_consumer_key s) v (_oauth_client s) (_twitter_stream_host s)
    (_twitter_stream_scheme s) (_twitter_stream_port s) (_twitter_stream s)
    (_stream_restart_scheduled s) (_stream_restart_in_process s)
    (_stream_restart_time s) (_retry_delay s) (_retry_rate_limited_delay s)
    (_retry_before_established_delay s) (_timeout_handle s)
    (_stall_timeout_handle s) (_current_iostream s) (_partial_tweet s)
    (_method s) (_path s) (_full_path s) (_parameters s).
Definition upd_oauth_client (v : option OAuthClient) (s : TweetStream) : TweetStream :=
  Build_TweetStream (_callback s) (_error_callback s)
    (_rate_limited_callback s) (_clean_message s) (_configuration s)
    (_consumer_key s) (_consumer_secret s) v (_twitter_stream_host s)
    (_twitter_stream_scheme s) (_twitter_stream_port s) (_twitter_stream s)
    (_stream_restart_scheduled s) (_stream_restart_in_process s)
    (_stream_restart_time s) (_retry_delay s) (_retry_rate_limited_delay s)
    (_retry_before_established_delay s) (_timeout_handle s)
    (_stall_timeout_handle s) (_current_iostream s) (_partial_tweet s)
    (_method s) (_path s) (_full_path s) (_parameters s).
Definition upd_twitter_stream_host (v : pyval) (s : TweetStream) : TweetStream :=
  Build_TweetStream (_callback s) (_error_callback s)
    (_rate_limited_callback s) (_clean_message s) (_configuration s)
    (_consumer_key s) (_consumer_secret s) (_oauth_client s) v
    (_twitter_stream_scheme s) (_twitter_stream_port s) (_twitter_stream s)
    (_stream_restart_scheduled s) (_stream_restart_in_process s)
    (_stream_restart_time s) (_retry_delay s) (_retry_rate_limited_delay s)
    (_retry_before_established_delay s) (_timeout_handle s)
    (_stall_timeout_handle s) (_current_iostream s) (_partial_tweet s)
    (_method s) (_path s) (_full_path s) (_parameters s).
Definition upd_twitter_stream_scheme (v : pyval) (s : TweetStream) : TweetStream :=
  Build_TweetStream (_callback s) (_error_callback s)
    (_rate_limited_callback s) (_clean_message s) (_configuration s)
    (_consumer_key s) (_consumer_secret s) (_oauth_client s)
    (_twitter_stream_host s) v (_twitter_stream_port s) (_twitter_stream s)
    (_stream_restart_scheduled s) (_stream_restart_in_process s)
    (_stream_restart_time s) (_retry_delay s) (_retry_rate_limited_delay s)
    (_retry_before_established_delay s) (_timeout_handle s)
    (_stall_timeout_handle s) (_current_iostream s) (_partial_tweet s)
    (_method s) (_path s) (_full_path s) (_parameters s).
Definition upd_twitter_stream_port (v : pyval) (s : TweetStream) : TweetStream :=
  Build_TweetStream (_callback s) (_error_callback s)
    (_rate_limited_callback s) (_clean_message s) (_configuration s)
    (_consumer_key s) (_consumer_secret s) (_oauth_client s)
    (_twitter_stream_host s) (_twitter_stream_scheme s) v
    (_twitter_stream s) (_stream_restart_scheduled s)
    (_stream_restart_in_process s) (_stream_restart_time s) (_retry_delay s)
    (_retry_rate_limited_delay s) (_retry_before_established_delay s)
    (_timeout_handle s) (_stall_timeout_handle s) (_current_iostream s)
    (_partial_tweet s) (_method s) (_path s) (_full_path s) (_parameters s).
Definition upd_twitter_stream (v : option token) (s : TweetStream) : TweetStream :=
  Build_TweetStream (_callback s) (_error_callback s)
    (_rate_limited_callback s) (_clean_message s) (_configuration s)
    (_consumer_key s) (_consumer_secret s) (_oauth_client s)
    (_twitter_stream_host s) (_twitter_stream_scheme s)
    (_twitter_stream_port s) v (_stream_restart_scheduled s)
    (_stream_restart_in_process s) (_stream_restart_time s) (_retry_delay s)
    (_retry_rate_limited_delay s) (_retry_before_established_delay s)
    (_timeout_handle s) (_stall_timeout_handle s) (_current_iostream s)
    (_partial_tweet s) (_method s) (_path s) (_full_path s) (_parameters s).
Definition upd_stream_restart_scheduled (v : bool) (s : TweetStream) : TweetStream :=
  Build_TweetStream (_callback s) (_error_callback s)
    (_rate_limited_callback s) (_clean_message s) (_configuration s)
    (_consumer_key s) (_consumer_secret s) (_oauth_client s)
    (_twitter_stream_host s) (_twitter_stream_scheme s)
    (_twitter_stream_port s) (_twitter_stream s) v
    (_stream_restart_in_process s) (_stream_restart_time s) (_retry_delay s)
    (_retry_rate_limited_delay s) (_retry_before_established_delay s)
    (_timeout_handle s) (_stall_timeout_handle s) (_current_iostream s)
    (_partial_tweet s) (_method s) (_path s) (_full_path s) (_parameters s).
Definition upd_stream_restart_in_process (v : bool) (s : TweetStream) : TweetStream :=
  Build_TweetStream (_callback s) (_error_callback s)
    (_rate_limited_callback s) (_clean_message s) (_configuration s)
    (_consumer_key s) (_consumer_secret s) (_oauth_client s)
    (_twitter_stream_host s) (_twitter_stream_scheme s)
    (_twitter_stream_port s) (_twitter_stream s)
    (_stream_restart_scheduled s) v (_stream_restart_time s)
    (_retry_delay s) (_retry_rate_limited_delay s)
    (_retry_before_established_delay s) (_timeout_handle s)
    (_stall_timeout_handle s) (_current_iostream s) (_partial_tweet s)
    (_method s) (_path s) (_full_path s) (_parameters s).
Definition upd_stream_restart_time (v : option Q) (s : TweetStream) : TweetStream :=
  Build_TweetStream (_callback s) (_error_callback s)
    (_rate_limited_callback s) (_clean_message s) (_configuration s)
    (_consumer_key s) (_consumer_secret s) (_oauth_client s)
    (_twitter_stream_host s) (_twitter_stream_scheme s)
    (_twitter_stream_port s) (_twitter_stream s)
    (_stream_restart_scheduled s) (_stream_restart_in_process s) v
    (_retry_delay s) (_retry_rate_limited_delay s)
    (_retry_before_established_delay s) (_timeout_handle s)
    (_stall_timeout_handle s) (_current_iostream s) (_partial_tweet s)
    (_method s) (_path s) (_full_path s) (_parameters s).
Definition upd_retry_delay (v : Z) (s : TweetStream) : TweetStream :=
  Build_TweetStream (_callback s) (_error_callback s)
    (_rate_limited_callback s) (_clean_message s) (_configuration s)
    (_consumer_key s) (_consumer_secret s) (_oauth_client s)
    (_twitter_stream_host s) (_twitter_stream_scheme s)
    (_twitter_stream_port s) (_twitter_stream s)
    (_stream_restart_scheduled s) (_stream_restart_in_process s)
    (_stream_restart_time s) v (_retry_rate_limited_delay s)
    (_retry_before_established_delay s) (_timeout_handle s)
    (_stall_timeout_handle s) (_current_iostream s) (_partial_tweet s)
    (_method s) (_path s) (_full_path s) (_parameters s).
Definition upd_retry_rate_limited_delay (v : Z) (s : TweetStream) : TweetStream :=
  Build_TweetStream (_callback s) (_error_callback s)
    (_rate_limited_callback s) (_clean_message s) (_configuration s)
    (_consumer_key s) (_consumer_secret s) (_oauth_client s)
    (_twitter_stream_host s) (_twitter_stream_scheme s)
    (_twitter_stream_port s) (_twitter_stream s)
    (_stream_restart_scheduled s) (_stream_restart_in_process s)
    (_stream_restart_time s) (_retry_delay s) v
    (_retry_before_established_delay s) (_timeout_handle s)
    (_stall_timeout_handle s) (_current_iostream s) (_partial_tweet s)
    (_method s) (_path s) (_full_path s) (_parameters s).
Definition upd_retry_before_established_delay (v : Q) (s : TweetStream) : TweetStream :=
  Build_TweetStream (_callback s) (_error_callback s)
    (_rate_limited_callback s) (_clean_message s) (_configuration s)
    (_consumer_key s) (_consumer_secret s) (_oauth_client s)
    (_twitter_stream_host s) (_twitter_stream_scheme s)
    (_twitter_stream_port s) (_twitter_stream s)
    (_stream_restart_scheduled s) (_stream_restart_in_process s)
    (_stream_restart_time s) (_retry_delay s) (_retry_rate_limited_delay s)
    v (_timeout_handle s) (_stall_timeout_handle s) (_current_iostream s)
    (_partial_tweet s) (_method s) (_path s) (_full_path s) (_parameters s).
Definition upd_timeout_handle (v : option nat) (s : TweetStream) : TweetStream :=
  Build_TweetStream (_callback s) (_error_callback s)
    (_rate_limited_callback s) (_clean_message s) (_configuration s)
    (_consumer_key s) (_consumer_secret s) (_oauth_client s)
    (_twitter_stream_host s) (_twitter_stream_scheme s)
    (_twitter_stream_port s) (_twitter_stream s)
    (_stream_restart_scheduled s) (_stream_restart_in_process s)
    (_stream_restart_time s) (_retry_delay s) (_retry_rate_limited_delay s)
    (_retry_before_established_delay s) v (_stall_timeout_handle s)
    (_current_iostream s) (_partial_tweet s) (_method s) (_path s)
    (_full_path s) (_parameters s).
Definition upd_stall_timeout_handle (v : option nat) (s : TweetStream) : TweetStream :=
  Build_TweetStream (_callback s) (_error_callback s)
    (_rate_limited_callback s) (_clean_message s) (_configuration s)
    (_consumer_key s) (_consumer_secret s) (_oauth_client s)
    (_twitter_stream_host s) (_twitter_stream_scheme s)
    (_twitter_stream_port s) (_twitter_stream s)
    (_stream_restart_scheduled s) (_stream_restart_in_process s)
    (_stream_restart_time s) (_retry_delay s) (_retry_rate_limited_delay s)
    (_retry_before_established_delay s) (_timeout_handle s) v
    (_current_iostream s) (_partial_tweet s) (_method s) (_path s)
    (_full_path s) (_parameters s).
Definition upd_current_iostream (v : option token) (s : TweetStream) : TweetStream :=
  Build_TweetStream (_callback s) (_error_callback s)
    (_rate_limited_callback s) (_clean_message s) (_configuration s)
    (_consumer_key s) (_consumer_secret s) (_oauth_client s)
    (_twitter_stream_host s) (_twitter_stream_scheme s)
    (_twitter_stream_port s) (_twitter_stream s)
    (_stream_restart_scheduled s) (_stream_restart_in_process s)
    (_stream_restart_time s) (_retry_delay s) (_retry_rate_limited_delay s)
    (_retry_before_established_delay s) (_timeout_handle s)
    (_stall_timeout_handle s) v (_partial_tweet s) (_method s) (_path s)
    (_full_path s) (_parameters s).
Definition upd_partial_tweet (v : string) (s : TweetStream) : TweetStream :=
  Build_TweetStream (_callback s) (_error_callback s)
    (_rate_limited_callback s) (_clean_message s) (_configuration s)
    (_consumer_key s) (_consumer_secret s) (_oauth_client s)
    (_twitter_stream_host s) (_twitter_stream_scheme s)
    (_twitter_stream_port s) (_twitter_stream s)
    (_stream_restart_scheduled s) (_stream_restart_in_process s)
    (_stream_restart_time s) (_retry_delay s) (_retry_rate_limited_delay s)
    (_retry_before_established_delay s) (_timeout_handle s)
    (_stall_timeout_handle s) (_current_iostream s) v (_method s) (_path s)
    (_full_path s) (_parameters s).
Definition upd_method (v : string) (s : TweetStream) : TweetStream :=
  Build_TweetStream (_callback s) (_error_callback s)
    (_rate_limited_callback s) (_clean_message s) (_configuration s)
    (_consumer_key s) (_consumer_secret s) (_oauth_client s)
    (_twitter_stream_host s) (_twitter_stream_scheme s)
    (_twitter_stream_port s) (_twitter_stream s)
    (_stream_restart_scheduled s) (_stream_restart_in_process s)
    (_stream_restart_time s) (_retry_delay s) (_retry_rate_limited_delay s)
    (_retry_before_established_delay s) (_timeout_handle s)
    (_stall_timeout_handle s) (_current_iostream s) (_partial_tweet s) v
    (_path s) (_full_path s) (_parameters s).
Definition upd_path (v : string) (s : TweetStream) : TweetStream :=
  Build_TweetStream (_callback s) (_error_callback s)
    (_rate_limited_callback s) (_clean_message s) (_configuration s)
    (_consumer_key s) (_consumer_secret s) (_oauth_client s)
    (_twitter_stream_host s) (_twitter_stream_scheme s)
    (_twitter_stream_port s) (_twitter_stream s)
    (_stream_restart_scheduled s) (_stream_restart_in_process s)
    (_stream_restart_time s) (_retry_delay s) (_retry_rate_limited_delay s)
    (_retry_before_established_delay s) (_timeout_handle s)
    (_stall_timeout_handle s) (_current_iostream s) (_partial_tweet s)
    (_method s) v (_full_path s) (_parameters s).
Definition upd_full_path (v : string) (s : TweetStream) : TweetStream :=
  Build_TweetStream (_callback s) (_error_callback s)
    (_rate_limited_callback s) (_clean_message s) (_configuration s)
    (_consumer_key s) (_consumer_secret s) (_oauth_client s)
    (_twitter_stream_host s) (_twitter_stream_scheme s)
    (_twitter_stream_port s) (_twitter_stream s)
    (_stream_restart_scheduled s) (_stream_restart_in_process s)
    (_stream_restart_time s) (_retry_delay s) (_retry_rate_limited_delay s)
    (_retry_before_established_delay s) (_timeout_handle s)
    (_stall_timeout_handle s) (_current_iostream s) (_partial_tweet s)
    (_method s) (_path s) v (_parameters s).
Definition upd_parameters (v : list (string * string)) (s : TweetStream) : TweetStream :=
  Build_TweetStream (_callback s) (_error_callback s)
    (_rate_limited_callback s) (_clean_message s) (_configuration s)
    (_consumer_key s) (_consumer_secret s) (_oauth_client s)
    (_twitter_stream_host s) (_twitter_stream_scheme s)
    (_twitter_stream_port s) (_twitter_stream s)
    (_stream_restart_scheduled s) (_stream_restart_in_process s)
    (_stream_restart_time s) (_retry_delay s) (_retry_rate_limited_delay s)
    (_retry_before_established_delay s) (_timeout_handle s)
    (_stall_timeout_handle s) (_current_iostream s) (_partial_tweet s)
    (_method s) (_path s) (_full_path s) v.

Record World := {
  self : TweetStream;
  ioloop : IOLoop;
  streams : list IOStream;
  trace : list output
}.

Definition set_self (v : TweetStream) (w : World) : World :=
  Build_World v (ioloop w) (streams w) (trace w).
Definition set_ioloop (v : IOLoop) (w : World) : World :=
  Build_World (self w) v (streams w) (trace w).
Definition set_streams (v : list IOStream) (w : World) : World :=
  Build_World (self w) (ioloop w) v (trace w).
Definition set_trace (v : list output) (w : World) : World :=
  Build_World (self w) (ioloop w) (streams w) v.

(** ** Computations

    A method is a function from the world to a result: a value and the new
    world, or an exception and the world in which it was raised. *)

Inductive result (A : Type) :=
| Ok (a : A) (w : World)
| Raise (e : exn) (w : World).
Arguments Ok {A} a w.
Arguments Raise {A} e w.

Definition M (A : Type) : Type := World -> result A.

Definition ret {A} (a : A) : M A := fun w => Ok a w.

Definition bind {A B} (m : M A) (k : A -> M B) : M B :=
  fun w => match m w with
           | Ok a w' => k a w'
           | Raise e w' => Raise e w'
           end.

Definition raise {A} (e : exn) : M A := fun w => Raise e w.

Declare Scope py_scope.
Delimit Scope py_scope with py.
Notation "x <- m ;; k" := (bind m (fun x => k))
  (at level 100, m at next level, right associativity) : py_scope.
Notation "m ;; k" := (bind m (fun _ => k))
  (at level 100, right associativity) : py_scope.
Open Scope py_scope.

(** Reading and assigning the fields of [self]. *)
Definition get {A} (f : TweetStream -> A) : M A := fun w => Ok (f (self w)) w.

Definition assign (f : TweetStream -> TweetStream) : M unit :=
  fun w => Ok tt (set_self (f (self w)) w).

Definition emit (o : output) : M unit :=
  fun w => Ok tt (set_trace (trace w ++ [o]) w).

Definition logging (r : log_record) : M unit := emit (Log r).

(** The world a computation ends in, whether it returned or raised. *)
Definition world_of {A} (r : result A) : World :=
  match r with Ok _ w => w | Raise _ w => w end.

Definition raised {A} (r : result A) : option exn :=
  match r with Ok _ _ => None | Raise e _ => Some e end.

(** ** What the class imports

    The functions of [json], [urllib], [oauthlib] and [socket] that the
    class calls are an interface: the class is verified for every
    implementation of it.  [json_loads] returns [None] where [json.loads]
    raises [ValueError], [getaddrinfo] where [socket.getaddrinfo] raises;
    [urlparse] gives the [path] and the [query] of the parts, and [sign] the
    headers of the signed request.

    So are the built-ins whose result depends on the Unicode character
    database and on the version of Python: [s.strip()], [s.split()],
    [s.splitlines()], [s.lower()], and [int(s, base)], which is [None]
    where [int] raises [ValueError].  All that is used of them is that the
    empty text stripped is empty. *)
Class Library := {
  json_loads : string -> option json;
  urlparse : string -> string * string;
  parse_qs : string -> list (string * list string);
  urlencode : list (string * string) -> string;
  sign : option OAuthClient -> string -> list (string * string);
  getaddrinfo : pyval -> pyval -> option string;
  str_strip : string -> string;
  str_split : string -> list string;
  str_splitlines : string -> list string;
  str_lower : string -> string;
  int_of : Z -> string -> option Z;
  strip_empty : str_strip "" = ""
}.

(** ** [IOLoop] operations *)

Definition set_timeouts (ts : list Timeout) (l : IOLoop) : IOLoop :=
  {| time := time l; timeouts := ts;
     next_timeout := next_timeout l; callbacks := callbacks l |}.

(** [timedelta(seconds=seconds)] holds at most 999999999 days either way,
    and raises [OverflowError] beyond.  The class builds one for every
    timeout it sets; [seconds] is a whole number or a multiple of a quarter
    there, so that nothing is rounded. *)
Definition timedelta_fits (seconds : Q) : bool :=
  Qle_bool (-86399999913600) seconds
  && negb (Qle_bool 86400000000000 seconds).

Definition timedelta (seconds : Q) : M Q :=
  if timedelta_fits seconds then ret seconds else raise OverflowError.

(** [add_timeout(deadline, cb)] for a [timedelta]: the handle returned is
    a new one. *)
Definition ioloop_add_timeout (seconds : Q) (cb : callback) : M nat :=
  fun w =>
    let l := ioloop w in
    let t := {| timeout_id := next_timeout l;
                deadline := (time l + seconds)%Q;
                timeout_callback := cb |} in
    Ok (next_timeout l)
       (set_ioloop {| time := time l; timeouts := timeouts l ++ [t];
                      next_timeout := S (next_timeout l);
                      callbacks := callbacks l |} w).

Definition other_than (h : nat) (t : Timeout) : bool :=
  negb (Nat.eqb (timeout_id t) h).

(** [remove_timeout(handle)]: nothing happens when the timeout is gone. *)
Definition ioloop_remove_timeout (h : nat) : M unit :=
  fun w =>
    Ok tt (set_ioloop
             (set_timeouts (List.filter (other_than h) (timeouts (ioloop w)))
                (ioloop w)) w).

Definition ioloop_add_callback (cb : callback) : M unit :=
  fun w =>
    let l := ioloop w in
    Ok tt (set_ioloop {| time := time l; timeouts := timeouts l;
                         next_timeout := next_timeout l;
                         callbacks := callbacks l ++ [cb] |} w).

(** [datetime.now()] and [time.time()] read the clock of the loop. *)
Definition now : M Q := fun w => Ok (time (ioloop w)) w.

(** ** [IOStream] operations *)

Definition stream_get (n : token) : M IOStream :=
  fun w => match streams w !! n with
           | Some st => Ok st w
           | None => Raise AttributeError w
           end.

Definition stream_put (n : token) (st : IOStream) : M unit :=
  fun w => Ok tt (set_streams (<[n := st]> (streams w)) w).

(** [stream_class(sock, io_loop=self._ioloop)] *)
Definition stream_new (use_ssl : bool) : M token :=
  fun w =>
    Ok (length (streams w))
       (set_streams
          (streams w ++ [{| ssl := use_ssl; closed := false;
                            close_callback_of := None; waiting := None;
                            written := [] |}]) w).

Definition stream_set_close_callback (n : token) (cb : callback) : M unit :=
  st <- stream_get n ;;
  stream_put n {| ssl := ssl st; closed := closed st;
                  close_callback_of := Some cb; waiting := waiting st;
                  written := written st |}.

Definition stream_closed (n : token) : M bool :=
  st <- stream_get n ;; ret (closed st).

(** Registering the operation the stream waits on: tornado asserts that no
    other one is pending, and refuses a closed stream. *)
Definition stream_wait (n : token) (p : pending) : M unit :=
  st <- stream_get n ;;
  match waiting st with
  | Some _ => raise AssertionError
  | None =>
      if closed st then raise StreamClosedError
      else stream_put n {| ssl := ssl st; closed := closed st;
                           close_callback_of := close_callback_of st;
                           waiting := Some p; written := written st |}
  end.

Definition stream_connect (n : token) (address : string) (cb : callback)
  : M unit := stream_wait n (Connect address cb).

Definition stream_read_until (n : token) (delimiter : string)
  (cb : callback) : M unit := stream_wait n (ReadUntil delimiter cb).

Definition stream_read_bytes (n : token) (num_bytes : Z) (cb : callback)
  : M unit := stream_wait n (ReadBytes num_bytes cb).

Definition stream_write (n : token) (data : string) : M unit :=
  st <- stream_get n ;;
  if closed st then raise StreamClosedError
  else stream_put n {| ssl := ssl st; closed := closed st;
                       close_callback_of := close_callback_of st;
                       waiting := waiting st;
                       written := written st ++ [data] |}.

(** [close()]: a closed stream stays as it is; an open one is closed, what
    it waited on is dropped, and its close callback, if any, is queued on
    the loop and forgotten by the stream. *)
Definition stream_close (n : token) : M unit :=
  st <- stream_get n ;;
  if closed st then ret tt
  else
    stream_put n {| ssl := ssl st; closed := true;
                    close_callback_of := None; waiting := None;
                    written := written st |} ;;
    match close_callback_of st with
    | Some cb => ioloop_add_callback cb
    | None => ret tt
    end.

(** [self._twitter_stream.m(...)]: an attribute of [None] is an
    [AttributeError]. *)
Definition twitter_stream : M token :=
  s <- get _twitter_stream ;;
  match s with
  | Some n => ret n
  | None => raise AttributeError
  end.

#[global] Instance pyval_eq_dec : EqDecision pyval.
Proof. solve_decision. Defined.

Definition Qltb (a b : Q) : bool := negb (Qle_bool b a).

Definition NL : string := String "010" "".

(** ** The methods of [TweetStream] *)

Section TweetStream.

Context `{Library}.

Definition set_token (access_token access_secret : pyval) : M unit :=
  consumer_key <- get _consumer_key ;;
  consumer_secret <- get _consumer_secret ;;
  assign (upd_oauth_client
            (Some {| client_key := consumer_key;
                     client_secret := consumer_secret;
                     resource_owner_key := access_token;
                     resource_owner_secret := access_secret |})).

(** [default] is [PyNone] where the source leaves it out. *)
Definition _get_configuration_key (key : string) (default : pyval)
  : M pyval :=
  configuration <- get _configuration ;;
  let configured_value := from_option id default (configuration !! key) in
  match configured_value with
  | PyNone =>
      raise (MissingConfiguration ("Missing configuration item: " +:+ key))
  | _ => ret configured_value
  end.

Definition __init__ (configuration : gmap string pyval) (clean : bool)
  : M unit :=
  assign (upd_callback None) ;;
  assign (upd_error_callback None) ;;
  assign (upd_rate_limited_callback None) ;;
  assign (upd_clean_message clean) ;;
  assign (upd_configuration configuration) ;;
  v <- _get_configuration_key "twitter_consumer_key" PyNone ;;
  assign (upd_consumer_key v) ;;
  v <- _get_configuration_key "twitter_consumer_secret" PyNone ;;
  assign (upd_consumer_secret v) ;;
  access_token <- _get_configuration_key "twitter_access_token" PyNone ;;
  access_secret <-
    _get_configuration_key "twitter_access_token_secret" PyNone ;;
  set_token access_token access_secret ;;
  v <- _get_configuration_key "twitter_stream_host"
         (PyStr "stream.twitter.com") ;;
  assign (upd_twitter_stream_host v) ;;
  v <- _get_configuration_key "twitter_stream_scheme" (PyStr "https") ;;
  assign (upd_twitter_stream_scheme v) ;;
  v <- _get_configuration_key "twitter_stream_port" (PyInt 443) ;;
  assign (upd_twitter_stream_port v) ;;
  assign (upd_twitter_stream None) ;;
  assign (upd_stream_restart_scheduled false) ;;
  assign (upd_stream_restart_in_process false) ;;
  assign (upd_stream_restart_time None) ;;
  assign (upd_retry_delay 5) ;;
  assign (upd_retry_rate_limited_delay 60) ;;
  assign (upd_retry_before_established_delay (1 # 4)%Q) ;;
  assign (upd_timeout_handle None) ;;
  assign (upd_stall_timeout_handle None) ;;
  assign (upd_current_iostream None) ;;
  assign (upd_partial_tweet "").

Definition set_error_callback (error_callback : option handler) : M unit :=
  assign (upd_error_callback error_callback).

Definition on_error (error : exn) : M unit :=
  error_callback <- get _error_callback ;;
  match error_callback with
  | Some f => emit (Error f error)
  | None => raise error
  end.

Definition remove_stall_timeout : M unit :=
  handle <- get _stall_timeout_handle ;;
  match handle with
  | Some h =>
      ioloop_remove_timeout h ;;
      assign (upd_stall_timeout_handle None)
  | None => ret tt
  end.

Definition set_stall_timeout : M unit :=
  remove_stall_timeout ;;
  delta <- timedelta 90 ;;
  h <- ioloop_add_timeout delta cb_stall_callback ;;
  assign (upd_stall_timeout_handle (Some h)).

Definition remove_timeout : M unit :=
  handle <- get _timeout_handle ;;
  match handle with
  | Some h =>
      ioloop_remove_timeout h ;;
      assign (upd_timeout_handle None)
  | None => ret tt
  end.

Definition add_timeout (seconds : Q) (cb : callback) : M unit :=
  remove_timeout ;;
  delta <- timedelta seconds ;;
  h <- ioloop_add_timeout delta cb ;;
  assign (upd_timeout_handle (Some h)).

Definition close_helper : M unit :=
  remove_timeout ;;
  remove_stall_timeout ;;
  s <- twitter_stream ;;
  stream_close s.

Definition close : M unit :=
  stream <- get _twitter_stream ;;
  match stream with
  | Some s =>
      stream_set_close_callback s cb_none ;;
      close_helper
  | None => ret tt
  end.

(** [schedule_restart] and [open_twitter_stream] call each other.
    [schedule_restart_from] takes the method it calls for [seconds == 0] as
    an argument; [open_twitter_stream] only calls it with 5 seconds, so
    what it passes is never run (lemma [open_twitter_stream_unfold]). *)
Definition schedule_restart_from (open_twitter_stream : M unit)
  (seconds : Q) : M unit :=
  scheduled <- get _stream_restart_scheduled ;;
  in_process <- get _stream_restart_in_process ;;
  if negb scheduled && negb in_process
  then
    assign (upd_stream_restart_scheduled true) ;;
    if Qeq_bool seconds 0
    then open_twitter_stream
    else add_timeout seconds cb_open_twitter_stream
  else ret tt.

Definition open_twitter_stream_from (open_twitter_stream : M unit)
  : M unit :=
  logging info_open_twitter_stream ;;
  assign (upd_stream_restart_scheduled false) ;;
  restart_time <- get _stream_restart_time ;;
  t <- now ;;
  if match restart_time with
     | Some t0 => Qltb (t - t0) 5
     | None => false
     end
  then schedule_restart_from open_twitter_stream 5
  else
    assign (upd_stream_restart_time (Some t)) ;;
    assign (upd_stream_restart_in_process true) ;;
    stream <- get _twitter_stream ;;
    match stream with Some _ => close | None => ret tt end ;;
    host <- get _twitter_stream_host ;;
    port <- get _twitter_stream_port ;;
    match getaddrinfo host port with
    | None => raise gaierror
    | Some socket_address =>
        logging (info_socket_address socket_address) ;;
        scheme <- get _twitter_stream_scheme ;;
        s <- stream_new (bool_decide (scheme = PyStr "https")) ;;
        assign (upd_twitter_stream (Some s)) ;;
        stream_set_close_callback s cb_close_before_established_callback ;;
        assign (upd_current_iostream (Some s)) ;;
        stream_connect s socket_address (cb_on_connect s)
    end.

Definition open_twitter_stream : M unit :=
  open_twitter_stream_from (ret tt).

Definition schedule_restart (seconds : Q) : M unit :=
  schedule_restart_from open_twitter_stream seconds.

(** [dict([(key, value[0]) ... if value])] over the items of [parse_qs]. *)
Definition first_values (items : list (string * list string))
  : list (string * string) :=
  omap (fun kv => match snd kv with
                  | v :: _ => Some (fst kv, v)
                  | [] => None
                  end) items.

Definition fetch (path method : string)
  (callback rate_limited_callback : option handler) : M unit :=
  let parts := urlparse path in
  assign (upd_method method) ;;
  assign (upd_callback callback) ;;
  assign (upd_rate_limited_callback rate_limited_callback) ;;
  assign (upd_path (fst parts)) ;;
  assign (upd_full_path (fst parts)) ;;
  assign (upd_parameters []) ;;
  (if bool_decide (snd parts = "") then ret tt
   else assign (fun s => upd_full_path (_full_path s +:+ "?" +:+ snd parts) s)) ;;
  assign (upd_parameters (first_values (parse_qs (snd parts)))) ;;
  schedule_restart 0.

(** [d[key] = value] on a dict kept as its items: a key that is present
    keeps its place. *)
Fixpoint dict_set (key value : string) (d : list (string * string))
  : list (string * string) :=
  match d with
  | [] => [(key, value)]
  | (k, v) :: d' =>
      if String.eqb k key then (k, value) :: d'
      else (k, v) :: dict_set key value d'
  end.

(** The text [on_connect] writes: the request line, one line per header,
    and the empty line. *)
Definition request_text (full_path : string)
  (headers : list (string * string)) : string :=
  PyStr.join PyStr.CRLF
    (("GET " +:+ full_path +:+ " HTTP/1.1")
       :: map (fun kv => fst kv +:+ ": " +:+ snd kv) headers)
  +:+ PyStr.CRLF +:+ PyStr.CRLF.

Definition on_connect (id : token) : M unit :=
  current <- get _current_iostream ;;
  if negb (bool_decide (current = Some id)) then ret tt
  else
    scheme <- get _twitter_stream_scheme ;;
    host <- get _twitter_stream_host ;;
    path <- get _path ;;
    parameters <- get _parameters ;;
    let url := pystr scheme +:+ "://" +:+ pystr host +:+ path +:+ "?"
               +:+ urlencode parameters in
    client <- get _oauth_client ;;
    let headers := sign client url in
    let headers := dict_set "Host" (pystr host) headers in
    let headers := dict_set "User-Agent" "TweetStream" headers in
    let headers := dict_set "Accept" "*/*" headers in
    full_path <- get _full_path ;;
    s <- twitter_stream ;;
    stream_write s (request_text full_path headers) ;;
    stream_read_until s (PyStr.CRLF +:+ PyStr.CRLF) (cb_on_headers id).

Definition wait_for_message (id : token) : M unit :=
  s <- twitter_stream ;;
  is_closed <- stream_closed s ;;
  if is_closed then logging error_closed_by_remote
  else stream_read_until s PyStr.CRLF (cb_on_result id).

(** [response.decode(encoding='UTF-8')] *)
Definition decode (response : string) : M string :=
  match PyStr.decode response with
  | Some text => ret text
  | None => raise UnicodeDecodeError
  end.

(** The status line of a response and its code, as [on_headers] reads
    them: [inl] is the exception of the first step that fails. *)
Definition status_of (response : string) : exn + (string * Z) :=
  match str_splitlines response with
  | [] => inl IndexError
  | status_line :: _ =>
      match str_split (PyStr.remove_all "HTTP/1.1" status_line) with
      | [] => inl IndexError
      | code :: _ =>
          match int_of 10 (str_strip code) with
          | None => inl ValueError
          | Some response_code => inr (status_line, response_code)
          end
      end
  end.

Definition header_item (l : string) : string * string :=
  let parts := PyStr.split_on ":" l in
  (str_lower (hd "" parts), PyStr.join ":" (tl parts)).

(** The dict of the header lines: a later line replaces an earlier one of
    the same name. *)
Definition headers_of (response : string) : gmap string string :=
  foldl (fun d kv => <[fst kv := snd kv]> d) ∅
    (map header_item (tl (str_splitlines response))).

(** [int(headers.get("content-length") or 0)]: [None] is [ValueError]. *)
Definition content_length_of (response : string) : option Z :=
  match headers_of response !! "content-length" with
  | None => Some 0
  | Some v => if bool_decide (v = "") then Some 0 else int_of 10 v
  end.

Definition fatal_codes : list Z := [401; 403; 404; 406; 413].

Definition is_fatal (response_code : Z) : bool :=
  existsb (Z.eqb response_code) fatal_codes.

Definition exception_string_of (status_line response : string) : string :=
  "Could not connect: " +:+ status_line +:+ NL +:+ response.

(** [content] is bytes, and [%s] formats it by its [repr]. *)
Definition get_error_body (exception_string content : string) : M unit :=
  let full_string := exception_string +:+ NL +:+ PyStr.bytes_repr content in
  on_error (Exception full_string).

(** The branches of [on_headers], by status code: 420, *)
Definition rate_limited : M unit :=
  delay <- get _retry_rate_limited_delay ;;
  logging (error_rate_limited delay) ;;
  assign (upd_stream_restart_in_process false) ;;
  schedule_restart (inject_Z delay) ;;
  assign (fun s => upd_retry_rate_limited_delay
                     (_retry_rate_limited_delay s * 2) s) ;;
  rate_limited_callback <- get _rate_limited_callback ;;
  match rate_limited_callback with
  | Some f => emit (RateLimited f)
  | None => ret tt
  end.

(** a code that is neither 200 nor 420 nor one of [fatal_codes], *)
Definition connect_failed (response_code : Z) : M unit :=
  delay <- get _retry_delay ;;
  logging (error_connect_failed response_code delay) ;;
  assign (upd_stream_restart_in_process false) ;;
  schedule_restart (inject_Z delay) ;;
  delay <- get _retry_delay ;;
  if delay <? 320
  then assign (upd_retry_delay (delay * 2))
  else ret tt.

(** one of [fatal_codes], *)
Definition could_not_connect (status_line response : string) : M unit :=
  let exception_string := exception_string_of status_line response in
  match content_length_of response with
  | None => raise ValueError
  | Some content_length =>
      if content_length =? 0
      then on_error (Exception exception_string)
      else
        s <- twitter_stream ;;
        stream_read_bytes s content_length
          (cb_get_error_body exception_string)
  end.

(** and 200. *)
Definition established (id : token) : M unit :=
  logging info_established ;;
  assign (upd_stream_restart_in_process false) ;;
  assign (upd_retry_delay 5) ;;
  assign (upd_retry_rate_limited_delay 60) ;;
  assign (upd_retry_before_established_delay (1 # 4)%Q) ;;
  s <- twitter_stream ;;
  stream_set_close_callback s cb_close_callback ;;
  set_stall_timeout ;;
  wait_for_message id.

Definition on_headers (response : string) (id : token) : M unit :=
  current <- get _current_iostream ;;
  if negb (bool_decide (current = Some id)) then ret tt
  else
    response <- decode response ;;
    s <- twitter_stream ;;
    stream_set_close_callback s cb_none ;;
    match status_of response with
    | inl e => raise e
    | inr (status_line, response_code) =>
        if negb (response_code =? 200)
        then
          if response_code =? 420 then rate_limited
          else if negb (is_fatal response_code)
          then connect_failed response_code
          else could_not_connect status_line response
        else established id
    end.

Definition on_result (response : string) (id : token) : M unit :=
  current <- get _current_iostream ;;
  if negb (bool_decide (current = Some id)) then ret tt
  else
    response <- decode response ;;
    if bool_decide (str_strip response = "") then wait_for_message id
    else
      match int_of 16 (str_strip response) with
      | None => raise ValueError
      | Some length =>
          s <- twitter_stream ;;
          stream_read_bytes s length (cb_parse_json id)
      end.

(** [v[key]]: a [KeyError] on a dict without the key, a [TypeError] on
    what is no dict. *)
Definition getitem (v : json) (key : string) : M json :=
  match v with
  | JDict items =>
      match List.find (fun kv => String.eqb (fst kv) key) items with
      | Some kv => ret (snd kv)
      | None => raise (KeyError key)
      end
  | _ => raise TypeError
  end.

(** [try: body  except KeyError as exc: handler] *)
Definition try_except_KeyError {A} (body : M A) (handler : string -> M A)
  : M A :=
  fun w => match body w with
           | Raise (KeyError key) w' => handler key w'
           | r => r
           end.

(** The fields the clean message is made of. *)
Definition clean_fields (response : json) : M (json * json * json * json) :=
  text <- getitem response "text" ;;
  user <- getitem response "user" ;;
  name <- getitem user "name" ;;
  user <- getitem response "user" ;;
  username <- getitem user "screen_name" ;;
  user <- getitem response "user" ;;
  avatar <- getitem user "profile_image_url_https" ;;
  ret (text, name, username, avatar).

Definition clean_message (fields : json * json * json * json) (t : Q)
  : json :=
  let '(text, name, username, avatar) := fields in
  JDict [("type", JStr "tweet"); ("text", text); ("avatar", avatar);
         ("name", name); ("username", username); ("time", JInt (Qfloor t))].

Definition deliver (response : json) (id : token) : M unit :=
  callback <- get _callback ;;
  match callback with
  | Some f => emit (Message f response)
  | None => ret tt
  end ;;
  wait_for_message id.

Definition parse_response (response : json) (id : token) : M unit :=
  clean <- get _clean_message ;;
  if clean
  then
    fields <-
      try_except_KeyError
        (fields <- clean_fields response ;;
         ret (Some fields))
        (fun exc =>
           logging (print_invalid_tweet exc) ;;
           wait_for_message id ;;
           ret None) ;;
    match fields with
    | None => ret tt
    | Some fields =>
        t <- now ;;
        deliver (clean_message fields t) id
    end
  else deliver response id.

Definition parse_json (response : string) (id : token) : M unit :=
  current <- get _current_iostream ;;
  if negb (bool_decide (current = Some id)) then ret tt
  else
    response <- decode response ;;
    set_stall_timeout ;;
    if bool_decide (str_strip response = "") then wait_for_message id
    else
      match json_loads response with
      | Some value =>
          assign (upd_partial_tweet "") ;;
          parse_response value id
      | None =>
          assign (fun s => upd_partial_tweet (_partial_tweet s +:+ response) s) ;;
          partial_tweet <- get _partial_tweet ;;
          match json_loads partial_tweet with
          | Some value =>
              assign (upd_partial_tweet "") ;;
              parse_response value id
          | None => wait_for_message id
          end
      end.

Definition close_before_established_callback : M unit :=
  logging error_closed_before_established ;;
  close ;;
  assign (upd_stream_restart_in_process false) ;;
  delay <- get _retry_before_established_delay ;;
  schedule_restart delay ;;
  delay <- get _retry_before_established_delay ;;
  if Qltb delay 16
  then assign (upd_retry_before_established_delay (delay + (1 # 4))%Q)
  else ret tt.

Definition close_callback : M unit :=
  logging error_close_callback ;;
  close_helper ;;
  schedule_restart 0.

Definition stall_callback : M unit :=
  logging error_stalled ;;
  close ;;
  schedule_restart 0.

End TweetStream.

(** ** The loop at work

    What the loop and the user do to the object.  A timeout runs once it is
    due; a stream completes the operation it waits on, or is closed by its
    peer; the loop runs the callbacks queued on it. *)

Section Loop.

Context `{Library}.

(** Calling a callable of the class; [data] is the argument of the
    callables that take one. *)
Definition call (cb : callback) (data : string) : M unit :=
  match cb with
  | cb_open_twitter_stream => open_twitter_stream
  | cb_stall_callback => stall_callback
  | cb_close_before_established_callback => close_before_established_callback
  | cb_close_callback => close_callback
  | cb_none => ret tt
  | cb_on_connect id => on_connect id
  | cb_on_headers id => on_headers data id
  | cb_on_result id => on_result data id
  | cb_parse_json id => parse_json data id
  | cb_get_error_body exception_string =>
      get_error_body exception_string data
  end.

Inductive event :=
| ev_fetch (path method : string) (callback rate_limited : option handler)
| ev_set_error_callback (error_callback : option handler)
| ev_sleep (seconds : Q)
| ev_timeout (h : nat)
| ev_callback
| ev_connected (s : token)
| ev_read (s : token) (data : string)
| ev_close (s : token).

Definition sleep (seconds : Q) : M unit :=
  fun w =>
    let l := ioloop w in
    Ok tt (set_ioloop {| time := (time l + seconds)%Q;
                         timeouts := timeouts l;
                         next_timeout := next_timeout l;
                         callbacks := callbacks l |} w).

Definition due (l : IOLoop) (t : Timeout) : bool :=
  Qle_bool (deadline t) (time l).

(** The loop runs timeout [h] if it is pending and due, and forgets it. *)
Definition fire (h : nat) : M unit :=
  fun w =>
    match List.find (fun t => Nat.eqb (timeout_id t) h) (timeouts (ioloop w))
    with
    | Some t =>
        if due (ioloop w) t
        then (ioloop_remove_timeout h ;; call (timeout_callback t) "") w
        else Ok tt w
    | None => Ok tt w
    end.

Definition run_queued : M unit :=
  fun w =>
    let l := ioloop w in
    match callbacks l with
    | cb :: rest =>
        call cb ""
          (set_ioloop {| time := time l; timeouts := timeouts l;
                         next_timeout := next_timeout l;
                         callbacks := rest |} w)
    | [] => Ok tt w
    end.

(** [data] completes the read [p]: it ends with the delimiter and holds it
    nowhere else, or has the number of bytes asked for. *)
Definition completes (p : pending) (data : string) : option callback :=
  match p with
  | Connect _ _ => None
  | ReadUntil delimiter cb =>
      let n := (String.length data - String.length delimiter)%nat in
      if (String.length delimiter <=? String.length data)%nat
         && bool_decide (String.index 0 delimiter data = Some n)
      then Some cb else None
  | ReadBytes num_bytes cb =>
      if Z.of_nat (String.length data) =? num_bytes then Some cb else None
  end.

(** A stream runs a callback of the class: when it raises, tornado closes
    the stream and lets the exception reach the loop. *)
Definition stream_call (s : token) (cb : callback) (data : string)
  : M unit :=
  fun w =>
    match call cb data w with
    | Raise e w' => Raise e (world_of (stream_close s w'))
    | r => r
    end.

Definition stream_unwait (s : token) : M unit :=
  st <- stream_get s ;;
  stream_put s {| ssl := ssl st; closed := closed st;
                  close_callback_of := close_callback_of st;
                  waiting := None; written := written st |}.

Definition connected (s : token) : M unit :=
  fun w =>
    match streams w !! s with
    | Some st =>
        match closed st, waiting st with
        | false, Some (Connect _ cb) =>
            (stream_unwait s ;; stream_call s cb "") w
        | _, _ => Ok tt w
        end
    | None => Ok tt w
    end.

Definition read (s : token) (data : string) : M unit :=
  fun w =>
    match streams w !! s with
    | Some st =>
        match closed st, waiting st with
        | false, Some p =>
            match completes p data with
            | Some cb => (stream_unwait s ;; stream_call s cb data) w
            | None => Ok tt w
            end
        | _, _ => Ok tt w
        end
    | None => Ok tt w
    end.

Definition peer_close (s : token) : M unit :=
  fun w =>
    match streams w !! s with
    | Some _ => stream_close s w
    | None => Ok tt w
    end.

Definition step (e : event) : M unit :=
  match e with
  | ev_fetch path method callback rate_limited =>
      fetch path method callback rate_limited
  | ev_set_error_callback error_callback =>
      set_error_callback error_callback
  | ev_sleep seconds => sleep seconds
  | ev_timeout h => fire h
  | ev_callback => run_queued
  | ev_connected s => connected s
  | ev_read s data => read s data
  | ev_close s => peer_close s
  end.

(** The loop survives an exception of a callback: it goes on in the world
    the callback left. *)
Fixpoint run (events : list event) (w : World) : World :=
  match events with
  | [] => w
  | e :: rest => run rest (world_of (step e w))
  end.

End Loop.

(** A new object, before [__init__] has assigned its attributes. *)
Definition object_new : TweetStream :=
  {| _callback := None; _error_callback := None;
     _rate_limited_callback := None; _clean_message := false;
     _configuration := ∅; _consumer_key := PyNone;
     _consumer_secret := PyNone; _oauth_client := None;
     _twitter_stream_host := PyNone; _twitter_stream_scheme := PyNone;
     _twitter_stream_port := PyNone; _twitter_stream := None;
     _stream_restart_scheduled := false;
     _stream_restart_in_process := false; _stream_restart_time := None;
     _retry_delay := 0; _retry_rate_limited_delay := 0;
     _retry_before_established_delay := 0%Q; _timeout_handle := None;
     _stall_timeout_handle := None; _current_iostream := None;
     _partial_tweet := ""; _method := ""; _path := ""; _full_path := "";
     _parameters := [] |}.

(** The world before the object is built: a loop whose clock reads [t]. *)
Definition boot (t : Q) : World :=
  {| self := object_new;
     ioloop := {| time := t; timeouts := []; next_timeout := 0%nat;
                  callbacks := [] |};
     streams := []; trace := [] |}.

(** [TweetStream(configuration, clean=clean)] on a loop whose clock reads
    [t]. *)
Definition TweetStream_ (configuration : gmap string pyval)
  (clean : bool) (t : Q) : result unit :=
  __init__ configuration clean (boot t).

(** ** An implementation of the interface, for running the class

    [loads] reads the JSON texts made of integers, strings without escapes,
    [true], [false], [null], lists and dicts; it is used on such texts
    only.  The other functions are simple stand-ins. *)

Module Sample.

Definition is_ws (c : ascii) : bool :=
  let n := PyStr.code c in ((n =? 32) || (n =? 9) || (n =? 10) || (n =? 13))%N.

Fixpoint skip_ws (l : list ascii) : list ascii :=
  match l with
  | c :: l' => if is_ws c then skip_ws l' else l
  | [] => []
  end.

Definition is_digit (c : ascii) : bool :=
  let n := PyStr.code c in ((48 <=? n) && (n <=? 57))%N.

Fixpoint number (acc : Z) (l : list ascii) : Z * list ascii :=
  match l with
  | c :: l' =>
      if is_digit c then number (10 * acc + (Z.of_N (PyStr.code c) - 48)) l'
      else (acc, l)
  | [] => (acc, [])
  end.

(** An integer without sign: no leading zero, no fraction, no exponent. *)
Definition natural (l : list ascii) : option (Z * list ascii) :=
  match l with
  | c :: l' =>
      if is_digit c
      then
        let '(n, rest) := number 0 l in
        match rest with
        | "."%char :: _ | "e"%char :: _ | "E"%char :: _ => None
        | _ =>
            if Ascii.eqb c "0" && negb (bool_decide (l' = rest)) then None
            else Some (n, rest)
        end
      else None
  | [] => None
  end.

Fixpoint text (acc : list ascii) (l : list ascii)
  : option (string * list ascii) :=
  match l with
  | [] => None
  | c :: l' =>
      if Ascii.eqb c "034" then Some (PyStr.str (rev acc), l')
      else if Ascii.eqb c "\" || (PyStr.code c <? 32)%N then None
      else text (c :: acc) l'
  end.

Definition literal (word : string) (v : json) (l : list ascii)
  : option (json * list ascii) :=
  let n := String.length word in
  if bool_decide (take n l = PyStr.chars word) then Some (v, drop n l)
  else None.

Fixpoint value (fuel : nat) (l : list ascii) : option (json * list ascii) :=
  match fuel with
  | O => None
  | S fuel =>
      match skip_ws l with
      | "["%char :: r =>
          match skip_ws r with
          | "]"%char :: r' => Some (JList [], r')
          | _ => elements fuel [] r
          end
      | "{"%char :: r =>
          match skip_ws r with
          | "}"%char :: r' => Some (JDict [], r')
          | _ => members fuel [] r
          end
      | "034"%char :: r =>
          '(s, r') ← text [] r; Some (JStr s, r')
      | "-"%char :: r =>
          '(n, r') ← natural r; Some (JInt (- n), r')
      | "t"%char :: _ => literal "true" (JBool true) (skip_ws l)
      | "f"%char :: _ => literal "false" (JBool false) (skip_ws l)
      | "n"%char :: _ => literal "null" JNull (skip_ws l)
      | r => '(n, r') ← natural r; Some (JInt n, r')
      end
  end
with elements (fuel : nat) (acc : list json) (l : list ascii)
  : option (json * list ascii) :=
  match fuel with
  | O => None
  | S fuel =>
      '(v, r) ← value fuel l;
      match skip_ws r with
      | ","%char :: r' => elements fuel (acc ++ [v]) r'
      | "]"%char :: r' => Some (JList (acc ++ [v]), r')
      | _ => None
      end
  end
with members (fuel : nat) (acc : list (string * json)) (l : list ascii)
  : option (json * list ascii) :=
  match fuel with
  | O => None
  | S fuel =>
      match skip_ws l with
      | "034"%char :: r =>
          '(k, r) ← text [] r;
          match skip_ws r with
          | ":"%char :: r =>
              '(v, r) ← value fuel r;
              let acc :=
                (List.filter (fun kv => negb (String.eqb (fst kv) k)) acc
                   ++ [(k, v)])%list in
              match skip_ws r with
              | ","%char :: r' => members fuel acc r'
              | "}"%char :: r' => Some (JDict acc, r')
              | _ => None
              end
          | _ => None
          end
      | _ => None
      end
  end.

Definition loads (s : string) : option json :=
  '(v, rest) ← value (S (String.length s)) (PyStr.chars s);
  match skip_ws rest with
  | [] => Some v
  | _ => None
  end.

(** The path and the query of a path that has no fragment. *)
Definition split_path (path : string) : string * string :=
  match PyStr.split_on "?" path with
  | p :: rest => (p, PyStr.join "?" rest)
  | [] => (path, "")
  end.

(** [key=value] pairs separated by [&], without percent escapes; a pair
    without value is left out, as [parse_qs] does. *)
Definition query_items (query : string) : list (string * list string) :=
  omap (fun pair =>
          match PyStr.split_on "=" pair with
          | k :: v :: _ => if bool_decide (v = "") then None else Some (k, [v])
          | _ => None
          end) (PyStr.split_on "&" query).

Definition encode (parameters : list (string * string)) : string :=
  PyStr.join "&" (map (fun kv => fst kv +:+ "=" +:+ snd kv) parameters).

Definition library : Library := {|
  json_loads := loads;
  urlparse := split_path;
  parse_qs := query_items;
  urlencode := encode;
  sign := fun _ _ => [("Authorization", "OAuth")];
  getaddrinfo := fun host _ => Some (pystr host);
  str_strip := PyStr.strip;
  str_split := PyStr.split_ws;
  str_splitlines := PyStr.splitlines;
  str_lower := PyStr.lower;
  int_of := PyStr.int;
  strip_empty := eq_refl
|}.

Definition configuration : gmap string pyval :=
  <["twitter_consumer_secret" := PyStr "ABCDEF1234567890"]>
  (<["twitter_consumer_key" := PyStr "0987654321ABCDEF"]>
  (<["twitter_access_token_secret" := PyStr "1234567890ABCDEF"]>
  (<["twitter_access_token" := PyStr "FEDCBA09123456789"]> ∅))).

End Sample.

(** * Properties *)

(** ** Construction *)

Definition configured (c : gmap string pyval) (key : string)
  (default : pyval) : pyval :=
  from_option id default (c !! key).

(** The keys [__init__] reads, in the order it reads them, each with its
    default. *)
Definition configuration_keys : list (string * pyval) :=
  [("twitter_consumer_key", PyNone);
   ("twitter_consumer_secret", PyNone);
   ("twitter_access_token", PyNone);
   ("twitter_access_token_secret", PyNone);
   ("twitter_stream_host", PyStr "stream.twitter.com");
   ("twitter_stream_scheme", PyStr "https");
   ("twitter_stream_port", PyInt 443)].

Definition required_keys : list string :=
  ["twitter_consumer_key"; "twitter_consumer_secret";
   "twitter_access_token"; "twitter_access_token_secret"].

Definition optional_keys : list string :=
  ["twitter_stream_host"; "twitter_stream_scheme"; "twitter_stream_port"].

(** The first key whose configured value is [None]. *)
Definition first_missing (c : gmap string pyval) : option string :=
  fst <$> List.find
            (fun kd => bool_decide (configured c (fst kd) (snd kd) = PyNone))
            configuration_keys.

Definition missing (key : string) : exn :=
  MissingConfiguration ("Missing configuration item: " +:+ key).

Lemma get_configuration_key_eq key default w :
  _get_configuration_key key default w =
  let v := configured (_configuration (self w)) key default in
  if bool_decide (v = PyNone) then Raise (missing key) w else Ok v w.
Proof.
  unfold _get_configuration_key, bind, get, configured.
  destruct (from_option id default (_configuration (self w) !! key));
    reflexivity.
Qed.

(** Reduction of the monad and of the records, leaving the methods and
    the operations of the loop and of the streams folded. *)
Ltac record_simpl :=
  cbv [self ioloop streams trace set_self set_ioloop set_streams set_trace
       time timeouts next_timeout callbacks set_timeouts
       ssl closed close_callback_of waiting written
       timeout_id deadline timeout_callback world_of raised
       _callback _error_callback _rate_limited_callback _clean_message
       _configuration _consumer_key _consumer_secret _oauth_client
       _twitter_stream_host _twitter_stream_scheme
       _twitter_stream_port _twitter_stream _stream_restart_scheduled
       _stream_restart_in_process _stream_restart_time _retry_delay
       _retry_rate_limited_delay _retry_before_established_delay
       _timeout_handle _stall_timeout_handle _current_iostream
       _partial_tweet _method _path _full_path _parameters
       upd_callback upd_error_callback upd_rate_limited_callback
       upd_clean_message upd_configuration upd_consumer_key
       upd_consumer_secret upd_oauth_client upd_twitter_stream_host
       upd_twitter_stream_scheme upd_twitter_stream_port
       upd_twitter_stream upd_stream_restart_scheduled
       upd_stream_restart_in_process upd_stream_restart_time
       upd_retry_delay upd_retry_rate_limited_delay
       upd_retry_before_established_delay upd_timeout_handle
       upd_stall_timeout_handle upd_current_iostream upd_partial_tweet
       upd_method upd_path upd_full_path upd_parameters].

Ltac monad_simpl :=
  cbv [bind ret raise get assign emit logging now];
  record_simpl.

Lemma init_raised c clean t :
  raised (TweetStream_ c clean t) = missing <$> first_missing c.
Proof.
  unfold TweetStream_, __init__, first_missing, configuration_keys, boot,
    set_token.
  monad_simpl.
  repeat (rewrite get_configuration_key_eq; monad_simpl;
          cbn [List.find fst snd];
          destruct (bool_decide (configured c _ _ = PyNone));
          [ reflexivity | ];
          monad_simpl).
  reflexivity.
Qed.

Lemma first_missing_None c :
  first_missing c = None <->
  Forall (fun kd => configured c (fst kd) (snd kd) <> PyNone)
    configuration_keys.
Proof.
  unfold first_missing. rewrite fmap_None. split.
  - intros Hfind. apply List.Forall_forall. intros kd Hin.
    pose proof (List.find_none _ _ Hfind kd Hin) as Hb.
    apply bool_decide_eq_false in Hb. exact Hb.
  - intros Hall. destruct (List.find _ _) as [kd|] eqn:Hfind; [|reflexivity].
    apply List.find_some in Hfind. destruct Hfind as [Hin Hb].
    apply bool_decide_eq_true in Hb.
    rewrite List.Forall_forall in Hall. destruct (Hall kd Hin Hb).
Qed.

Lemma first_missing_Some c k :
  first_missing c = Some k ->
  exists d, In (k, d) configuration_keys /\ configured c k d = PyNone.
Proof.
  unfold first_missing. intros Hk. apply fmap_Some in Hk.
  destruct Hk as ([k' d] & Hfind & ->). apply List.find_some in Hfind.
  destruct Hfind as [Hin Hb]. apply bool_decide_eq_true in Hb.
  exists d. split; assumption.
Qed.

Lemma configured_required c k :
  configured c k PyNone <> PyNone <->
  exists v, c !! k = Some v /\ v <> PyNone.
Proof.
  unfold configured. destruct (c !! k) as [v|]; cbn; split.
  - intros Hv. exists v. split; [reflexivity | exact Hv].
  - intros (v' & [= <-] & Hv). exact Hv.
  - intros Hv. destruct (Hv eq_refl).
  - intros (v' & [=] & _).
Qed.

Lemma configured_optional c k d :
  d <> PyNone ->
  configured c k d <> PyNone <-> c !! k <> Some PyNone.
Proof.
  intros Hd. unfold configured. destruct (c !! k) as [v|]; cbn; split.
  - intros Hv [= ->]. destruct (Hv eq_refl).
  - intros Hv ->. destruct (Hv eq_refl).
  - intros _ [=].
  - intros _. exact Hd.
Qed.


Lemma first_missing_iff c : first_missing c = None <->
            (forall k, k ∈ required_keys ->
                       exists v, c !! k = Some v /\ v <> PyNone) /\
            (forall k, k ∈ optional_keys -> c !! k <> Some PyNone).
Proof.
  rewrite first_missing_None. unfold configuration_keys, required_keys,
      optional_keys.
  split.
  - intros Hall. 
    repeat (apply List.Forall_cons_iff in Hall; destruct Hall as [?H Hall]).
    cbn [fst snd] in *.
    split; intros k Hk.
    + apply configured_required.
      repeat (apply elem_of_cons in Hk; destruct Hk as [-> | Hk];
                [assumption|]).
      apply elem_of_nil in Hk. destruct Hk.
    + repeat (apply elem_of_cons in Hk; destruct Hk as [-> | Hk];
                [eapply configured_optional; [|eassumption]; discriminate|]).
      apply elem_of_nil in Hk. destruct Hk.
  - intros [Hreq Hopt].
    repeat (apply List.Forall_cons; cbn [fst snd];
      [ first [ apply configured_required; apply Hreq
              | apply configured_optional; [discriminate | apply Hopt] ];
        solve [repeat constructor]
      | ]).
    apply List.Forall_nil.
Qed.

Lemma required_missing_first c k :
  k ∈ required_keys -> (c !! k = None \/ c !! k = Some PyNone) ->
  exists k', k' ∈ required_keys /\ first_missing c = Some k'.
Proof.
  intros Hk Hmiss.
  assert (Hnone : configured c k PyNone = PyNone).
  { unfold configured. destruct Hmiss as [-> | ->]; reflexivity. }
  unfold first_missing, configuration_keys. cbn [List.find fst snd].
  unfold required_keys in *.
  repeat match goal with
         | |- context [bool_decide ?P] =>
             destruct (bool_decide_reflect P);
             [ eexists; split; [ | reflexivity ]; solve [repeat constructor] | ]
         end.
  exfalso.
  repeat (apply elem_of_cons in Hk; destruct Hk as [-> | Hk];
          [ congruence | ]).
  apply elem_of_nil in Hk. destruct Hk.
Qed.

(** C9, as the code has it.  Construction raises exactly when one of the
    four required keys is absent or [None], or one of the three optional
    keys is given as [None]; the exception is [MissingConfiguration] and
    names a key that is read.  Nothing looks at what a value holds, so an
    empty secret is accepted: the class has no other credential error. *)
Theorem construction_checks_presence_only
  (c : gmap string pyval) (clean : bool) (t : Q) :
  (raised (TweetStream_ c clean t) = None <->
   (forall k, k ∈ required_keys ->
              exists v, c !! k = Some v /\ v <> PyNone) /\
   (forall k, k ∈ optional_keys -> c !! k <> Some PyNone)) /\
  ((exists k, k ∈ required_keys /\ (c !! k = None \/ c !! k = Some PyNone)) ->
   exists k, k ∈ required_keys /\
             raised (TweetStream_ c clean t) = Some (missing k)) /\
  (forall e, raised (TweetStream_ c clean t) = Some e ->
             exists k, e = missing k /\
                       (k ∈ required_keys \/ k ∈ optional_keys)).
Proof.
  rewrite init_raised. split; [|split].
  - rewrite fmap_None. apply first_missing_iff.
  - intros (k & Hk & Hmiss).
    destruct (required_missing_first c k Hk Hmiss) as (k' & Hk' & ->).
    exists k'. split; [exact Hk' | reflexivity].
  - intros e He. apply fmap_Some in He. destruct He as (k & Hk & ->).
    exists k. split; [reflexivity|].
    apply first_missing_Some in Hk. destruct Hk as (d & Hin & _).
    unfold configuration_keys in Hin. cbn in Hin.
    unfold required_keys, optional_keys.
    repeat (destruct Hin as [[= <- <-] | Hin];
            [first [left; solve [repeat constructor]
                   | right; solve [repeat constructor]]|]).
    destruct Hin.
Qed.

(** C9, as stated, fails: a configuration whose consumer secret is present
    and empty is accepted, and no exception is raised. *)
Lemma empty_secret_is_accepted :
  let c := <["twitter_consumer_secret" := PyStr ""]> Sample.configuration in
  c !! "twitter_consumer_secret" = Some (PyStr "") /\
  raised (TweetStream_ c false 0%Q) = None.
Proof. vm_compute. split; reflexivity. Qed.

(** ** Reporting errors *)

(** C10.  Without an error callback [on_error] raises the error it is
    given, in the world as it is; with one, it hands the error to the
    callback and returns.  The same holds where the body of an error
    response has been read, since [get_error_body] ends in [on_error]. *)
Theorem on_error_raises_or_reports (error : exn) (w : World) :
  on_error error w =
    match _error_callback (self w) with
    | None => Raise error w
    | Some f => Ok tt (set_trace (trace w ++ [Error f error]) w)
    end /\
  forall exception_string content,
    get_error_body exception_string content w =
    match _error_callback (self w) with
    | None =>
        Raise (Exception (exception_string +:+ NL +:+ PyStr.bytes_repr content))
          w
    | Some f =>
        Ok tt (set_trace
                 (trace w ++
                    [Error f (Exception (exception_string +:+ NL
                                         +:+ PyStr.bytes_repr content))])
                 w)
    end.
Proof.
  assert (Hon : forall e, on_error e w =
            match _error_callback (self w) with
            | None => Raise e w
            | Some f => Ok tt (set_trace (trace w ++ [Error f e]) w)
            end).
  { intros e. unfold on_error, bind, get.
    destruct (_error_callback (self w)); reflexivity. }
  split; [apply Hon|]. intros. unfold get_error_body. apply Hon.
Qed.

(** ** Frames *)

Section Keeps.

Context (R : World -> World -> Prop) `{!PreOrder R}.

Definition keeps {A} (m : M A) : Prop := forall w, R w (world_of (m w)).

Lemma keeps_ret {A} (a : A) : keeps (ret a).
Proof. intros w. reflexivity. Qed.

Lemma keeps_raise {A} (e : exn) : keeps (@raise A e).
Proof. intros w. reflexivity. Qed.

Lemma keeps_get {A} (f : TweetStream -> A) : keeps (get f).
Proof. intros w. reflexivity. Qed.

Lemma keeps_now : keeps now.
Proof. intros w. reflexivity. Qed.

Lemma keeps_stream_get n : keeps (stream_get n).
Proof. intros w. unfold stream_get. destruct (streams w !! n); reflexivity. Qed.

Lemma keeps_bind {A B} (m : M A) (k : A -> M B) :
  keeps m -> (forall a, keeps (k a)) -> keeps (bind m k).
Proof.
  intros Hm Hk w. unfold bind. specialize (Hm w).
  destruct (m w) as [a w'|e w']; cbn in *; [|exact Hm].
  etransitivity; [exact Hm | apply Hk].
Qed.

Lemma keeps_try_except {A} (body : M A) (handler : string -> M A) :
  keeps body -> (forall key, keeps (handler key)) ->
  keeps (try_except_KeyError body handler).
Proof.
  intros Hb Hh w. unfold try_except_KeyError. specialize (Hb w).
  destruct (body w) as [a w'|e w']; cbn in *; [exact Hb|].
  destruct e; try exact Hb.
  etransitivity; [exact Hb | apply Hh].
Qed.

End Keeps.

Ltac head_of t := lazymatch t with ?f _ => head_of f | _ => t end.

Ltac frame_step prim :=
  lazymatch goal with
  | |- keeps _ (bind _ _) => apply keeps_bind; [ exact _ | | intros ? ]
  | |- keeps _ (ret _) => apply keeps_ret; exact _
  | |- keeps _ (raise _) => apply keeps_raise; exact _
  | |- keeps _ (get _) => apply keeps_get; exact _
  | |- keeps _ now => apply keeps_now; exact _
  | |- keeps _ (stream_get _) => apply keeps_stream_get; exact _
  | |- keeps _ (try_except_KeyError _ _) =>
      apply keeps_try_except; [ exact _ | | intros ? ]
  | |- keeps _ (match ?x with _ => _ end) => destruct x
  | |- keeps _ ?m =>
      first [ solve [prim]
            | let h := head_of m in progress unfold h ]
  end.

Ltac frame prim := repeat (frame_step prim).


(** ** Backoff *)

Definition delays (w : World) : Z * Z * Q :=
  (_retry_delay (self w), _retry_rate_limited_delay (self w),
   _retry_before_established_delay (self w)).

(** The log records of the four branches that assign a delay. *)
Definition quiet_output (o : output) : bool :=
  match o with
  | Log info_established
  | Log (error_connect_failed _ _)
  | Log (error_rate_limited _)
  | Log error_closed_before_established => false
  | _ => true
  end.

(** The stream of the object is one of the streams of the world, and the
    handles of the pending timeouts are handles the loop has given out. *)
Definition stream_exists (w : World) : Prop :=
  forall s, _twitter_stream (self w) = Some s -> (s < length (streams w))%nat.

Definition fresh_handles (l : IOLoop) : Prop :=
  Forall (fun t => (timeout_id t < next_timeout l)%nat) (timeouts l).

Definition valid (w : World) : Prop :=
  stream_exists w /\ fresh_handles (ioloop w).

Lemma valid_ext w w' :
  _twitter_stream (self w') = _twitter_stream (self w) ->
  streams w' = streams w -> ioloop w' = ioloop w ->
  valid w -> valid w'.
Proof.
  intros Hs Hst Hl [Hv Hf]. split.
  - intros s. rewrite Hs, Hst. apply Hv.
  - rewrite Hl. exact Hf.
Qed.

(** A step that assigns no delay and takes none of the four branches. *)
Definition quiet (w w' : World) : Prop :=
  (valid w -> valid w') /\
  delays w' = delays w /\
  exists l, trace w' = trace w ++ l /\ forallb quiet_output l = true.

#[global] Instance quiet_preorder : PreOrder quiet.
Proof.
  split.
  - intros w. split; [auto|]. split; [reflexivity|].
    exists []. split; [symmetry; apply app_nil_r | reflexivity].
  - intros a b c (Hv1 & Hd1 & l1 & Ht1 & Hq1) (Hv2 & Hd2 & l2 & Ht2 & Hq2).
    split; [auto|]. split; [congruence|].
    exists (l1 ++ l2). split.
    + rewrite Ht2, Ht1, app_assoc. reflexivity.
    + rewrite forallb_app, Hq1, Hq2. reflexivity.
Qed.

Lemma quiet_here w w' :
  (valid w -> valid w') -> delays w' = delays w -> trace w' = trace w ->
  quiet w w'.
Proof.
  intros Hv Hd Ht. split; [exact Hv|]. split; [exact Hd|].
  exists []. rewrite app_nil_r. split; [exact Ht | reflexivity].
Qed.

Lemma quiet_assign (f : TweetStream -> TweetStream) :
  (forall s, _twitter_stream (f s) = _twitter_stream s) ->
  (forall s, _retry_delay (f s) = _retry_delay s) ->
  (forall s, _retry_rate_limited_delay (f s) = _retry_rate_limited_delay s) ->
  (forall s, _retry_before_established_delay (f s)
             = _retry_before_established_delay s) ->
  keeps quiet (assign f).
Proof.
  intros Hs H1 H2 H3 w. apply quiet_here; cbn.
  - apply valid_ext; cbn; auto.
  - unfold delays. cbn. rewrite H1, H2, H3. reflexivity.
  - reflexivity.
Qed.

Lemma quiet_emit (o : output) : quiet_output o = true -> keeps quiet (emit o).
Proof.
  intros Ho w. split; [auto|]. split; [reflexivity|].
  exists [o]. split; [reflexivity|]. cbn. rewrite Ho. reflexivity.
Qed.

Lemma quiet_ioloop (l : IOLoop) w :
  (fresh_handles (ioloop w) -> fresh_handles l) -> quiet w (set_ioloop l w).
Proof.
  intros Hl. apply quiet_here; auto. intros [Hv Hf]. split; [exact Hv|].
  apply Hl, Hf.
Qed.

Lemma quiet_add_timeout seconds cb : keeps quiet (ioloop_add_timeout seconds cb).
Proof.
  intros w. apply quiet_ioloop. unfold fresh_handles. cbn.
  rewrite !List.Forall_forall. intros Hf t Ht.
  apply in_app_or in Ht. destruct Ht as [Ht|[<-|[]]].
  - specialize (Hf t Ht). lia.
  - cbn. lia.
Qed.

Lemma quiet_remove_timeout h : keeps quiet (ioloop_remove_timeout h).
Proof.
  intros w. apply quiet_ioloop. unfold fresh_handles. cbn.
  rewrite !List.Forall_forall. intros Hf t Ht.
  apply List.filter_In in Ht. apply Hf, Ht.
Qed.

Lemma quiet_add_callback cb : keeps quiet (ioloop_add_callback cb).
Proof. intros w. apply quiet_ioloop. auto. Qed.

Lemma quiet_stream_put n st : keeps quiet (stream_put n st).
Proof.
  intros w. apply quiet_here; cbn; auto.
  intros [Hv Hf]. split; [|exact Hf].
  intros s Hs. cbn. rewrite length_insert. apply Hv, Hs.
Qed.

Lemma quiet_stream_new b : keeps quiet (stream_new b).
Proof.
  intros w. apply quiet_here; cbn; auto.
  intros [Hv Hf]. split; [|exact Hf].
  intros s Hs. cbn. rewrite length_app. cbn. specialize (Hv s Hs). lia.
Qed.

(** The stream [open_twitter_stream] creates becomes the stream of the
    object. *)
Lemma quiet_new_stream {A} b (k : token -> M A) :
  (forall s, keeps quiet (k s)) ->
  keeps quiet (s <- stream_new b ;; assign (upd_twitter_stream (Some s)) ;; k s).
Proof.
  intros Hk w. unfold bind at 1 2. unfold stream_new, assign.
  etransitivity; [|apply Hk].
  apply quiet_here; cbn; auto.
  intros [_ Hf]. split; [|exact Hf].
  intros s [= <-]. cbn. rewrite length_app. cbn. lia.
Qed.

Create HintDb quiet discriminated.

Ltac prim_quiet :=
  first [ solve [auto 1 with quiet nocore]
        | apply quiet_assign; intros; reflexivity
        | apply quiet_emit; reflexivity
        | apply quiet_add_timeout
        | apply quiet_remove_timeout
        | apply quiet_add_callback
        | apply quiet_stream_put
        | apply quiet_stream_new ].

Ltac frame_quiet :=
  repeat first
    [ apply quiet_new_stream; intros ?
    | frame_step prim_quiet ].

Section Quiet.

Context `{Library}.

Lemma quiet_close : keeps quiet close.
Proof. frame_quiet. Qed.
#[local] Hint Resolve quiet_close : quiet.

Lemma quiet_open_twitter_stream : keeps quiet open_twitter_stream.
Proof. frame_quiet. Qed.
#[local] Hint Resolve quiet_open_twitter_stream : quiet.

Lemma quiet_schedule_restart seconds : keeps quiet (schedule_restart seconds).
Proof. frame_quiet. Qed.
#[local] Hint Resolve quiet_schedule_restart : quiet.

Lemma quiet_fetch path method callback rate_limited :
  keeps quiet (fetch path method callback rate_limited).
Proof. frame_quiet. Qed.
#[local] Hint Resolve quiet_fetch : quiet.

Lemma quiet_set_error_callback cb : keeps quiet (set_error_callback cb).
Proof. frame_quiet. Qed.
#[local] Hint Resolve quiet_set_error_callback : quiet.

Lemma quiet_stall_callback : keeps quiet stall_callback.
Proof. frame_quiet. Qed.
#[local] Hint Resolve quiet_stall_callback : quiet.

Lemma quiet_close_callback : keeps quiet close_callback.
Proof. frame_quiet. Qed.
#[local] Hint Resolve quiet_close_callback : quiet.

Lemma quiet_on_connect id : keeps quiet (on_connect id).
Proof. frame_quiet. Qed.
#[local] Hint Resolve quiet_on_connect : quiet.

Lemma quiet_on_result response id : keeps quiet (on_result response id).
Proof. frame_quiet. Qed.
#[local] Hint Resolve quiet_on_result : quiet.

Lemma quiet_parse_json response id : keeps quiet (parse_json response id).
Proof. frame_quiet. Qed.
#[local] Hint Resolve quiet_parse_json : quiet.

Lemma quiet_get_error_body e content : keeps quiet (get_error_body e content).
Proof. frame_quiet. Qed.
#[local] Hint Resolve quiet_get_error_body : quiet.

Lemma quiet_stream_close s : keeps quiet (stream_close s).
Proof. frame_quiet. Qed.
#[local] Hint Resolve quiet_stream_close : quiet.

End Quiet.

#[export] Hint Resolve quiet_close quiet_open_twitter_stream
  quiet_schedule_restart quiet_fetch quiet_set_error_callback
  quiet_stall_callback quiet_close_callback quiet_on_connect
  quiet_on_result quiet_parse_json quiet_get_error_body
  quiet_stream_close : quiet.

(** How the four branches assign the delays. *)
Definition next_error (d : Z) : Z := if d <? 320 then d * 2 else d.

Definition next_pre (d : Q) : Q :=
  if Qltb d 16 then (d + (1 # 4))%Q else d.

Definition initial : Z * Z * Q := (5, 60, (1 # 4)%Q).

Definition replay1 (d : Z * Z * Q) (o : output) : Z * Z * Q :=
  let '(e, r, p) := d in
  match o with
  | Log info_established => initial
  | Log (error_connect_failed _ _) => (next_error e, r, p)
  | Log (error_rate_limited _) => (e, r * 2, p)
  | Log error_closed_before_established => (e, r, next_pre p)
  | _ => d
  end.

Definition replay (l : list output) (d : Z * Z * Q) : Z * Z * Q :=
  fold_left replay1 l d.

(** The delays are positive, and those of the two capped tiers are small
    enough for a [timedelta]. *)
Definition sound (d : Z * Z * Q) : Prop :=
  let '(e, r, p) := d in 0 < e < 640 /\ 0 < r /\ (0 < p)%Q /\ (p < 17)%Q.

(** A rate limit logged with a delay that fits a [timedelta]: the timeout
    could be set, and the delay has been doubled. *)
Definition fits_record (o : output) : bool :=
  match o with
  | Log (error_rate_limited delay) => timedelta_fits (inject_Z delay)
  | _ => true
  end.

Definition no_overflow (l : list output) : bool := forallb fits_record l.

(** Two triples of delays agree: in the error delay and the delay before
    the headers, and in the rate limit delay if [b]. *)
Definition agrees (b : bool) (d d' : Z * Z * Q) : Prop :=
  let '(e, r, p) := d in
  let '(e', r', p') := d' in
  e = e' /\ p = p' /\ (b = true -> r = r').

(** The delays follow the log: what a step appends to the trace tells how
    it changed the delays.  The rate limit delay follows it as long as
    every delay logged for a rate limit fits a [timedelta]. *)
Definition follows (w w' : World) : Prop :=
  valid w -> sound (delays w) ->
  valid w' /\ sound (delays w') /\
  exists l, trace w' = trace w ++ l /\
            agrees (no_overflow l) (delays w') (replay l (delays w)).

Lemma replay_app l1 l2 d : replay (l1 ++ l2) d = replay l2 (replay l1 d).
Proof. unfold replay. apply fold_left_app. Qed.

Lemma agrees_refl b d : agrees b d d.
Proof. destruct d as [[e r] p]. repeat split. Qed.

Lemma agrees_eq b d d' : d = d' -> agrees b d d'.
Proof. intros ->. apply agrees_refl. Qed.

Lemma agrees_trans b1 b2 d1 d2 d3 :
  agrees b1 d1 d2 -> agrees b2 d2 d3 -> agrees (b2 && b1) d1 d3.
Proof.
  destruct d1 as [[e1 r1] p1], d2 as [[e2 r2] p2], d3 as [[e3 r3] p3].
  intros (He & Hp & Hr) (He' & Hp' & Hr').
  split; [congruence|]. split; [congruence|].
  intros Hb. apply andb_true_iff in Hb. destruct Hb as [Hb2 Hb1].
  rewrite (Hr Hb1). apply Hr', Hb2.
Qed.

Lemma replay1_agrees b d d' o :
  agrees b d d' -> agrees b (replay1 d o) (replay1 d' o).
Proof.
  destruct d as [[e r] p], d' as [[e' r'] p']. intros (-> & -> & Hr).
  destruct o as [f j|f x|f|[]]; cbn;
    repeat split; try reflexivity; try exact Hr;
    intros Hb; rewrite (Hr Hb); reflexivity.
Qed.

Lemma replay_agrees b l d d' :
  agrees b d d' -> agrees b (replay l d) (replay l d').
Proof.
  revert d d'. induction l as [|o l IH]; intros d d' Hd; [exact Hd|].
  cbn. apply IH, replay1_agrees, Hd.
Qed.

Lemma replay_quiet l d : forallb quiet_output l = true -> replay l d = d.
Proof.
  revert d. induction l as [|o l IH]; intros d Hq; [reflexivity|].
  cbn in Hq. apply andb_true_iff in Hq. destruct Hq as [Ho Hl].
  cbn. rewrite <- (IH d Hl) at 2. f_equal.
  destruct d as [[e r] p].
  destruct o as [| | |[]]; try reflexivity; discriminate.
Qed.

#[global] Instance follows_preorder : PreOrder follows.
Proof.
  split.
  - intros w Hv Hp. split; [exact Hv|]. split; [exact Hp|].
    exists []. rewrite app_nil_r. split; [reflexivity | apply agrees_refl].
  - intros a b c Hab Hbc Hv Hp.
    destruct (Hab Hv Hp) as (Hv1 & Hp1 & l1 & Ht1 & Hd1).
    destruct (Hbc Hv1 Hp1) as (Hv2 & Hp2 & l2 & Ht2 & Hd2).
    split; [exact Hv2|]. split; [exact Hp2|].
    exists (l1 ++ l2). split.
    + rewrite Ht2, Ht1, app_assoc. reflexivity.
    + rewrite replay_app. unfold no_overflow. rewrite forallb_app.
      exact (agrees_trans _ _ _ _ _ Hd2 (replay_agrees _ l2 _ _ Hd1)).
Qed.

Lemma quiet_follows w w' : quiet w w' -> follows w w'.
Proof.
  intros (Hv & Hd & l & Ht & Hq) Hv0 Hp. split; [auto|].
  split; [rewrite Hd; exact Hp|].
  exists l. split; [exact Ht|]. rewrite replay_quiet by exact Hq.
  apply agrees_eq, Hd.
Qed.

Lemma keeps_quiet_follows {A} (m : M A) : keeps quiet m -> keeps follows m.
Proof. intros Hm w. apply quiet_follows, Hm. Qed.

(** Stepping through a computation. *)
Lemma bind_ok {A B} (m : M A) (k : A -> M B) w a w' :
  m w = Ok a w' -> bind m k w = k a w'.
Proof. intros Hm. unfold bind. rewrite Hm. reflexivity. Qed.

Lemma bind_raise {A B} (m : M A) (k : A -> M B) w e w' :
  m w = Raise e w' -> bind m k w = Raise e w'.
Proof. intros Hm. unfold bind. rewrite Hm. reflexivity. Qed.

Section Handlers.

Context `{Library}.

(** With a delay that is not zero [schedule_restart] only sets a timeout:
    it returns. *)
Lemma schedule_restart_returns seconds w :
  Qeq_bool seconds 0 = false ->
  timedelta_fits seconds = true ->
  exists w', schedule_restart seconds w = Ok tt w'.
Proof.
  intros Hs Hfits. unfold schedule_restart, schedule_restart_from.
  unfold bind, get. 
  destruct (negb _ && negb _); [|eexists; reflexivity].
  cbn [assign]. rewrite Hs.
  unfold add_timeout, remove_timeout, timedelta, bind, get.
  cbn [self set_self]. rewrite Hfits.
  destruct (_timeout_handle _); eexists; reflexivity.
Qed.

(** With a delay that does not fit a [timedelta] it returns when a restart
    is scheduled or in process, and raises otherwise. *)
Lemma schedule_restart_overflows seconds w :
  Qeq_bool seconds 0 = false ->
  timedelta_fits seconds = false ->
  (exists w', schedule_restart seconds w = Ok tt w') \/
  (exists w', schedule_restart seconds w = Raise OverflowError w').
Proof.
  intros Hs Hfits. unfold schedule_restart, schedule_restart_from.
  unfold bind, get. 
  destruct (negb _ && negb _); [|left; eexists; reflexivity].
  cbn [assign]. rewrite Hs. right.
  unfold add_timeout, remove_timeout, timedelta, bind, get.
  cbn [self set_self]. rewrite Hfits.
  destruct (_timeout_handle _); eexists; reflexivity.
Qed.

Lemma remove_timeout_returns w :
  exists w', remove_timeout w = Ok tt w' /\ streams w' = streams w /\
             _twitter_stream (self w') = _twitter_stream (self w).
Proof.
  unfold remove_timeout, bind, get.
  destruct (_timeout_handle (self w)); eexists; (split; [reflexivity|]);
    split; reflexivity.
Qed.

Lemma remove_stall_timeout_returns w :
  exists w', remove_stall_timeout w = Ok tt w' /\ streams w' = streams w /\
             _twitter_stream (self w') = _twitter_stream (self w).
Proof.
  unfold remove_stall_timeout, bind, get.
  destruct (_stall_timeout_handle (self w)); eexists; (split; [reflexivity|]);
    split; reflexivity.
Qed.

Lemma stream_close_returns s w :
  (s < length (streams w))%nat -> exists w', stream_close s w = Ok tt w'.
Proof.
  intros Hs. apply lookup_lt_is_Some_2 in Hs. destruct Hs as [st Hst].
  unfold stream_close, bind, stream_get. rewrite Hst.
  destruct (closed st); [eexists; reflexivity|]. cbn.
  destruct (close_callback_of st); eexists; reflexivity.
Qed.

Lemma close_helper_returns w s :
  _twitter_stream (self w) = Some s -> (s < length (streams w))%nat ->
  exists w', close_helper w = Ok tt w'.
Proof.
  intros Hs Hlt. unfold close_helper.
  destruct (remove_timeout_returns w) as (w1 & E1 & Hst1 & Hs1).
  rewrite (bind_ok _ _ _ _ _ E1).
  destruct (remove_stall_timeout_returns w1) as (w2 & E2 & Hst2 & Hs2).
  rewrite (bind_ok _ _ _ _ _ E2).
  assert (E3 : twitter_stream w2 = Ok s w2).
  { unfold twitter_stream, bind, get. rewrite Hs2, Hs1, Hs. reflexivity. }
  rewrite (bind_ok _ _ _ _ _ E3).
  apply stream_close_returns. rewrite Hst2, Hst1. exact Hlt.
Qed.

Lemma stream_set_close_callback_eq s cb w st :
  streams w !! s = Some st ->
  stream_set_close_callback s cb w =
  Ok tt (set_streams
           (<[s := {| ssl := ssl st; closed := closed st;
                      close_callback_of := Some cb; waiting := waiting st;
                      written := written st |}]> (streams w)) w).
Proof.
  intros Hst. unfold stream_set_close_callback, bind, stream_get.
  rewrite Hst. reflexivity.
Qed.

(** [close] returns when the stream of the object exists. *)
Lemma close_returns w : valid w -> exists w', close w = Ok tt w'.
Proof.
  intros [Hv _]. unfold close, bind at 1, get.
  destruct (_twitter_stream (self w)) as [s|] eqn:Hs; [|eexists; reflexivity].
  pose proof (Hv s Hs) as Hlt.
  destruct (lookup_lt_is_Some_2 _ _ Hlt) as [st Hst].
  rewrite (bind_ok _ _ _ _ _ (stream_set_close_callback_eq s cb_none w st Hst)).
  apply (close_helper_returns _ s); cbn; [exact Hs|].
  rewrite length_insert. exact Hlt.
Qed.

Lemma positive_next_pre p : (0 < p)%Q -> (0 < next_pre p)%Q.
Proof.
  intros Hp. unfold next_pre. destruct (Qltb p 16); [|exact Hp].
  apply Qlt_trans with (y := p); [exact Hp|].
  rewrite <- (Qplus_0_r p) at 1. apply Qplus_lt_r. reflexivity.
Qed.

Lemma small_next_pre p : (p < 17)%Q -> (next_pre p < 17)%Q.
Proof.
  intros Hp. unfold next_pre. destruct (Qltb p 16) eqn:E; [|exact Hp].
  unfold Qltb in E. apply negb_true_iff in E.
  assert (Hlt : (p < 16)%Q).
  { apply Qnot_le_lt. intros Hle. apply Qle_bool_iff in Hle. congruence. }
  lra.
Qed.

Lemma sound_replay1 d o : sound d -> sound (replay1 d o).
Proof.
  destruct d as [[e r] p]. intros (He & Hr & Hp & Hp').
  assert (Hn : 0 < next_error e < 640)
    by (unfold next_error; destruct (Z.ltb_spec e 320); lia).
  pose proof (positive_next_pre p Hp) as Hq.
  pose proof (small_next_pre p Hp') as Hq'.
  destruct o as [f j|f x|f|r0];
    try (split; [|split; [|split]]; assumption).
  destruct r0; cbn; (split; [|split; [|split]]);
    first [ assumption | lia | reflexivity ].
Qed.

Lemma fits_inject_Z (z : Z) :
  0 < z < 640 -> timedelta_fits (inject_Z z) = true.
Proof.
  intros Hz. unfold timedelta_fits. apply andb_true_iff. split.
  - apply Qle_bool_iff. change (-86399999913600)%Q
      with (inject_Z (-86399999913600)). rewrite <- Zle_Qle. lia.
  - apply negb_true_iff. destruct (Qle_bool _ _) eqn:E; [|reflexivity].
    apply Qle_bool_iff in E.
    change 86400000000000%Q with (inject_Z 86400000000000) in E.
    rewrite <- Zle_Qle in E. lia.
Qed.

Lemma fits_small (q : Q) :
  (0 < q)%Q -> (q < 17)%Q -> timedelta_fits q = true.
Proof.
  intros H0 H17. unfold timedelta_fits. apply andb_true_iff. split.
  - apply Qle_bool_iff. lra.
  - apply negb_true_iff. destruct (Qle_bool _ _) eqn:E; [|reflexivity].
    apply Qle_bool_iff in E. lra.
Qed.

(** A branch that logs [L], then takes quiet steps, then assigns the
    delays as [L] says. *)
Lemma follows_logged (L : log_record) w wb wc :
  quiet (set_trace (trace w ++ [Log L]) w) wb ->
  (valid wb -> valid wc) -> trace wc = trace wb ->
  delays wc = replay1 (delays wb) (Log L) ->
  follows w wc.
Proof.
  intros (Hv & Hd & l & Ht & Hq) Hvc Htc Hdc Hv0 Hp.
  split; [apply Hvc, Hv, Hv0|].
  assert (Hdb : delays wb = delays w) by exact Hd.
  split.
  - rewrite Hdc, Hdb. apply sound_replay1, Hp.
  - exists (Log L :: l). split.
    + rewrite Htc, Ht. cbn. rewrite <- app_assoc. reflexivity.
    + rewrite Hdc, Hdb. cbn.
      assert (Hl : forall d, replay l d = d)
        by (intros; apply replay_quiet, Hq).
      unfold replay in Hl. rewrite Hl. apply agrees_refl.
Qed.

(** The branch for status 420 when the timeout cannot be set: the rate
    limit is logged and nothing is assigned. *)
Lemma follows_overflow (delay : Z) w wb :
  quiet (set_trace (trace w ++ [Log (error_rate_limited delay)]) w) wb ->
  timedelta_fits (inject_Z delay) = false ->
  follows w wb.
Proof.
  intros (Hv & Hd & l & Ht & Hq) Hfits Hv0 Hp.
  split; [apply Hv, Hv0|].
  assert (Hdb : delays wb = delays w) by exact Hd.
  split; [rewrite Hdb; exact Hp|].
  exists (Log (error_rate_limited delay) :: l). split.
  - rewrite Ht. cbn. rewrite <- app_assoc. reflexivity.
  - rewrite Hdb. cbn [no_overflow forallb fits_record]. rewrite Hfits.
    cbn [andb replay fold_left].
    assert (Hl : forall d, replay l d = d)
      by (intros; apply replay_quiet, Hq).
    unfold replay in Hl. rewrite Hl.
    destruct (delays w) as [[e r] p]. cbn. repeat split. discriminate.
Qed.

Lemma positive_Qeq_bool (q : Q) : (0 < q)%Q -> Qeq_bool q 0 = false.
Proof.
  intros Hq. destruct (Qeq_bool q 0) eqn:E; [|reflexivity].
  apply Qeq_bool_iff in E. rewrite E in Hq. discriminate Hq.
Qed.

Lemma positive_inject_Z (z : Z) : 0 < z -> Qeq_bool (inject_Z z) 0 = false.
Proof.
  intros Hz. apply positive_Qeq_bool. 
  change 0%Q with (inject_Z 0). rewrite <- Zlt_Qlt. exact Hz.
Qed.

End Handlers.


Ltac case_if :=
  match goal with
  | |- context [match ?c with true => _ | false => _ end] =>
      destruct c eqn:?
  end.

Lemma bind_get {A B} (f : TweetStream -> A) (k : A -> M B) w :
  bind (get f) k w = k (f (self w)) w.
Proof. reflexivity. Qed.

Lemma bind_assign {B} (f : TweetStream -> TweetStream) (k : unit -> M B) w :
  bind (assign f) k w = k tt (set_self (f (self w)) w).
Proof. reflexivity. Qed.

Lemma bind_logging {B} (r : log_record) (k : unit -> M B) w :
  bind (logging r) k w = k tt (set_trace (trace w ++ [Log r]) w).
Proof. reflexivity. Qed.

(** One step of a computation whose first operation reads or assigns. *)
Ltac mstep :=
  lazymatch goal with
  | |- context C [bind (get ?f) ?k ?w] =>
      let t := eval cbv beta in (k (f (self w)) w) in
      let g := context C [t] in change g
  | |- context C [bind (assign ?f) ?k ?w] =>
      let t := eval cbv beta in (k tt (set_self (f (self w)) w)) in
      let g := context C [t] in change g
  | |- context C [bind (logging ?r) ?k ?w] =>
      let t := eval cbv beta in (k tt (set_trace (trace w ++ [Log r]) w)) in
      let g := context C [t] in change g
  | |- context C [bind (emit ?o) ?k ?w] =>
      let t := eval cbv beta in (k tt (set_trace (trace w ++ [o]) w)) in
      let g := context C [t] in change g
  | |- context C [bind now ?k ?w] =>
      let t := eval cbv beta in (k (time (ioloop w)) w) in
      let g := context C [t] in change g
  | |- context C [bind (ret ?a) ?k ?w] =>
      let t := eval cbv beta in (k a w) in
      let g := context C [t] in change g
  end;
  cbn [self ioloop streams trace set_self set_ioloop set_streams set_trace].

Section Branches.

Context `{Library}.

Lemma follows_intro w w' :
  (valid w -> sound (delays w) -> follows w w') -> follows w w'.
Proof. intros Hf Hv Hp. exact (Hf Hv Hp Hv Hp). Qed.

Lemma follows_then_quiet w w1 w2 : follows w w1 -> quiet w1 w2 -> follows w w2.
Proof.
  intros H1 H2. etransitivity; [exact H1 | apply quiet_follows, H2].
Qed.

Lemma follows_rate_limited : keeps follows rate_limited.
Proof.
  intros w. apply follows_intro. intros Hv Hp. unfold rate_limited.
  do 3 mstep.
  match goal with |- context [world_of (_ ?W)] => set (w2 := W) end.
  pose proof Hp as (He & Hr & Hq & Hq').
  pose proof (quiet_schedule_restart
                (inject_Z (_retry_rate_limited_delay (self w))) w2) as Hq3.
  assert (Hcases :
    (exists w3, schedule_restart
                  (inject_Z (_retry_rate_limited_delay (self w))) w2
                = Ok tt w3) \/
    (timedelta_fits (inject_Z (_retry_rate_limited_delay (self w))) = false /\
     exists w3, schedule_restart
                  (inject_Z (_retry_rate_limited_delay (self w))) w2
                = Raise OverflowError w3)).
  { destruct (timedelta_fits
                (inject_Z (_retry_rate_limited_delay (self w)))) eqn:Hfits.
    - left. apply schedule_restart_returns;
        [apply positive_inject_Z, Hr | exact Hfits].
    - destruct (schedule_restart_overflows
                  (inject_Z (_retry_rate_limited_delay (self w))) w2
                  (positive_inject_Z _ Hr) Hfits) as [Hok|Hraise];
        [left; exact Hok | right; split; [reflexivity | exact Hraise]]. }
  destruct Hcases as [[w3 E3]|[Hfits [w3 E3]]].
  2: { rewrite E3 in Hq3. cbn [world_of] in Hq3.
       rewrite (bind_raise _ _ _ _ _ E3). cbn [world_of].
       apply (follows_overflow (_retry_rate_limited_delay (self w)) w w3);
         [|exact Hfits].
       etransitivity; [|exact Hq3]. subst w2.
       apply quiet_here; cbn; auto. }
  rewrite E3 in Hq3. cbn [world_of] in Hq3.
  rewrite (bind_ok _ _ _ _ _ E3).
  mstep.
  set (w4 := set_self _ w3).
  assert (H4 : follows w w4).
  { apply (follows_logged
             (error_rate_limited (_retry_rate_limited_delay (self w))) w w3 w4).
    - etransitivity; [|exact Hq3]. subst w2.
      apply quiet_here; cbn; auto.
    - subst w4. apply valid_ext; reflexivity.
    - reflexivity.
    - subst w4. unfold delays. cbn. reflexivity. }
  assert (H5 : keeps quiet
            (rate_limited_callback <- get _rate_limited_callback ;;
             match rate_limited_callback with
             | Some f => emit (RateLimited f)
             | None => ret tt
             end)) by frame_quiet.
  exact (follows_then_quiet _ _ _ H4 (H5 w4)).
Qed.

Lemma follows_connect_failed response_code :
  keeps follows (connect_failed response_code).
Proof.
  intros w. apply follows_intro. intros Hv Hp. unfold connect_failed.
  do 3 mstep.
  match goal with |- context [world_of (_ ?W)] => set (w2 := W) end.
  pose proof Hp as (He & Hr & Hq & Hq').
  destruct (schedule_restart_returns
              (inject_Z (_retry_delay (self w))) w2
              (positive_inject_Z _ (proj1 He)) (fits_inject_Z _ He))
    as [w3 E3].
  pose proof (quiet_schedule_restart
                (inject_Z (_retry_delay (self w))) w2) as Hq3.
  rewrite E3 in Hq3. cbn [world_of] in Hq3.
  rewrite (bind_ok _ _ _ _ _ E3).
  mstep.
  refine (follows_logged
            (error_connect_failed response_code (_retry_delay (self w)))
            w w3 _ _ _ _ _).
  - etransitivity; [|exact Hq3]. subst w2. apply quiet_here; cbn; auto.
  - case_if; [apply valid_ext; reflexivity | auto].
  - case_if; reflexivity.
  - unfold delays, replay1, next_error. case_if; reflexivity.
Qed.

Lemma quiet_set_stall_timeout : keeps quiet set_stall_timeout.
Proof. frame_quiet. Qed.

Lemma quiet_wait_for_message id : keeps quiet (wait_for_message id).
Proof. frame_quiet. Qed.

Lemma follows_established id : keeps follows (established id).
Proof.
  intros w. apply follows_intro. intros Hv Hp. unfold established.
  do 5 mstep.
  match goal with |- context [world_of (_ ?W)] => set (w2 := W) end.
  assert (H2 : follows w w2).
  { apply (follows_logged info_established w
             (set_trace (trace w ++ [Log info_established]) w) w2).
    - reflexivity.
    - subst w2. apply valid_ext; reflexivity.
    - reflexivity.
    - reflexivity. }
  assert (H3 : keeps quiet
            (s <- twitter_stream ;;
             stream_set_close_callback s cb_close_callback ;;
             set_stall_timeout ;;
             wait_for_message id)).
  { pose proof quiet_set_stall_timeout. pose proof quiet_wait_for_message.
    frame_quiet. }
  exact (follows_then_quiet _ _ _ H2 (H3 w2)).
Qed.

Lemma quiet_could_not_connect status_line response :
  keeps quiet (could_not_connect status_line response).
Proof. frame_quiet. Qed.

Lemma follows_on_headers response id : keeps follows (on_headers response id).
Proof.
  unfold on_headers.
  repeat lazymatch goal with
    | |- keeps follows rate_limited => apply follows_rate_limited
    | |- keeps follows (connect_failed _) => apply follows_connect_failed
    | |- keeps follows (established _) => apply follows_established
    | |- keeps follows (could_not_connect _ _) =>
        apply keeps_quiet_follows, quiet_could_not_connect
    | |- keeps follows twitter_stream =>
        apply keeps_quiet_follows; frame_quiet
    | |- keeps follows (stream_set_close_callback _ _) =>
        apply keeps_quiet_follows; frame_quiet
    | _ => frame_step ltac:(fail)
    end.
Qed.

Lemma follows_close_before_established_callback :
  keeps follows close_before_established_callback.
Proof.
  intros w. apply follows_intro. intros Hv Hp. unfold close_before_established_callback.
  mstep.
  set (w1 := set_trace _ w).
  assert (Hv1 : valid w1) by exact Hv.
  destruct (close_returns w1 Hv1) as [w2 E2].
  pose proof (quiet_close w1) as Hq2. rewrite E2 in Hq2. cbn [world_of] in Hq2.
  rewrite (bind_ok _ _ _ _ _ E2).
  do 2 mstep.
  set (w3 := set_self _ w2).
  assert (Hq3 : quiet w1 w3).
  { etransitivity; [exact Hq2|]. subst w3. apply quiet_here; cbn; auto. }
  pose proof Hp as (He & Hr & Hq & Hq').
  assert (Hd3 : delays w3 = delays w).
  { destruct Hq3 as (_ & Hd & _). exact Hd. }
  assert (Hpre : _retry_before_established_delay
                   (upd_stream_restart_in_process false (self w2))
                 = _retry_before_established_delay (self w)).
  { change (snd (delays w3) = snd (delays w)). rewrite Hd3. reflexivity. }
  rewrite Hpre.
  destruct (schedule_restart_returns
              (_retry_before_established_delay (self w)) w3
              (positive_Qeq_bool _ Hq) (fits_small _ Hq Hq')) as [w4 E4].
  pose proof (quiet_schedule_restart
                (_retry_before_established_delay (self w)) w3) as Hq4.
  rewrite E4 in Hq4. cbn [world_of] in Hq4.
  rewrite (bind_ok _ _ _ _ _ E4).
  mstep.
  refine (follows_logged error_closed_before_established w w4 _ _ _ _ _).
  - etransitivity; [exact Hq3 | exact Hq4].
  - case_if; [apply valid_ext; reflexivity | auto].
  - case_if; reflexivity.
  - unfold delays, replay1, next_pre. case_if; reflexivity.
Qed.

Lemma follows_call cb data : keeps follows (call cb data).
Proof.
  destruct cb; cbn [call];
    first [ apply follows_on_headers
          | apply follows_close_before_established_callback
          | apply keeps_quiet_follows; solve [auto with quiet | frame_quiet] ].
Qed.

Lemma quiet_call cb data :
  (forall id, cb <> cb_on_headers id) ->
  cb <> cb_close_before_established_callback ->
  keeps quiet (call cb data).
Proof.
  intros Hh Hcb. destruct cb; cbn [call];
    first [ exfalso; eapply Hh; reflexivity
          | exfalso; apply Hcb; reflexivity
          | solve [auto with quiet | frame_quiet] ].
Qed.

Lemma follows_stream_call s cb data : keeps follows (stream_call s cb data).
Proof.
  intros w. unfold stream_call.
  pose proof (follows_call cb data w) as Hc.
  destruct (call cb data w) as [a w'|e w']; cbn [world_of] in *; [exact Hc|].
  eapply follows_then_quiet; [exact Hc | apply quiet_stream_close].
Qed.

Lemma quiet_stream_unwait s : keeps quiet (stream_unwait s).
Proof. frame_quiet. Qed.

Lemma quiet_sleep seconds : keeps quiet (sleep seconds).
Proof. intros w. apply quiet_ioloop. auto. Qed.

Lemma follows_step e : keeps follows (step e).
Proof.
  destruct e; cbn [step].
  - apply keeps_quiet_follows, quiet_fetch.
  - apply keeps_quiet_follows, quiet_set_error_callback.
  - apply keeps_quiet_follows, quiet_sleep.
  - intros w. unfold fire.
    destruct (List.find _ _) as [t|]; [|reflexivity].
    destruct (due _ t); [|reflexivity].
    apply (keeps_bind follows); [apply keeps_quiet_follows, quiet_remove_timeout|].
    intros _. apply follows_call.
  - intros w. unfold run_queued.
    destruct (callbacks (ioloop w)) as [|cb rest]; [reflexivity|].
    etransitivity; [|apply follows_call]. apply quiet_follows, quiet_ioloop.
    auto.
  - intros w. unfold connected.
    destruct (streams w !! s) as [st|]; [|reflexivity].
    destruct (closed st); [reflexivity|].
    destruct (waiting st) as [[]|]; try reflexivity.
    apply (keeps_bind follows); [apply keeps_quiet_follows, quiet_stream_unwait|].
    intros _. apply follows_stream_call.
  - intros w. unfold read.
    destruct (streams w !! s) as [st|]; [|reflexivity].
    destruct (closed st); [reflexivity|].
    destruct (waiting st) as [p|]; [|reflexivity].
    destruct (completes p data); [|reflexivity].
    apply (keeps_bind follows); [apply keeps_quiet_follows, quiet_stream_unwait|].
    intros _. apply follows_stream_call.
  - intros w. unfold peer_close.
    destruct (streams w !! s); [|reflexivity].
    apply quiet_follows, quiet_stream_close.
Qed.

Lemma follows_run events w : follows w (run events w).
Proof.
  revert w. induction events as [|e events IH]; intros w; [reflexivity|].
  cbn [run]. etransitivity; [apply follows_step | apply IH].
Qed.

End Branches.


(** ** The delays in closed form *)

Inductive tier := error_tier | rate_limit_tier | pre_established_tier.

(** The record with which a failure of a tier is logged. *)
Definition fails (t : tier) (o : output) : bool :=
  match t, o with
  | error_tier, Log (error_connect_failed _ _) => true
  | rate_limit_tier, Log (error_rate_limited _) => true
  | pre_established_tier, Log error_closed_before_established => true
  | _, _ => false
  end.

Definition establishes (o : output) : bool :=
  match o with
  | Log info_established => true
  | _ => false
  end.

Definition count (t : tier) (n : nat) (o : output) : nat :=
  if establishes o then O else if fails t o then S n else n.

(** The number of failures of a tier in a trace since the stream was last
    established. *)
Definition consecutive_failures (t : tier) (l : list output) : nat :=
  fold_left (count t) l O.

Definition error_delay (n : nat) : Z := Z.min (5 * 2 ^ Z.of_nat n) 320.

Definition rate_limit_delay (n : nat) : Z := 60 * 2 ^ Z.of_nat n.

Definition pre_established_delay (n : nat) : Q :=
  Qmin ((1 # 4) + (1 # 4) * inject_Z (Z.of_nat n)) 16.

Lemma next_error_iter n :
  Nat.iter n next_error 5 = error_delay n.
Proof.
  unfold error_delay. induction n as [|n IH]; [reflexivity|].
  rewrite Nat.iter_succ, IH. unfold next_error.
  rewrite Nat2Z.inj_succ, Z.pow_succ_r by lia.
  destruct (Z.ltb_spec (Z.min (5 * 2 ^ Z.of_nat n) 320) 320) as [Hlt|Hge].
  - assert (Hn : Z.of_nat n < 6).
    { destruct (Z.lt_ge_cases (Z.of_nat n) 6) as [|Hn]; [assumption|].
      assert (2 ^ 6 <= 2 ^ Z.of_nat n) by (apply Z.pow_le_mono_r; lia).
      change (2 ^ 6) with 64 in *. lia. }
    assert (H6 : 2 ^ Z.of_nat n <= 2 ^ 5) by (apply Z.pow_le_mono_r; lia).
    change (2 ^ 5) with 32 in H6. lia.
  - lia.
Qed.

Lemma rate_limit_iter n :
  Nat.iter n (fun r => r * 2) 60 = rate_limit_delay n.
Proof.
  unfold rate_limit_delay. induction n as [|n IH]; [reflexivity|].
  rewrite Nat.iter_succ, IH, Nat2Z.inj_succ, Z.pow_succ_r by lia. lia.
Qed.

Lemma Qltb_lt (a b : Q) : Qltb a b = true <-> (a < b)%Q.
Proof.
  unfold Qltb. rewrite negb_true_iff. split.
  - intros Hle. apply Qnot_le_lt. intros Hba.
    apply Qle_bool_iff in Hba. congruence.
  - intros Hlt. destruct (Qle_bool b a) eqn:E; [|reflexivity].
    apply Qle_bool_iff in E. exfalso. exact (Qlt_not_le _ _ Hlt E).
Qed.

Lemma next_pre_iter n :
  (Nat.iter n next_pre (1 # 4) == pre_established_delay n)%Q.
Proof.
  unfold pre_established_delay. induction n as [|n IH].
  - cbn. reflexivity.
  - rewrite Nat.iter_succ. set (x := Nat.iter n next_pre (1 # 4)%Q) in *.
    rewrite Nat2Z.inj_succ. unfold Z.succ. rewrite inject_Z_plus.
    change (inject_Z 1) with 1%Q.
    set (y := inject_Z (Z.of_nat n)) in *.
    assert (Hy : (0 <= y)%Q).
    { subst y. change 0%Q with (inject_Z 0). rewrite <- Zle_Qle. lia. }
    assert (Hint : (y < 63 -> y <= 62)%Q).
    { intros Hq. subst y. change 63%Q with (inject_Z 63) in Hq.
      rewrite <- Zlt_Qlt in Hq. change 62%Q with (inject_Z 62).
      rewrite <- Zle_Qle. lia. }
    destruct (Q.min_spec ((1 # 4) + (1 # 4) * y) 16) as [[H1 Hm]|[H1 Hm]];
      destruct (Q.min_spec ((1 # 4) + (1 # 4) * (y + 1)) 16)
        as [[H2 Hm']|[H2 Hm']];
      unfold next_pre; destruct (Qltb x 16) eqn:E;
      try (apply Qltb_lt in E);
      try (assert (Hge : (16 <= x)%Q)
            by (apply Qnot_lt_le; intros Hlt; apply Qltb_lt in Hlt; congruence));
      try (assert (y <= 62)%Q by (apply Hint; lra));
      lra.
Qed.

Lemma replay_counts l a b c :
  replay l (Nat.iter a next_error 5, Nat.iter b (fun r => r * 2) 60,
            Nat.iter c next_pre (1 # 4)%Q) =
  (Nat.iter (fold_left (count error_tier) l a) next_error 5,
   Nat.iter (fold_left (count rate_limit_tier) l b) (fun r => r * 2) 60,
   Nat.iter (fold_left (count pre_established_tier) l c) next_pre (1 # 4)%Q).
Proof.
  revert a b c. induction l as [|o l IH]; intros a b c; [reflexivity|].
  cbn [fold_left]. unfold replay in *. cbn [fold_left].
  destruct o as [f j|f x|f|r]; try apply IH.
  destruct r;
    first [ apply (IH a b c) | apply (IH (S a) b c) | apply (IH a (S b) c)
          | apply (IH O O O) | apply (IH a b (S c)) ].
Qed.

(** The world [__init__] returns in. *)
Lemma init_returns c clean t w0 :
  TweetStream_ c clean t = Ok tt w0 ->
  trace w0 = [] /\ streams w0 = [] /\ ioloop w0 = ioloop (boot t) /\
  delays w0 = initial /\
  _twitter_stream (self w0) = None /\ _current_iostream (self w0) = None /\
  _partial_tweet (self w0) = "" /\
  _stream_restart_scheduled (self w0) = false /\
  _stream_restart_in_process (self w0) = false /\
  _stream_restart_time (self w0) = None /\
  _timeout_handle (self w0) = None /\ _stall_timeout_handle (self w0) = None /\
  _callback (self w0) = None /\ _error_callback (self w0) = None /\
  _rate_limited_callback (self w0) = None /\ _clean_message (self w0) = clean.
Proof.
  unfold TweetStream_, __init__, boot, set_token.
  monad_simpl.
  repeat (rewrite get_configuration_key_eq; monad_simpl;
          destruct (bool_decide (configured c _ _ = PyNone));
          [ discriminate | ];
          monad_simpl).
  intros [= <-]. repeat split.
Qed.

Lemma init_valid c clean t w0 :
  TweetStream_ c clean t = Ok tt w0 -> valid w0 /\ sound (delays w0).
Proof.
  intros Hw. apply init_returns in Hw.
  destruct Hw as (_ & _ & Hl & Hd & Hs & _). split; [split|].
  - intros s. rewrite Hs. discriminate.
  - unfold fresh_handles. rewrite Hl. cbn. constructor.
  - rewrite Hd. repeat split; reflexivity.
Qed.

(** ** The delay handed to the loop *)

Definition is_restart (t : Timeout) : bool :=
  match timeout_callback t with
  | cb_open_twitter_stream => true
  | _ => false
  end.

(** The deadline of the timeout the object holds for its restart. *)
Definition restart_deadline (w : World) : option Q :=
  match _timeout_handle (self w) with
  | Some h =>
      match List.find (fun t => Nat.eqb (timeout_id t) h) (timeouts (ioloop w))
      with
      | Some t => if is_restart t then Some (deadline t) else None
      | None => None
      end
  | None => None
  end.

Lemma find_fresh (l : list Timeout) (n : nat) :
  Forall (fun t => (timeout_id t < n)%nat) l ->
  List.find (fun t => Nat.eqb (timeout_id t) n) l = None.
Proof.
  induction 1 as [|t l Ht _ IH]; [reflexivity|]. cbn.
  destruct (Nat.eqb_spec (timeout_id t) n); [lia | exact IH].
Qed.

Lemma find_app_fresh (l : list Timeout) (t : Timeout) (n : nat) :
  timeout_id t = n ->
  Forall (fun t' => (timeout_id t' < n)%nat) l ->
  List.find (fun t' => Nat.eqb (timeout_id t') n) (l ++ [t]) = Some t.
Proof.
  intros <- Hl. induction Hl as [|t' l Ht _ IH]; cbn.
  - rewrite Nat.eqb_refl. reflexivity.
  - destruct (Nat.eqb_spec (timeout_id t') (timeout_id t)); [lia | exact IH].
Qed.

(** The timeouts left when the object has dropped the one it holds. *)
Definition without_restart (w : World) : list Timeout :=
  match _timeout_handle (self w) with
  | Some h => List.filter (other_than h) (timeouts (ioloop w))
  | None => timeouts (ioloop w)
  end.

Definition new_timeout (w : World) (seconds : Q) (cb : callback) : Timeout :=
  {| timeout_id := next_timeout (ioloop w);
     deadline := (time (ioloop w) + seconds)%Q;
     timeout_callback := cb |}.

Lemma bind_unfold {A B} (m : M A) (k : A -> M B) w :
  bind m k w = match m w with
               | Ok a w' => k a w'
               | Raise e w' => Raise e w'
               end.
Proof. reflexivity. Qed.

Section Scheduling.

Context `{Library}.

Lemma add_timeout_eq seconds cb w :
  timedelta_fits seconds = true ->
  add_timeout seconds cb w =
  Ok tt (set_self (upd_timeout_handle (Some (next_timeout (ioloop w))) (self w))
           (set_ioloop
              {| time := time (ioloop w);
                 timeouts := without_restart w ++ [new_timeout w seconds cb];
                 next_timeout := S (next_timeout (ioloop w));
                 callbacks := callbacks (ioloop w) |} w)).
Proof.
  intros Hfits.
  unfold add_timeout, remove_timeout, timedelta, without_restart, new_timeout.
  unfold bind, get. rewrite Hfits.
  destruct (_timeout_handle (self w)); reflexivity.
Qed.

(** With a delay that does not fit a [timedelta], [add_timeout] raises once
    it has dropped the timeout the object held. *)
Lemma add_timeout_overflows seconds cb w :
  timedelta_fits seconds = false ->
  add_timeout seconds cb w =
  Raise OverflowError
    (match _timeout_handle (self w) with
     | Some h =>
         set_self (upd_timeout_handle None (self w))
           (set_ioloop
              (set_timeouts (List.filter (other_than h) (timeouts (ioloop w)))
                 (ioloop w)) w)
     | None => w
     end).
Proof.
  intros Hfits.
  unfold add_timeout, remove_timeout, timedelta.
  unfold bind, get. rewrite Hfits.
  destruct (_timeout_handle (self w)); reflexivity.
Qed.

Lemma without_restart_fresh w n :
  Forall (fun t => (timeout_id t < n)%nat) (timeouts (ioloop w)) ->
  Forall (fun t => (timeout_id t < n)%nat) (without_restart w).
Proof.
  unfold without_restart. intros Hf.
  destruct (_timeout_handle (self w)); [|exact Hf].
  rewrite List.Forall_forall in *. intros t Ht.
  apply List.filter_In in Ht. apply Hf, Ht.
Qed.

(** With the restart neither scheduled nor in process, and a delay that is
    not zero, [schedule_restart] hands the delay to the loop: the object
    then holds a timeout for [open_twitter_stream] that is due [seconds]
    from now. *)
Lemma schedule_restart_schedules seconds w :
  valid w -> Qeq_bool seconds 0 = false ->
  timedelta_fits seconds = true ->
  _stream_restart_scheduled (self w) = false ->
  _stream_restart_in_process (self w) = false ->
  exists w', schedule_restart seconds w = Ok tt w' /\
             restart_deadline w' = Some (time (ioloop w) + seconds)%Q /\
             time (ioloop w') = time (ioloop w) /\
             _stream_restart_scheduled (self w') = true.
Proof.
  intros [_ Hf] Hs Hfits Hsch Hin.
  unfold schedule_restart, schedule_restart_from.
  do 2 mstep. rewrite Hsch, Hin. cbn [negb andb]. mstep. rewrite Hs.
  rewrite add_timeout_eq by exact Hfits. eexists. split; [reflexivity|].
  split; [|split; reflexivity].
  unfold restart_deadline.
  cbn [self set_self ioloop set_ioloop _timeout_handle upd_timeout_handle
         timeouts].
  rewrite (find_app_fresh
             (without_restart
                (set_self (upd_stream_restart_scheduled true (self w)) w))
             (new_timeout
                (set_self (upd_stream_restart_scheduled true (self w)) w)
                seconds cb_open_twitter_stream)
             (next_timeout (ioloop w)) eq_refl).
  - reflexivity.
  - apply without_restart_fresh. exact Hf.
Qed.

(** With a delay that is not zero [schedule_restart] does not open the
    stream. *)
Lemma schedule_restart_nonzero seconds w :
  Qeq_bool seconds 0 = false ->
  schedule_restart seconds w =
  if negb (_stream_restart_scheduled (self w))
     && negb (_stream_restart_in_process (self w))
  then add_timeout seconds cb_open_twitter_stream
         (set_self (upd_stream_restart_scheduled true (self w)) w)
  else Ok tt w.
Proof.
  intros Hs. unfold schedule_restart, schedule_restart_from.
  do 2 mstep. destruct (negb _ && negb _); [|reflexivity].
  mstep. rewrite Hs. reflexivity.
Qed.

(** The deadline the object holds after [add_timeout]. *)
Lemma restart_deadline_added w' l n d :
  _timeout_handle (self w') = Some n ->
  timeouts (ioloop w') =
    l ++ [{| timeout_id := n; deadline := d;
             timeout_callback := cb_open_twitter_stream |}] ->
  Forall (fun t => (timeout_id t < n)%nat) l ->
  restart_deadline w' = Some d.
Proof.
  intros Hh Ht Hf. unfold restart_deadline. rewrite Hh, Ht.
  rewrite (find_app_fresh l
             {| timeout_id := n; deadline := d;
                timeout_callback := cb_open_twitter_stream |} n eq_refl Hf).
  reflexivity.
Qed.

End Scheduling.

(** *** What a branch logs *)

(** The trace grows by records of no branch. *)
Definition hushed (w w' : World) : Prop :=
  exists l, trace w' = trace w ++ l /\ forallb quiet_output l = true.

#[global] Instance hushed_preorder : PreOrder hushed.
Proof.
  split.
  - intros w. exists []. split; [symmetry; apply app_nil_r | reflexivity].
  - intros a b c (l1 & Ht1 & Hq1) (l2 & Ht2 & Hq2). exists (l1 ++ l2). split.
    + rewrite Ht2, Ht1, app_assoc. reflexivity.
    + rewrite forallb_app, Hq1, Hq2. reflexivity.
Qed.

Lemma quiet_hushed w w' : quiet w w' -> hushed w w'.
Proof. intros (_ & _ & Hl). exact Hl. Qed.

Lemma hushed_emit o : quiet_output o = true -> keeps hushed (emit o).
Proof.
  intros Ho w. exists [o]. split; [reflexivity|]. cbn. rewrite Ho. reflexivity.
Qed.

Lemma hushed_here w w' : trace w' = trace w -> hushed w w'.
Proof.
  intros Ht. exists []. split; [rewrite Ht; symmetry; apply app_nil_r|].
  reflexivity.
Qed.

Ltac prim_hushed :=
  first [ apply hushed_emit; reflexivity
        | intros ?; apply hushed_here; reflexivity ].

(** The trace grows by the record [L] of a branch, and by records of no
    branch after it. *)
Definition logged (L : log_record) (w w' : World) : Prop :=
  exists l, trace w' = trace w ++ Log L :: l /\ forallb quiet_output l = true.

Lemma logged_intro L w w' :
  hushed (set_trace (trace w ++ [Log L]) w) w' -> logged L w w'.
Proof.
  intros (l & Ht & Hq). exists l. split; [|exact Hq].
  rewrite Ht. cbn. rewrite <- app_assoc. reflexivity.
Qed.

Lemma count_quiet t l n :
  forallb quiet_output l = true -> fold_left (count t) l n = n.
Proof.
  revert n. induction l as [|o l IH]; intros n Hq; [reflexivity|].
  cbn in Hq. apply andb_true_iff in Hq. destruct Hq as [Ho Hl].
  cbn [fold_left]. rewrite IH by exact Hl. unfold count.
  destruct o as [f j|f x|f|r]; [destruct t; reflexivity..|].
  destruct r; destruct t; first [reflexivity | discriminate Ho].
Qed.

Lemma consecutive_failures_hushed t w w' :
  hushed w w' ->
  consecutive_failures t (trace w') = consecutive_failures t (trace w).
Proof.
  intros (l & Ht & Hq). unfold consecutive_failures.
  rewrite Ht, fold_left_app. apply count_quiet, Hq.
Qed.

Lemma consecutive_failures_logged t L w w' :
  logged L w w' ->
  consecutive_failures t (trace w')
  = count t (consecutive_failures t (trace w)) (Log L).
Proof.
  intros (l & Ht & Hq). unfold consecutive_failures.
  rewrite Ht, fold_left_app. cbn [fold_left]. apply count_quiet, Hq.
Qed.

Section Effects.

Context `{Library}.

Lemma hushed_schedule_restart seconds : keeps hushed (schedule_restart seconds).
Proof. intros w. apply quiet_hushed, quiet_schedule_restart. Qed.

Lemma hushed_close : keeps hushed close.
Proof. intros w. apply quiet_hushed, quiet_close. Qed.

Lemma hushed_set_stall_timeout : keeps hushed set_stall_timeout.
Proof. intros w. apply quiet_hushed, quiet_set_stall_timeout. Qed.

Lemma hushed_wait_for_message id : keeps hushed (wait_for_message id).
Proof. intros w. apply quiet_hushed, quiet_wait_for_message. Qed.

Ltac frame_hushed :=
  pose proof hushed_schedule_restart; pose proof hushed_close;
  pose proof hushed_set_stall_timeout; pose proof hushed_wait_for_message;
  frame ltac:(first [assumption | prim_hushed]).

(** Each branch logs its record first. *)
Lemma logged_rate_limited w :
  logged (error_rate_limited (_retry_rate_limited_delay (self w))) w
    (world_of (rate_limited w)).
Proof.
  unfold rate_limited. do 2 mstep. apply logged_intro.
  match goal with
  | |- hushed ?W (world_of (?m ?W)) =>
      assert (Hk : keeps hushed m) by frame_hushed; exact (Hk W)
  end.
Qed.

Lemma logged_connect_failed response_code w :
  logged (error_connect_failed response_code (_retry_delay (self w))) w
    (world_of (connect_failed response_code w)).
Proof.
  unfold connect_failed. do 2 mstep. apply logged_intro.
  match goal with
  | |- hushed ?W (world_of (?m ?W)) =>
      assert (Hk : keeps hushed m) by frame_hushed; exact (Hk W)
  end.
Qed.

Lemma logged_established id w :
  logged info_established w (world_of (established id w)).
Proof.
  unfold established. mstep. apply logged_intro.
  match goal with
  | |- hushed ?W (world_of (?m ?W)) =>
      assert (Hk : keeps hushed m) by frame_hushed; exact (Hk W)
  end.
Qed.

Lemma logged_close_before_established_callback w :
  logged error_closed_before_established w
    (world_of (close_before_established_callback w)).
Proof.
  unfold close_before_established_callback. mstep. apply logged_intro.
  match goal with
  | |- hushed ?W (world_of (?m ?W)) =>
      assert (Hk : keeps hushed m) by frame_hushed; exact (Hk W)
  end.
Qed.

(** What the branch for status 420 does when its delay fits a [timedelta]:
    it returns, doubles the delay of its tier, and leaves the attempt and
    the streams as they are; and when no restart is scheduled yet, the
    object then holds a timeout for [open_twitter_stream] due after the
    delay the branch found. *)
Lemma rate_limited_effect w :
  0 < _retry_rate_limited_delay (self w) ->
  timedelta_fits (inject_Z (_retry_rate_limited_delay (self w))) = true ->
  exists w',
    rate_limited w = Ok tt w' /\
    delays w' = (_retry_delay (self w), _retry_rate_limited_delay (self w) * 2,
                 _retry_before_established_delay (self w)) /\
    _current_iostream (self w') = _current_iostream (self w) /\
    _twitter_stream (self w') = _twitter_stream (self w) /\
    streams w' = streams w /\
    (_stream_restart_scheduled (self w) = false ->
     fresh_handles (ioloop w) ->
     restart_deadline w'
     = Some (time (ioloop w)
             + inject_Z (_retry_rate_limited_delay (self w)))%Q).
Proof.
  intros Hr Hfits. unfold rate_limited. do 3 mstep.
  rewrite bind_unfold.
  rewrite schedule_restart_nonzero by (apply positive_inject_Z, Hr).
  cbn [self set_self _stream_restart_scheduled _stream_restart_in_process
         upd_stream_restart_in_process negb andb].
  destruct (_stream_restart_scheduled (self w)) eqn:Hsch; cbn [negb andb].
  - cbv beta iota. do 2 mstep. destruct (_rate_limited_callback _); eexists;
      (split; [reflexivity|]); cbn; repeat split; discriminate.
  - rewrite add_timeout_eq by exact Hfits. cbv beta iota. do 2 mstep.
    destruct (_rate_limited_callback _); eexists;
      (split; [reflexivity|]); repeat split; intros _ Hf;
      (eapply restart_deadline_added;
       [ reflexivity | reflexivity
       | apply without_restart_fresh; exact Hf ]).
Qed.

(** And when it does not fit, no restart being scheduled yet: the
    exception of [timedelta] leaves the branch before the delay is
    doubled, and the object holds no timeout. *)
Lemma rate_limited_overflow w :
  0 < _retry_rate_limited_delay (self w) ->
  timedelta_fits (inject_Z (_retry_rate_limited_delay (self w))) = false ->
  _stream_restart_scheduled (self w) = false ->
  exists w',
    rate_limited w = Raise OverflowError w' /\
    delays w' = delays w /\
    restart_deadline w' = None.
Proof.
  intros Hr Hfits Hsch. unfold rate_limited. do 3 mstep.
  rewrite bind_unfold.
  rewrite schedule_restart_nonzero by (apply positive_inject_Z, Hr).
  cbn [self set_self _stream_restart_scheduled _stream_restart_in_process
         upd_stream_restart_in_process negb andb].
  rewrite Hsch. cbn [negb andb].
  rewrite add_timeout_overflows by exact Hfits.
  eexists. split; [reflexivity|].
  cbn [self set_self _timeout_handle upd_stream_restart_scheduled
         upd_stream_restart_in_process].
  unfold restart_deadline.
  destruct (_timeout_handle (self w)) eqn:Hh; cbn; rewrite ?Hh;
    split; reflexivity.
Qed.

(** What the branch for the other codes does. *)
Lemma connect_failed_effect response_code w :
  0 < _retry_delay (self w) < 640 ->
  exists w',
    connect_failed response_code w = Ok tt w' /\
    delays w' = (next_error (_retry_delay (self w)),
                 _retry_rate_limited_delay (self w),
                 _retry_before_established_delay (self w)) /\
    _current_iostream (self w') = _current_iostream (self w) /\
    _twitter_stream (self w') = _twitter_stream (self w) /\
    streams w' = streams w /\
    (_stream_restart_scheduled (self w) = false ->
     fresh_handles (ioloop w) ->
     restart_deadline w'
     = Some (time (ioloop w) + inject_Z (_retry_delay (self w)))%Q).
Proof.
  intros Hr. unfold connect_failed. do 3 mstep.
  rewrite bind_unfold.
  rewrite schedule_restart_nonzero by (apply positive_inject_Z, Hr).
  cbn [self set_self _stream_restart_scheduled _stream_restart_in_process
         upd_stream_restart_in_process negb andb].
  unfold next_error.
  destruct (_stream_restart_scheduled (self w)) eqn:Hsch; cbn [negb andb].
  - cbv beta iota. mstep.
    cbn [_retry_delay upd_stream_restart_in_process].
    destruct (_retry_delay (self w) <? 320); eexists;
      (split; [reflexivity|]); cbn; repeat split; discriminate.
  - rewrite add_timeout_eq by (apply fits_inject_Z, Hr). cbv beta iota. mstep.
    cbn [_retry_delay upd_stream_restart_in_process
           upd_stream_restart_scheduled upd_timeout_handle].
    destruct (_retry_delay (self w) <? 320); eexists;
      (split; [reflexivity|]); repeat split; intros _ Hf;
      (eapply restart_deadline_added;
       [ reflexivity | reflexivity
       | apply without_restart_fresh; exact Hf ]).
Qed.

(** [close] leaves the clock and the mark of a scheduled restart. *)
Definition steady (w w' : World) : Prop :=
  _stream_restart_scheduled (self w') = _stream_restart_scheduled (self w) /\
  time (ioloop w') = time (ioloop w).

#[local] Instance steady_preorder : PreOrder steady.
Proof.
  split; [intros w; split; reflexivity|].
  intros a b c [H1 H2] [H3 H4]. split; congruence.
Qed.

Lemma steady_close : keeps steady close.
Proof. frame ltac:(intros ?; split; reflexivity). Qed.

(** What [close_before_established_callback] does when the stream of the
    object exists. *)
Lemma close_before_established_effect w :
  valid w -> (0 < _retry_before_established_delay (self w))%Q ->
  (_retry_before_established_delay (self w) < 17)%Q ->
  exists w',
    close_before_established_callback w = Ok tt w' /\
    delays w' = (_retry_delay (self w), _retry_rate_limited_delay (self w),
                 next_pre (_retry_before_established_delay (self w))) /\
    (_stream_restart_scheduled (self w) = false ->
     restart_deadline w'
     = Some (time (ioloop w) + _retry_before_established_delay (self w))%Q).
Proof.
  intros Hv Hp Hp'. unfold close_before_established_callback. mstep.
  match goal with |- context [bind close _ ?W] => set (w1 := W) end.
  assert (Hv1 : valid w1) by (revert Hv; apply valid_ext; reflexivity).
  destruct (close_returns w1 Hv1) as [w2 E2].
  pose proof (quiet_close w1) as (Hv2 & Hd2 & _).
  pose proof (steady_close w1) as [Hs2 Ht2].
  rewrite E2 in Hv2, Hd2, Hs2, Ht2. cbn [world_of] in *.
  rewrite (bind_ok _ _ _ _ _ E2). do 2 mstep.
  assert (Hpre : _retry_before_established_delay
                   (upd_stream_restart_in_process false (self w2))
                 = _retry_before_established_delay (self w)).
  { change (snd (delays w2) = snd (delays w1)). rewrite Hd2. reflexivity. }
  rewrite Hpre. rewrite bind_unfold.
  rewrite schedule_restart_nonzero by (apply positive_Qeq_bool, Hp).
  cbn [self set_self _stream_restart_scheduled _stream_restart_in_process
         upd_stream_restart_in_process negb andb].
  assert (Hdel : delays w2 = delays w) by exact Hd2.
  unfold delays in Hdel. injection Hdel as He Hr Hq.
  change (_stream_restart_scheduled (self w1))
    with (_stream_restart_scheduled (self w)) in Hs2.
  change (time (ioloop w1)) with (time (ioloop w)) in Ht2.
  unfold next_pre.
  destruct (_stream_restart_scheduled (self w2)) eqn:Hsch; cbn [negb andb].
  - cbv beta iota. mstep.
    cbn [_retry_before_established_delay upd_stream_restart_in_process].
    rewrite Hq.
    destruct (Qltb _ 16); eexists; (split; [reflexivity|]);
      (split; [unfold delays; cbn; congruence|]);
      intros Hf; congruence.
  - rewrite add_timeout_eq by (apply fits_small; assumption).
    cbv beta iota. mstep.
    cbn [_retry_before_established_delay upd_stream_restart_in_process
           upd_stream_restart_scheduled upd_timeout_handle].
    rewrite Hq.
    destruct (Qltb _ 16); eexists; (split; [reflexivity|]);
      (split; [unfold delays; cbn; congruence|]);
      intros _; rewrite <- Ht2;
      (eapply restart_deadline_added;
       [ reflexivity | reflexivity
       | apply without_restart_fresh; apply Hv2, Hv1 ]).
Qed.

(** What the branch for status 200 does first: the three delays are back
    at their initial values, whatever happens to the stream afterwards. *)
Lemma established_resets id w : delays (world_of (established id w)) = initial.
Proof.
  unfold established. do 5 mstep.
  match goal with
  | |- delays (world_of (?m ?W)) = _ =>
      assert (Hk : keeps quiet m)
        by (pose proof quiet_set_stall_timeout;
            pose proof quiet_wait_for_message; frame_quiet);
      destruct (Hk W) as (_ & Hd & _); exact Hd
  end.
Qed.

End Effects.

Section Dispatch.

Context `{Library}.

Lemma twitter_stream_eq w s :
  _twitter_stream (self w) = Some s -> twitter_stream w = Ok s w.
Proof. intros Hs. unfold twitter_stream, bind, get. rewrite Hs. reflexivity. Qed.

Lemma bind_decode {B} response text (k : string -> M B) w :
  PyStr.decode response = Some text -> bind (decode response) k w = k text w.
Proof. intros Hd. unfold bind, decode. rewrite Hd. reflexivity. Qed.

(** The world in which [on_headers] reads the status: the close callback
    of the stream has been replaced. *)
Definition headers_seen (s : token) (st : IOStream) (w : World) : World :=
  set_streams
    (<[s := {| ssl := ssl st; closed := closed st;
               close_callback_of := Some cb_none; waiting := waiting st;
               written := written st |}]> (streams w)) w.

(** [on_headers] for the current attempt: the response is decoded, the
    close callback of the stream is replaced, then the status decides. *)
Lemma on_headers_eq response text id w s st :
  _current_iostream (self w) = Some id ->
  _twitter_stream (self w) = Some s ->
  streams w !! s = Some st ->
  PyStr.decode response = Some text ->
  on_headers response id w =
  match status_of text with
  | inl e => Raise e (headers_seen s st w)
  | inr (status_line, response_code) =>
      if negb (response_code =? 200)
      then
        if response_code =? 420 then rate_limited (headers_seen s st w)
        else if negb (is_fatal response_code)
        then connect_failed response_code (headers_seen s st w)
        else could_not_connect status_line text (headers_seen s st w)
      else established id (headers_seen s st w)
  end.
Proof.
  intros Hc Hs Hst Hd. unfold on_headers, headers_seen. mstep. rewrite Hc.
  rewrite bool_decide_eq_true_2 by reflexivity. cbn [negb].
  rewrite (bind_decode _ _ _ _ Hd).
  rewrite (bind_ok _ _ _ _ _ (twitter_stream_eq w s Hs)).
  rewrite (bind_ok _ _ _ _ _ (stream_set_close_callback_eq s cb_none w st Hst)).
  destruct (status_of text) as [e|[status_line response_code]];
    [reflexivity|].
  destruct (negb (response_code =? 200)); [|reflexivity].
  destruct (response_code =? 420); [reflexivity|].
  destruct (negb (is_fatal response_code)); reflexivity.
Qed.

(** Headers that are not well-formed UTF-8 raise before anything is
    done. *)
Lemma on_headers_undecodable response id w :
  _current_iostream (self w) = Some id ->
  PyStr.decode response = None ->
  on_headers response id w = Raise UnicodeDecodeError w.
Proof.
  intros Hc Hd. unfold on_headers. mstep. rewrite Hc.
  rewrite bool_decide_eq_true_2 by reflexivity. cbn [negb].
  unfold bind, decode. rewrite Hd. reflexivity.
Qed.

End Dispatch.

(** ** C1 *)

(** What a response of the current attempt does to the delays, by its
    status code, when the timeout of the branch can be set; *)
Definition delays_after (response_code : Z) (d : Z * Z * Q) : Z * Z * Q :=
  let '(e, r, p) := d in
  if response_code =? 200 then initial
  else if response_code =? 420 then (e, r * 2, p)
  else if is_fatal response_code then d
  else (next_error e, r, p).

(** the record it logs; *)
Definition record_of (response_code : Z) (d : Z * Z * Q)
  : option log_record :=
  let '(e, r, p) := d in
  if response_code =? 200 then Some info_established
  else if response_code =? 420 then Some (error_rate_limited r)
  else if is_fatal response_code then None
  else Some (error_connect_failed response_code e).

(** and the delay it hands to the loop for the next attempt. *)
Definition delay_handed (response_code : Z) (d : Z * Z * Q) : option Q :=
  let '(e, r, p) := d in
  if response_code =? 200 then None
  else if response_code =? 420 then Some (inject_Z r)
  else if is_fatal response_code then None
  else Some (inject_Z e).

(** The failures of a tier counted after a step that logged [record]. *)
Definition counted (t : tier) (record : option log_record) (n : nat) : nat :=
  match record with
  | Some L => count t n (Log L)
  | None => n
  end.

Section Backoff.

Context `{Library}.

(** The part of C1 on a single response. *)
Lemma on_headers_backoff response text id s status_line response_code w :
  valid w -> sound (delays w) ->
  _current_iostream (self w) = Some id ->
  _twitter_stream (self w) = Some s ->
  PyStr.decode response = Some text ->
  status_of text = inr (status_line, response_code) ->
  let w' := world_of (on_headers response id w) in
  (forall t,
     consecutive_failures t (trace w')
     = counted t (record_of response_code (delays w))
         (consecutive_failures t (trace w))) /\
  if (response_code =? 420)
     && negb (timedelta_fits (inject_Z (_retry_rate_limited_delay (self w))))
  then
    _stream_restart_scheduled (self w) = false ->
    raised (on_headers response id w) = Some OverflowError /\
    delays w' = delays w /\ restart_deadline w' = None
  else
    delays w' = delays_after response_code (delays w) /\
    (_stream_restart_scheduled (self w) = false ->
     forall seconds,
       delay_handed response_code (delays w) = Some seconds ->
       restart_deadline w' = Some (time (ioloop w) + seconds)%Q).
Proof.
  intros Hv Hp Hc Hs Hd Hstatus.
  destruct (lookup_lt_is_Some_2 _ _ (proj1 Hv s Hs)) as [st Hst].
  cbv zeta. rewrite (on_headers_eq response text id w s st Hc Hs Hst Hd).
  rewrite Hstatus.
  set (w1 := headers_seen s st w).
  assert (Hf1 : fresh_handles (ioloop w1)) by exact (proj2 Hv).
  unfold sound, delays in Hp. destruct Hp as (Hpe & Hpr & Hpq & Hpq').
  unfold delays_after, record_of, delay_handed, counted.
  change (delays w)
    with (_retry_delay (self w1), _retry_rate_limited_delay (self w1),
          _retry_before_established_delay (self w1)).
  change (trace w) with (trace w1).
  change (time (ioloop w)) with (time (ioloop w1)).
  change (_stream_restart_scheduled (self w))
    with (_stream_restart_scheduled (self w1)).
  change (_retry_rate_limited_delay (self w))
    with (_retry_rate_limited_delay (self w1)) in *.
  change (_retry_delay (self w)) with (_retry_delay (self w1)) in *.
  change (_retry_before_established_delay (self w))
    with (_retry_before_established_delay (self w1)) in *.
  cbv beta iota.
  clearbody w1.
  destruct (response_code =? 200) eqn:H200; cbn [negb].
  { assert (H420 : (response_code =? 420) = false).
    { apply Z.eqb_eq in H200. subst response_code. reflexivity. }
    rewrite H420. cbn [andb]. split; [|split].
    - intros t. apply consecutive_failures_logged, logged_established.
    - apply established_resets.
    - intros _ seconds Hsec. discriminate Hsec. }
  destruct (response_code =? 420) eqn:H420; cbn [andb].
  { split.
    - intros t. apply consecutive_failures_logged, logged_rate_limited.
    - destruct (timedelta_fits
                  (inject_Z (_retry_rate_limited_delay (self w1))))
        eqn:Hfits; cbn [negb].
      + destruct (rate_limited_effect w1 Hpr Hfits)
          as (w' & E & Hd' & _ & _ & _ & Hdl).
        rewrite E. cbn [world_of]. split; [exact Hd'|].
        intros Hsch seconds [= <-]. apply Hdl; [exact Hsch | exact Hf1].
      + intros Hsch.
        destruct (rate_limited_overflow w1 Hpr Hfits Hsch)
          as (w' & E & Hd' & Hdl).
        rewrite E. cbn [world_of raised]. split; [reflexivity|].
        split; [exact Hd' | exact Hdl]. }
  destruct (is_fatal response_code) eqn:Hfatal; cbn [negb].
  { pose proof (quiet_could_not_connect status_line text w1)
      as (_ & Hd' & Hl).
    split; [|split].
    - intros t. apply consecutive_failures_hushed. exact Hl.
    - exact Hd'.
    - intros _ seconds Hsec. discriminate Hsec. }
  split.
  - intros t. apply consecutive_failures_logged, logged_connect_failed.
  - destruct (connect_failed_effect response_code w1 Hpe)
      as (w' & E & Hd' & _ & _ & _ & Hdl).
    rewrite E. cbn [world_of]. split; [exact Hd'|].
    intros Hsch seconds [= <-]. apply Hdl; [exact Hsch | exact Hf1].
Qed.

(** C1 (amended).  In every world the object reaches, the error delay is
    [5 * 2 ^ n] capped at 320 and the delay before the headers is
    [1/4 + n/4] capped at 16, where [n] counts the failures of the tier
    since the stream was last established; the rate limit delay is
    [60 * 2 ^ n], with no cap, as long as every delay logged for a rate
    limit fits a [timedelta].  The failures are counted by what a response
    of the current attempt does, by its status code:
    - 200 sets the three delays to 5, 60 and 1/4 and the three counts to
      zero;
    - 420 counts for the rate limit tier, hands the rate limit delay to the
      loop and doubles it; when the delay does not fit a [timedelta], from
      [60 * 2 ^ 41] on, [OverflowError] is raised instead, no timeout is
      set and the delay stays;
    - 401, 403, 404, 406 and 413 count for no tier and change no delay;
    - any other code counts for the error tier, hands the error delay to
      the loop and doubles it below 320.
    A close before the headers counts for its tier, hands the delay of the
    tier to the loop and adds a quarter to it below 16.  A delay is handed
    to the loop when no restart is scheduled yet.  No other callback of the
    class changes a delay or a count. *)
Theorem backoff_delays_follow_the_responses
  (c : gmap string pyval) (clean : bool) (t : Q) (w0 : World)
  (events : list event) :
  TweetStream_ c clean t = Ok tt w0 ->
  let w := run events w0 in
  (_retry_delay (self w)
   = error_delay (consecutive_failures error_tier (trace w)) /\
   (_retry_before_established_delay (self w)
    == pre_established_delay
         (consecutive_failures pre_established_tier (trace w)))%Q /\
   (no_overflow (trace w) = true ->
    _retry_rate_limited_delay (self w)
    = rate_limit_delay (consecutive_failures rate_limit_tier (trace w)))) /\
  (forall response text id s status_line response_code,
     _current_iostream (self w) = Some id ->
     _twitter_stream (self w) = Some s ->
     PyStr.decode response = Some text ->
     status_of text = inr (status_line, response_code) ->
     let w' := world_of (on_headers response id w) in
     (forall t,
        consecutive_failures t (trace w')
        = counted t (record_of response_code (delays w))
            (consecutive_failures t (trace w))) /\
     if (response_code =? 420)
        && negb (timedelta_fits
                   (inject_Z (_retry_rate_limited_delay (self w))))
     then
       _stream_restart_scheduled (self w) = false ->
       raised (on_headers response id w) = Some OverflowError /\
       delays w' = delays w /\ restart_deadline w' = None
     else
       delays w' = delays_after response_code (delays w) /\
       (_stream_restart_scheduled (self w) = false ->
        forall seconds,
          delay_handed response_code (delays w) = Some seconds ->
          restart_deadline w' = Some (time (ioloop w) + seconds)%Q)) /\
  (let w' := world_of (close_before_established_callback w) in
   delays w' = (_retry_delay (self w), _retry_rate_limited_delay (self w),
                next_pre (_retry_before_established_delay (self w))) /\
   (forall t,
      consecutive_failures t (trace w')
      = counted t (Some error_closed_before_established)
          (consecutive_failures t (trace w))) /\
   (_stream_restart_scheduled (self w) = false ->
    restart_deadline w'
    = Some (time (ioloop w) + _retry_before_established_delay (self w))%Q)) /\
  (forall cb data,
     (forall id, cb <> cb_on_headers id) ->
     cb <> cb_close_before_established_callback ->
     let w' := world_of (call cb data w) in
     delays w' = delays w /\
     forall t,
       consecutive_failures t (trace w') = consecutive_failures t (trace w)).
Proof.
  intros Hw0 w.
  destruct (init_valid _ _ _ _ Hw0) as [Hv0 Hp0].
  destruct (init_returns _ _ _ _ Hw0) as (Ht0 & _ & _ & Hd0 & _).
  destruct (follows_run events w0 Hv0 Hp0) as (Hv & Hp & l & Ht & Hd).
  fold w in Hv, Hp, Ht, Hd.
  rewrite Ht0 in Ht. cbn [app] in Ht. rewrite Hd0 in Hd.
  change initial
    with (Nat.iter 0 next_error 5, Nat.iter 0 (fun r => r * 2) 60,
          Nat.iter 0 next_pre (1 # 4)%Q) in Hd.
  rewrite replay_counts in Hd. unfold delays, agrees in Hd.
  destruct Hd as (He & Hq & Hr).
  split; [|split; [|split]].
  - unfold consecutive_failures. rewrite Ht.
    split; [rewrite He; apply next_error_iter|].
    split; [rewrite Hq; apply next_pre_iter|].
    intros Hfit. rewrite (Hr Hfit). apply rate_limit_iter.
  - intros response text id s status_line response_code Hc Hs Hdec Hstatus.
    exact (on_headers_backoff response text id s status_line response_code w
             Hv Hp Hc Hs Hdec Hstatus).
  - cbv zeta. pose proof Hp as (_ & _ & Hpq & Hpq').
    destruct (close_before_established_effect w Hv Hpq Hpq')
      as (w' & E & Hd' & Hdl).
    pose proof (logged_close_before_established_callback w) as Hlog.
    rewrite E in *. cbn [world_of] in *.
    split; [exact Hd'|]. split; [|exact Hdl].
    intros t'. apply consecutive_failures_logged, Hlog.
  - intros cb data Hh Hcb. cbv zeta.
    destruct (quiet_call cb data Hh Hcb w) as (_ & Hd' & Hl).
    split; [exact Hd'|].
    intros t'. apply consecutive_failures_hushed. exact Hl.
Qed.

End Backoff.

Section Backoff_example.

#[local] Existing Instance Sample.library.

Definition response_420 : string :=
  "HTTP/1.1 420 Enhance Your Calm" +:+ PyStr.CRLF +:+ PyStr.CRLF.

Definition sample_world : World :=
  world_of (TweetStream_ Sample.configuration false 0%Q).

(** Two attempts that are both answered with status 420, the second one
    made when the timeout of the first has run. *)
Definition rate_limited_twice : list event :=
  [ev_fetch "/1.1/statuses/filter.json?track=ferguson" "GET" None None;
   ev_connected 0%nat; ev_read 0%nat response_420;
   ev_sleep 60; ev_timeout 0%nat;
   ev_connected 1%nat; ev_read 1%nat response_420].

Lemma backoff_delays_witness :
  TweetStream_ Sample.configuration false 0%Q = Ok tt sample_world /\
  no_overflow (trace (run rate_limited_twice sample_world)) = true /\
  consecutive_failures rate_limit_tier
    (trace (run rate_limited_twice sample_world)) = 2%nat /\
  _retry_rate_limited_delay (self (run rate_limited_twice sample_world))
  = rate_limit_delay 2.
Proof.
  assert (H0 : TweetStream_ Sample.configuration false 0%Q
               = Ok tt sample_world) by (vm_compute; reflexivity).
  split; [exact H0|].
  assert (Hfit : no_overflow (trace (run rate_limited_twice sample_world))
                 = true) by (vm_compute; reflexivity).
  split; [exact Hfit|].
  assert (Hn : consecutive_failures rate_limit_tier
                 (trace (run rate_limited_twice sample_world)) = 2%nat)
    by (vm_compute; reflexivity).
  split; [exact Hn|].
  rewrite <- Hn.
  exact (proj2 (proj2 (proj1 (backoff_delays_follow_the_responses
                                Sample.configuration false 0%Q sample_world
                                rate_limited_twice H0))) Hfit).
Defined.

End Backoff_example.

Section No_cap.

#[local] Existing Instance Sample.library.

(** The first attempt has been made: stream 0 is connecting. *)
Definition first_attempt : World :=
  run [ev_fetch "/1.1/statuses/filter.json?track=ferguson" "GET" None None]
    sample_world.

(** The current attempt is connected and answered with status 420. *)
Definition answered_420 (w : World) : World :=
  match _current_iostream (self w) with
  | Some s => run [ev_connected s; ev_read s response_420] w
  | None => w
  end.

(** The delay the object has handed to the loop: how far ahead the timeout
    it holds for its restart is due. *)
Definition handed (w : World) : option Q :=
  match restart_deadline w with
  | Some d => Some (Qred (d - time (ioloop w)))
  | None => None
  end.

(** One more attempt that is rate limited: the answer, and then the time
    until the timeout runs and the object has reopened. *)
Definition rate_limited_round (w : World) : World :=
  let w' := answered_420 w in
  match handed w', _timeout_handle (self w') with
  | Some seconds, Some h => run [ev_sleep seconds; ev_timeout h] w'
  | _, _ => w'
  end.

(** The delay handed to the loop at the rate limit that follows [n]
    others. *)
Definition handed_after (n : nat) : option Q :=
  handed (answered_420 (Nat.iter n rate_limited_round first_attempt)).

(** C1, as stated, fails for the rate limit tier: its delay has no cap.
    After 40 rate limits in a row the object waits [60 * 2 ^ 40] seconds;
    at the next rate limit [timedelta] raises [OverflowError], no
    timeout is set, and the object does not reopen.  A maximum that the
    delays handed over up to there are capped at is [60 * 2 ^ 40] at
    least, and no maximum makes the delay handed over after every [n]
    rate limits be [60 * 2 ^ n] capped at it. *)
Lemma rate_limit_delay_is_not_capped :
  map handed_after (seq 0 41)
  = map (fun n => Some (inject_Z (60 * 2 ^ Z.of_nat n))) (seq 0 41) /\
  handed_after 41 = None /\
  (let w := Nat.iter 41 rate_limited_round first_attempt in
   _retry_rate_limited_delay (self w) = 60 * 2 ^ 41 /\
   raised (step (ev_read 41%nat response_420)
             (run [ev_connected 41%nat] w)) = Some OverflowError /\
   timeouts (ioloop (answered_420 w)) = []) /\
  (forall maximum : Z,
     (forall n, (n <= 40)%nat ->
                handed_after n
                = Some (inject_Z (Z.min (60 * 2 ^ Z.of_nat n) maximum))) ->
     60 * 2 ^ 40 <= maximum) /\
  ~ exists maximum : Z,
      forall n, handed_after n
                = Some (inject_Z (Z.min (60 * 2 ^ Z.of_nat n) maximum)).
Proof.
  assert (H41 : handed_after 41 = None) by (vm_compute; reflexivity).
  split; [vm_compute; reflexivity|]. split; [exact H41|].
  split; [vm_compute; repeat split|].
  split.
  { intros maximum Hmax. specialize (Hmax 40%nat (le_n _)).
    assert (H40 : handed_after 40 = Some (inject_Z 65970697666560))
      by (vm_compute; reflexivity).
    rewrite H40 in Hmax. unfold inject_Z in Hmax.
    change (60 * 2 ^ Z.of_nat 40) with 65970697666560 in Hmax.
    change (60 * 2 ^ 40) with 65970697666560.
    injection Hmax as Hmax. lia. }
  intros [maximum Hmax]. specialize (Hmax 41%nat). rewrite H41 in Hmax.
  discriminate Hmax.
Qed.

End No_cap.

(** ** Stale callbacks *)

(** The identity token a callable carries. *)
Definition token_of (cb : callback) : option token :=
  match cb with
  | cb_on_connect id | cb_on_headers id | cb_on_result id
  | cb_parse_json id => Some id
  | cb_open_twitter_stream | cb_stall_callback
  | cb_close_before_established_callback | cb_close_callback | cb_none
  | cb_get_error_body _ => None
  end.

(** C5, as the code has it.  The callbacks for the connect, the headers, a
    frame line and a frame payload carry the token of their attempt, and
    each of them returns at once, leaving the world as it is, when that
    token is not the one of the current attempt.  The callbacks for a close,
    for a stall and for the body of an error response carry no token. *)
Theorem stale_callback_is_ignored `{Library}
  (cb : callback) (id : token) (data : string) (w : World) :
  token_of cb = Some id ->
  _current_iostream (self w) <> Some id ->
  call cb data w = Ok tt w /\
  token_of cb_close_callback = None /\
  token_of cb_close_before_established_callback = None /\
  token_of cb_stall_callback = None /\
  (forall exception_string,
     token_of (cb_get_error_body exception_string) = None).
Proof.
  intros Hcb Hid. split; [|repeat split].
  destruct cb; try discriminate Hcb; injection Hcb as ->; cbn [call];
    [ unfold on_connect | unfold on_headers | unfold on_result
    | unfold parse_json ];
    mstep; rewrite bool_decide_eq_false_2 by exact Hid; reflexivity.
Qed.


(** ** Frame lines *)

(** ** The partial tweet *)

(** The responses handed to the callback of [fetch]. *)
Definition message_of (o : output) : option json :=
  match o with
  | Message _ response => Some response
  | _ => None
  end.

Definition messages (w : World) : list json := omap message_of (trace w).

Definition same_partial (w w' : World) : Prop :=
  _partial_tweet (self w') = _partial_tweet (self w).

#[global] Instance same_partial_preorder : PreOrder same_partial.
Proof.
  split; [intros w; reflexivity|].
  intros a b c Hab Hbc. unfold same_partial in *. congruence.
Qed.

(** A step that assigns nothing and hands no message over. *)
Definition same_object (w w' : World) : Prop :=
  self w' = self w /\ messages w' = messages w.

#[global] Instance same_object_preorder : PreOrder same_object.
Proof.
  split; [intros w; split; reflexivity|].
  intros a b c [H1 H2] [H3 H4]. split; congruence.
Qed.

Lemma messages_log w r :
  messages (set_trace (trace w ++ [Log r]) w) = messages w.
Proof.
  unfold messages. cbn [trace set_trace]. rewrite omap_app. cbn.
  apply app_nil_r.
Qed.

Lemma same_object_wait_for_message id : keeps same_object (wait_for_message id).
Proof.
  frame ltac:(first [ intros ?; split; [reflexivity | apply messages_log]
                    | intros ?; split; reflexivity ]).
Qed.

Lemma set_stall_timeout_eq w :
  set_stall_timeout w =
  Ok tt
    (set_self
       (upd_stall_timeout_handle (Some (next_timeout (ioloop w))) (self w))
       (set_ioloop
          {| time := time (ioloop w);
             timeouts :=
               match _stall_timeout_handle (self w) with
               | Some h => List.filter (other_than h) (timeouts (ioloop w))
               | None => timeouts (ioloop w)
               end ++
               [{| timeout_id := next_timeout (ioloop w);
                   deadline := (time (ioloop w) + 90)%Q;
                   timeout_callback := cb_stall_callback |}];
             next_timeout := S (next_timeout (ioloop w));
             callbacks := callbacks (ioloop w) |} w)).
Proof.
  unfold set_stall_timeout, remove_stall_timeout, bind, get.
  destruct (_stall_timeout_handle (self w)); reflexivity.
Qed.

Section Partial.

Context `{Library}.

(** The world [parse_json] leaves when it has set the stall timeout and
    assigned [partial] to the buffer. *)
Definition buffered (partial : string) (w : World) : World :=
  set_self
    (upd_partial_tweet partial
       (upd_stall_timeout_handle (Some (next_timeout (ioloop w))) (self w)))
    (world_of (set_stall_timeout w)).

(** [parse_response] when the message is handed over as it is. *)
Lemma parse_response_eq (value : json) id f w :
  _clean_message (self w) = false -> _callback (self w) = Some f ->
  parse_response value id w =
  wait_for_message id (set_trace (trace w ++ [Message f value]) w).
Proof.
  intros Hclean Hcb. unfold parse_response. mstep. rewrite Hclean.
  unfold deliver. mstep. rewrite Hcb. cbv beta iota. mstep. reflexivity.
Qed.

(** What [parse_json] does first for the current attempt: the payload is
    decoded, and the stall timeout is set. *)
Lemma parse_json_eq response text id w :
  _current_iostream (self w) = Some id ->
  PyStr.decode response = Some text ->
  parse_json response id w =
  (if bool_decide (str_strip text = "") then wait_for_message id
   else
     match json_loads text with
     | Some value =>
         assign (upd_partial_tweet "") ;;
         parse_response value id
     | None =>
         assign (fun s => upd_partial_tweet (_partial_tweet s +:+ text) s) ;;
         partial_tweet <- get _partial_tweet ;;
         match json_loads partial_tweet with
         | Some value =>
             assign (upd_partial_tweet "") ;;
             parse_response value id
         | None => wait_for_message id
         end
     end) (world_of (set_stall_timeout w)).
Proof.
  intros Hid Hd. unfold parse_json. mstep. rewrite Hid.
  rewrite bool_decide_eq_true_2 by reflexivity. cbn [negb].
  rewrite (bind_decode _ _ _ _ Hd).
  rewrite (bind_ok _ _ _ _ _ (set_stall_timeout_eq w)).
  rewrite set_stall_timeout_eq. reflexivity.
Qed.

(** A payload that is not well-formed UTF-8 raises before anything is
    done: nothing is buffered and the stall timeout is not set. *)
Lemma parse_json_undecodable response id w :
  _current_iostream (self w) = Some id ->
  PyStr.decode response = None ->
  parse_json response id w = Raise UnicodeDecodeError w.
Proof.
  intros Hid Hd. unfold parse_json. mstep. rewrite Hid.
  rewrite bool_decide_eq_true_2 by reflexivity. cbn [negb].
  unfold bind, decode. rewrite Hd. reflexivity.
Qed.

(** A payload that is no JSON text, and does not complete the buffer to
    one, is buffered. *)
Lemma parse_json_buffers response text id w :
  _current_iostream (self w) = Some id ->
  PyStr.decode response = Some text ->
  str_strip text <> "" ->
  json_loads text = None ->
  json_loads (_partial_tweet (self w) +:+ text) = None ->
  parse_json response id w =
  wait_for_message id (buffered (_partial_tweet (self w) +:+ text) w).
Proof.
  intros Hid Hd Hblank Hp Hb.
  rewrite (parse_json_eq response text id w Hid Hd). unfold buffered.
  rewrite set_stall_timeout_eq. cbn [world_of].
  rewrite bool_decide_eq_false_2 by exact Hblank. rewrite Hp.
  do 2 mstep.
  cbn [_partial_tweet upd_partial_tweet upd_stall_timeout_handle].
  rewrite Hb. reflexivity.
Qed.

(** A payload that completes the buffer to a JSON text: the value of the
    whole goes to [parse_response], with the buffer emptied. *)
Lemma parse_json_completes response text id value w :
  _current_iostream (self w) = Some id ->
  PyStr.decode response = Some text ->
  str_strip text <> "" ->
  json_loads text = None ->
  json_loads (_partial_tweet (self w) +:+ text) = Some value ->
  parse_json response id w = parse_response value id (buffered "" w).
Proof.
  intros Hid Hd Hblank Hp Hb.
  rewrite (parse_json_eq response text id w Hid Hd). unfold buffered.
  rewrite set_stall_timeout_eq. cbn [world_of].
  rewrite bool_decide_eq_false_2 by exact Hblank. rewrite Hp.
  do 2 mstep.
  cbn [_partial_tweet upd_partial_tweet upd_stall_timeout_handle].
  rewrite Hb. mstep. reflexivity.
Qed.

(** A payload that is a JSON text by itself: its value goes to
    [parse_response], with the buffer emptied whatever it held. *)
Lemma parse_json_alone response text id value w :
  _current_iostream (self w) = Some id ->
  PyStr.decode response = Some text ->
  str_strip text <> "" ->
  json_loads text = Some value ->
  parse_json response id w = parse_response value id (buffered "" w).
Proof.
  intros Hid Hd Hblank Hp.
  rewrite (parse_json_eq response text id w Hid Hd). unfold buffered.
  rewrite set_stall_timeout_eq. cbn [world_of].
  rewrite bool_decide_eq_false_2 by exact Hblank. rewrite Hp. mstep.
  reflexivity.
Qed.

Lemma messages_buffered partial w : messages (buffered partial w) = messages w.
Proof. unfold buffered. rewrite set_stall_timeout_eq. reflexivity. Qed.

Lemma self_buffered partial w :
  self (buffered partial w) =
  upd_partial_tweet partial
    (upd_stall_timeout_handle (Some (next_timeout (ioloop w))) (self w)).
Proof. reflexivity. Qed.

Lemma messages_delivered f value w :
  messages (set_trace (trace w ++ [Message f value]) w) = messages w ++ [value].
Proof. unfold messages. cbn [trace set_trace]. rewrite omap_app. reflexivity. Qed.

(** What goes to [parse_response] from [parse_json] is handed over once,
    and the buffer is left empty. *)
Lemma parse_json_delivers payload id f value w :
  parse_json payload id w = parse_response value id (buffered "" w) ->
  _clean_message (self w) = false -> _callback (self w) = Some f ->
  messages (world_of (parse_json payload id w)) = messages w ++ [value] /\
  _partial_tweet (self (world_of (parse_json payload id w))) = "".
Proof.
  intros E Hclean Hcb.
  rewrite E, (parse_response_eq value id f) by assumption.
  destruct (same_object_wait_for_message id
              (set_trace (trace (buffered "" w) ++ [Message f value])
                 (buffered "" w))) as [Hs Hm].
  rewrite Hs, Hm, messages_delivered, messages_buffered.
  split; reflexivity.
Qed.

(** C7 (amended).  Payloads are bytes; each is decoded by itself, and one
    that is not well-formed UTF-8 raises [UnicodeDecodeError] with nothing
    buffered.  With an empty buffer, a payload that decodes, is not blank
    and is no JSON text is buffered and nothing is handed over; a second
    one of that kind that completes the first to a JSON text sends the
    value of the two together to [parse_response], with the buffer emptied.
    A payload that is a JSON text by itself sends its own value to
    [parse_response], with the buffer emptied whatever it held.  What is
    sent to [parse_response] makes exactly one message, the value itself,
    when [clean] is off and a callback is set. *)
Theorem split_document_is_reassembled
  (id : token) (first rest first_text rest_text : string) (value : json)
  (w w' : World) :
  _current_iostream (self w) = Some id ->
  _partial_tweet (self w) = "" ->
  PyStr.decode first = Some first_text ->
  str_strip first_text <> "" -> json_loads first_text = None ->
  self w' = self (world_of (parse_json first id w)) ->
  PyStr.decode rest = Some rest_text ->
  str_strip rest_text <> "" -> json_loads rest_text = None ->
  json_loads (first_text +:+ rest_text) = Some value ->
  (messages (world_of (parse_json first id w)) = messages w /\
   _partial_tweet (self (world_of (parse_json first id w))) = first_text) /\
  (parse_json rest id w' = parse_response value id (buffered "" w') /\
   forall f,
     _clean_message (self w) = false -> _callback (self w) = Some f ->
     messages (world_of (parse_json rest id w')) = messages w' ++ [value] /\
     _partial_tweet (self (world_of (parse_json rest id w'))) = "") /\
  (forall (payload text : string) (alone : json) (w0 : World),
     _current_iostream (self w0) = Some id ->
     PyStr.decode payload = Some text ->
     str_strip text <> "" -> json_loads text = Some alone ->
     parse_json payload id w0 = parse_response alone id (buffered "" w0) /\
     forall f,
       _clean_message (self w0) = false -> _callback (self w0) = Some f ->
       messages (world_of (parse_json payload id w0)) = messages w0 ++ [alone]
       /\ _partial_tweet (self (world_of (parse_json payload id w0))) = "") /\
  (forall (payload : string) (w0 : World),
     _current_iostream (self w0) = Some id ->
     PyStr.decode payload = None ->
     parse_json payload id w0 = Raise UnicodeDecodeError w0).
Proof.
  intros Hid Hempty Hd1 Hb1 Hp1 Hw' Hd2 Hb2 Hp2 Hv.
  assert (Hfirst : json_loads (_partial_tweet (self w) +:+ first_text) = None)
    by (rewrite Hempty; exact Hp1).
  rewrite (parse_json_buffers first first_text id w Hid Hd1 Hb1 Hp1 Hfirst)
    in Hw' |- *.
  destruct (same_object_wait_for_message id
              (buffered (_partial_tweet (self w) +:+ first_text) w))
    as [Hs1 Hm1].
  rewrite Hs1, self_buffered, Hempty in Hw'.
  split; [|split; [|split]].
  - split; [rewrite Hm1; apply messages_buffered|].
    rewrite Hs1, self_buffered, Hempty. reflexivity.
  - assert (E : parse_json rest id w'
                = parse_response value id (buffered "" w')).
    { apply (parse_json_completes rest rest_text); try assumption;
        rewrite Hw'; assumption. }
    split; [exact E|]. intros f Hclean Hcb.
    apply (parse_json_delivers rest id f value w' E);
      rewrite Hw'; assumption.
  - intros payload text alone w0 H1 H2 H3 H4.
    assert (E : parse_json payload id w0
                = parse_response alone id (buffered "" w0))
      by (apply (parse_json_alone payload text); assumption).
    split; [exact E|]. intros f Hclean Hcb.
    apply (parse_json_delivers payload id f alone w0 E); assumption.
  - intros payload w0 H1 H2. apply parse_json_undecodable; assumption.
Qed.

Ltac prim_partial := intros ?; reflexivity.

Lemma same_partial_schedule_restart seconds :
  keeps same_partial (schedule_restart seconds).
Proof. frame prim_partial. Qed.

Lemma same_partial_close : keeps same_partial close.
Proof. frame prim_partial. Qed.

Lemma same_partial_wait_for_message id :
  keeps same_partial (wait_for_message id).
Proof. frame prim_partial. Qed.

Lemma same_partial_stream_close s : keeps same_partial (stream_close s).
Proof. frame prim_partial. Qed.

(** On a blank payload [parse_json] leaves the buffer. *)
Lemma same_partial_parse_json_blank id :
  keeps same_partial (parse_json "" id).
Proof.
  intros w. unfold parse_json. mstep.
  destruct (negb (bool_decide (_current_iostream (self w) = Some id)));
    [reflexivity|].
  rewrite (bind_decode "" "" _ _ eq_refl).
  rewrite (bind_ok _ _ _ _ _ (set_stall_timeout_eq w)).
  rewrite strip_empty. rewrite bool_decide_eq_true_2 by reflexivity.
  etransitivity; [|apply same_partial_wait_for_message]. reflexivity.
Qed.

Lemma same_partial_call cb data :
  (forall id, cb <> cb_parse_json id) ->
  keeps same_partial (call cb data).
Proof.
  pose proof same_partial_schedule_restart.
  pose proof same_partial_close.
  intros Hcb. destruct cb; cbn [call];
    try (exfalso; eapply Hcb; reflexivity);
    frame ltac:(first [assumption | prim_partial]).
Qed.

Lemma same_partial_call_blank cb : keeps same_partial (call cb "").
Proof.
  destruct cb; try (apply same_partial_call; discriminate).
  apply same_partial_parse_json_blank.
Qed.

Lemma same_partial_step e :
  (forall s data, e <> ev_read s data) -> keeps same_partial (step e).
Proof.
  pose proof same_partial_schedule_restart.
  intros He. destruct e; cbn [step];
    try (exfalso; eapply He; reflexivity).
  - frame ltac:(first [assumption | prim_partial]).
  - frame prim_partial.
  - intros w. reflexivity.
  - intros w. unfold fire.
    destruct (List.find _ _) as [t|]; [|reflexivity].
    destruct (due _ t); [|reflexivity].
    apply (keeps_bind same_partial); [intros ?; reflexivity|].
    intros _. apply same_partial_call_blank.
  - intros w. unfold run_queued.
    destruct (callbacks (ioloop w)) as [|cb rest]; [reflexivity|].
    etransitivity; [|apply same_partial_call_blank]. reflexivity.
  - intros w. unfold connected.
    destruct (streams w !! s) as [st|]; [|reflexivity].
    destruct (closed st); [reflexivity|].
    destruct (waiting st) as [[]|]; try reflexivity.
    apply (keeps_bind same_partial); [frame prim_partial|].
    intros _ w1. unfold stream_call.
    pose proof (same_partial_call_blank cb w1) as Hc.
    destruct (call cb "" w1) as [a w'|e w']; cbn [world_of] in *; [exact Hc|].
    etransitivity; [exact Hc | apply same_partial_stream_close].
  - intros w. unfold peer_close.
    destruct (streams w !! s); [|reflexivity].
    apply same_partial_stream_close.
Qed.

(** C4, as the code has it.  The buffer is an attribute of the object and
    not of the attempt: no callable of the class but the payload callback
    assigns it, and nothing the loop or the user does to the object, other
    than the completion of a read, changes it.  Closing a stream and opening
    the next one leave the buffer as it is. *)
Theorem partial_tweet_outlives_the_stream :
  (forall cb data w,
     (forall id, cb <> cb_parse_json id) ->
     _partial_tweet (self (world_of (call cb data w)))
     = _partial_tweet (self w)) /\
  (forall e w,
     (forall s data, e <> ev_read s data) ->
     _partial_tweet (self (world_of (step e w))) = _partial_tweet (self w)).
Proof.
  split.
  - intros cb data w Hcb. apply (same_partial_call cb data Hcb w).
  - intros e w He. apply (same_partial_step e He w).
Qed.

End Partial.

(** ** Error responses *)

(** The exceptions a computation may raise. *)
Definition raises_only (S : exn -> Prop) {A} (m : M A) : Prop :=
  forall w, match m w with
            | Raise e _ => S e
            | Ok _ _ => True
            end.

Section Raises.

Context (S : exn -> Prop).

Lemma raises_ret {A} (a : A) : raises_only S (ret a).
Proof. intros w. exact I. Qed.

Lemma raises_raise {A} (e : exn) : S e -> raises_only S (@raise A e).
Proof. intros He w. exact He. Qed.

Lemma raises_bind {A B} (m : M A) (k : A -> M B) :
  raises_only S m -> (forall a, raises_only S (k a)) ->
  raises_only S (bind m k).
Proof.
  intros Hm Hk w. unfold bind. specialize (Hm w).
  destruct (m w) as [a w'|e w']; [apply Hk | exact Hm].
Qed.

Lemma raises_try_except {A} (body : M A) (handler : string -> M A) :
  raises_only S body -> (forall key, raises_only S (handler key)) ->
  raises_only S (try_except_KeyError body handler).
Proof.
  intros Hb Hh w. unfold try_except_KeyError. specialize (Hb w).
  destruct (body w) as [a w'|e w']; [exact I|].
  destruct e; try exact Hb. apply Hh.
Qed.

End Raises.

Ltac raises_step :=
  lazymatch goal with
  | |- raises_only _ (bind _ _) => apply raises_bind; [ | intros ? ]
  | |- raises_only _ (ret _) => apply raises_ret
  | |- raises_only _ (raise _) =>
      apply raises_raise; try (intros ?; discriminate)
  | |- raises_only _ (try_except_KeyError _ _) =>
      apply raises_try_except; [ | intros ? ]
  | |- raises_only _ (match ?x with _ => _ end) => destruct x
  | |- raises_only _ ?m =>
      first [ solve [intros ?; exact I]
            | solve [intros w; cbv beta; destruct (streams w !! _);
                     [exact I | intros ?; discriminate]]
            | let h := head_of m in progress unfold h ]
  | |- _ => solve [auto]
  end.

(** The errors handed to the error callback. *)
Definition error_of (o : output) : option exn :=
  match o with
  | Error _ error => Some error
  | _ => None
  end.

Definition errors (w : World) : list exn := omap error_of (trace w).

Definition same_errors (w w' : World) : Prop := errors w' = errors w.

#[global] Instance same_errors_preorder : PreOrder same_errors.
Proof.
  split; [intros w; reflexivity|].
  intros a b c Hab Hbc. unfold same_errors in *. congruence.
Qed.

Lemma same_errors_emit o : error_of o = None -> keeps same_errors (emit o).
Proof.
  intros Ho w. unfold same_errors, errors. cbn. rewrite omap_app. cbn.
  rewrite Ho. apply app_nil_r.
Qed.

Ltac prim_errors :=
  first [ apply same_errors_emit; reflexivity | intros ?; reflexivity ].

(** Exceptions other than the one [on_error] is given. *)
Definition not_reported (e : exn) : Prop := forall msg, e <> Exception msg.

Section Fatal.

Context `{Library}.

Lemma same_errors_established id : keeps same_errors (established id).
Proof. frame prim_errors. Qed.

Lemma same_errors_schedule_restart seconds :
  keeps same_errors (schedule_restart seconds).
Proof. frame prim_errors. Qed.

Lemma same_errors_rate_limited : keeps same_errors rate_limited.
Proof.
  pose proof same_errors_schedule_restart.
  frame ltac:(first [assumption | prim_errors]).
Qed.

Lemma same_errors_connect_failed code : keeps same_errors (connect_failed code).
Proof.
  pose proof same_errors_schedule_restart.
  frame ltac:(first [assumption | prim_errors]).
Qed.

Lemma raises_schedule_restart seconds :
  raises_only not_reported (schedule_restart seconds).
Proof. repeat raises_step. Qed.

Lemma raises_established id : raises_only not_reported (established id).
Proof. repeat raises_step. Qed.

Lemma raises_rate_limited : raises_only not_reported rate_limited.
Proof.
  pose proof raises_schedule_restart.
  unfold rate_limited. repeat (first [assumption | raises_step]).
Qed.

Lemma raises_connect_failed code :
  raises_only not_reported (connect_failed code).
Proof.
  pose proof raises_schedule_restart.
  unfold connect_failed. repeat (first [assumption | raises_step]).
Qed.

End Fatal.

Section Fatal_status.

Context `{Library}.

Lemma is_fatal_codes response_code :
  is_fatal response_code = true ->
  (response_code =? 200) = false /\ (response_code =? 420) = false.
Proof.
  intros Hf. split; apply Z.eqb_neq; intros ->; discriminate Hf.
Qed.

Lemma on_error_keeps error w :
  self (world_of (on_error error w)) = self w /\
  ioloop (world_of (on_error error w)) = ioloop w /\
  streams (world_of (on_error error w)) = streams w.
Proof.
  unfold on_error, bind, get.
  destruct (_error_callback (self w)); repeat split; reflexivity.
Qed.

Lemma stream_wait_eq s p w st :
  streams w !! s = Some st -> waiting st = None -> closed st = false ->
  stream_wait s p w =
  Ok tt (set_streams
           (<[s := {| ssl := ssl st; closed := closed st;
                      close_callback_of := close_callback_of st;
                      waiting := Some p; written := written st |}]>
              (streams w)) w).
Proof.
  intros Hst Hw Hc. unfold stream_wait, bind, stream_get.
  rewrite Hst, Hw, Hc. reflexivity.
Qed.

Lemma stream_unwait_eq s w st :
  streams w !! s = Some st ->
  stream_unwait s w =
  Ok tt (set_streams
           (<[s := {| ssl := ssl st; closed := closed st;
                      close_callback_of := close_callback_of st;
                      waiting := None; written := written st |}]>
              (streams w)) w).
Proof.
  intros Hst. unfold stream_unwait, bind, stream_get. rewrite Hst. reflexivity.
Qed.

(** C8 (amended).  Headers of the current attempt that are well-formed
    UTF-8 and whose status code is one of 401, 403, 404, 406 and 413 are
    never answered by a retry: the object and the loop stay as they are.
    With a Content-Length that [int] reads as a number other than zero the
    stream is asked for exactly that many bytes, and the read, once
    complete, hands [on_error] an [Exception] made of the status line, the
    response and the [repr] of the bytes of the body.  Without the header,
    or with a length that is empty or zero, nothing more is read and
    [on_error] is given the status line and the response at once.  A
    Content-Length that [int] does not read raises [ValueError] and
    [on_error] is not called.  Headers with any other status code add no
    error for the error callback and raise no [Exception]. *)
Theorem fatal_status_is_reported
  response text id s st status_line response_code w :
  _current_iostream (self w) = Some id ->
  _twitter_stream (self w) = Some s ->
  streams w !! s = Some st ->
  closed st = false ->
  waiting st = None ->
  PyStr.decode response = Some text ->
  status_of text = inr (status_line, response_code) ->
  let exception_string := exception_string_of status_line text in
  let awaiting (p : option pending) :=
    set_streams
      (<[s := {| ssl := ssl st; closed := false;
                 close_callback_of := Some cb_none; waiting := p;
                 written := written st |}]> (streams w)) w in
  (is_fatal response_code = true ->
   match content_length_of text with
   | Some content_length =>
       if content_length =? 0
       then on_headers response id w =
            on_error (Exception exception_string) (awaiting None)
       else
         let reading :=
           awaiting
             (Some (ReadBytes content_length
                      (cb_get_error_body exception_string))) in
         on_headers response id w = Ok tt reading /\
         forall content,
           read s content reading =
           if Z.of_nat (String.length content) =? content_length
           then stream_call s (cb_get_error_body exception_string) content
                  (awaiting None)
           else Ok tt reading
   | None => on_headers response id w = Raise ValueError (awaiting None)
   end /\
   (forall content,
      call (cb_get_error_body exception_string) content =
      on_error (Exception (exception_string +:+ NL
                           +:+ PyStr.bytes_repr content))) /\
   self (world_of (on_headers response id w)) = self w /\
   ioloop (world_of (on_headers response id w)) = ioloop w) /\
  (is_fatal response_code = false ->
   errors (world_of (on_headers response id w)) = errors w /\
   forall msg, raised (on_headers response id w) <> Some (Exception msg)).
Proof.
  intros Hc Hs Hst Hcl Hw Hdec Hstatus exception_string awaiting.
  pose proof (on_headers_eq response text id w s st Hc Hs Hst Hdec) as E.
  unfold headers_seen in E.
  rewrite Hstatus, Hcl, Hw in E.
  fold (awaiting None) in E.
  assert (Hlt : (s < length (streams w))%nat) by (eapply lookup_lt_Some, Hst).
  assert (Hseen : forall p,
            streams (awaiting p) !! s =
            Some {| ssl := ssl st; closed := false;
                    close_callback_of := Some cb_none; waiting := p;
                    written := written st |}).
  { intros p. apply list_lookup_insert_eq, Hlt. }
  split.
  - intros Hf. destruct (is_fatal_codes _ Hf) as [H200 H420].
    rewrite H200, H420, Hf in E. cbn [negb] in E.
    unfold could_not_connect in E. fold exception_string in E.
    assert (Hbody :
      match content_length_of text with
      | Some content_length =>
          if content_length =? 0
          then on_headers response id w =
               on_error (Exception exception_string) (awaiting None)
          else on_headers response id w =
               Ok tt (awaiting
                        (Some (ReadBytes content_length
                                 (cb_get_error_body exception_string))))
      | None => on_headers response id w = Raise ValueError (awaiting None)
      end).
    { destruct (content_length_of text) as [n|]; [|exact E].
      destruct (n =? 0); [exact E|]. rewrite E.
      rewrite (bind_ok _ _ _ _ _ (twitter_stream_eq (awaiting None) s Hs)).
      unfold stream_read_bytes.
      rewrite (stream_wait_eq s _ _ _ (Hseen None) eq_refl eq_refl).
      cbn [ssl closed close_callback_of waiting written].
      unfold awaiting, set_streams. cbn [self ioloop streams trace].
      rewrite list_insert_insert_eq. reflexivity. }
    split; [|split; [reflexivity|]].
    + destruct (content_length_of text) as [n|]; [|exact Hbody].
      destruct (n =? 0); [exact Hbody|]. cbv zeta. split; [exact Hbody|].
      intros content. unfold read. rewrite Hseen.
      cbn [closed waiting completes].
      destruct (Z.of_nat (String.length content) =? n); [|reflexivity].
      rewrite (bind_ok _ _ _ _ _ (stream_unwait_eq s _ _ (Hseen _))).
      cbn [ssl closed close_callback_of waiting written].
      unfold awaiting, set_streams. cbn [self ioloop streams trace].
      rewrite list_insert_insert_eq. reflexivity.
    + destruct (content_length_of text) as [n|].
      * destruct (n =? 0); rewrite Hbody.
        -- destruct (on_error_keeps (Exception exception_string)
                       (awaiting None)) as (H1 & H2 & _).
           rewrite H1, H2. split; reflexivity.
        -- split; reflexivity.
      * rewrite Hbody. split; reflexivity.
  - intros Hf. rewrite Hf in E. cbn [negb] in E. rewrite E.
    assert (He : errors (awaiting None) = errors w) by reflexivity.
    rewrite <- He. clear E.
    destruct (negb (response_code =? 200)).
    + destruct (response_code =? 420).
      * split; [apply same_errors_rate_limited|].
        intros msg Hr. pose proof (raises_rate_limited (awaiting None)) as R.
        destruct (rate_limited (awaiting None)) as [a w'|e w'];
          [discriminate Hr|]. injection Hr as ->. exact (R msg eq_refl).
      * split; [apply same_errors_connect_failed|].
        intros msg Hr.
        pose proof (raises_connect_failed response_code (awaiting None))
          as R.
        destruct (connect_failed response_code (awaiting None))
          as [a w'|e w']; [discriminate Hr|].
        injection Hr as ->. exact (R msg eq_refl).
    + split; [apply same_errors_established|].
      intros msg Hr. pose proof (raises_established id (awaiting None)) as R.
      destruct (established id (awaiting None)) as [a w'|e w'];
        [discriminate Hr|]. injection Hr as ->. exact (R msg eq_refl).
Qed.

End Fatal_status.

(** ** A close while streaming *)

(** What closing leaves as it is: the marks of the restart, the stream and
    the address of the object, the clock, and the streams there are; and
    the loop is given no timeout. *)
Definition settled (w w' : World) : Prop :=
  _stream_restart_scheduled (self w') = _stream_restart_scheduled (self w) /\
  _stream_restart_in_process (self w') = _stream_restart_in_process (self w) /\
  _stream_restart_time (self w') = _stream_restart_time (self w) /\
  _twitter_stream (self w') = _twitter_stream (self w) /\
  _current_iostream (self w') = _current_iostream (self w) /\
  _twitter_stream_host (self w') = _twitter_stream_host (self w) /\
  _twitter_stream_port (self w') = _twitter_stream_port (self w) /\
  _twitter_stream_scheme (self w') = _twitter_stream_scheme (self w) /\
  time (ioloop w') = time (ioloop w) /\
  next_timeout (ioloop w') = next_timeout (ioloop w) /\
  length (streams w') = length (streams w) /\
  incl (timeouts (ioloop w')) (timeouts (ioloop w)).

#[global] Instance settled_preorder : PreOrder settled.
Proof.
  split.
  - intros w. repeat split; try reflexivity. apply incl_refl.
  - intros a b c Hab Hbc. unfold settled in *.
    destruct Hab as (?&?&?&?&?&?&?&?&?&?&?&?).
    destruct Hbc as (?&?&?&?&?&?&?&?&?&?&?&?).
    repeat split; try congruence. eapply incl_tran; eassumption.
Qed.

Lemma settled_remove_timeout h : keeps settled (ioloop_remove_timeout h).
Proof.
  intros w. repeat split; try reflexivity. cbn.
  intros t Ht. apply List.filter_In in Ht. apply Ht.
Qed.

Lemma settled_stream_put n st : keeps settled (stream_put n st).
Proof.
  intros w. repeat split; try reflexivity; [|apply incl_refl].
  cbn. apply length_insert.
Qed.

Ltac prim_settled :=
  first [ apply settled_remove_timeout
        | apply settled_stream_put
        | intros ?; repeat split; solve [reflexivity | exact (incl_refl _)] ].

Lemma settled_fresh w w' :
  settled w w' -> fresh_handles (ioloop w) -> fresh_handles (ioloop w').
Proof.
  intros (_&_&_&_&_&_&_&_&_&Hn&_&Hi) Hf. unfold fresh_handles in *.
  rewrite Hn. rewrite List.Forall_forall in *. intros t Ht. apply Hf, Hi, Ht.
Qed.

Lemma settled_valid w w' : settled w w' -> valid w -> valid w'.
Proof.
  intros Hs [Hv Hf]. split; [|eapply settled_fresh; eassumption].
  destruct Hs as (_&_&_&Hts&_&_&_&_&_&_&Hl&_).
  intros s. rewrite Hts, Hl. apply Hv.
Qed.

Section Close_while_streaming.

Context `{Library}.

Lemma settled_close_helper : keeps settled close_helper.
Proof. frame prim_settled. Qed.

Lemma settled_close : keeps settled close.
Proof. frame prim_settled. Qed.

Lemma bind_stream_new {B} use_ssl (k : token -> M B) w :
  bind (stream_new use_ssl) k w =
  k (length (streams w))
    (set_streams
       (streams w ++ [{| ssl := use_ssl; closed := false;
                         close_callback_of := None; waiting := None;
                         written := [] |}]) w).
Proof. reflexivity. Qed.

(** With no restart scheduled or in process, [close_callback] closes and
    then opens. *)
Lemma close_callback_eq w s :
  valid w ->
  _twitter_stream (self w) = Some s ->
  _stream_restart_scheduled (self w) = false ->
  _stream_restart_in_process (self w) = false ->
  exists w2,
    settled w w2 /\
    close_callback w =
    open_twitter_stream
      (set_self (upd_stream_restart_scheduled true (self w2)) w2).
Proof.
  intros Hv Hs Hsch Hin. unfold close_callback. mstep.
  set (w1 := set_trace _ w).
  assert (S1 : settled w w1)
    by (subst w1; repeat split; solve [reflexivity | exact (incl_refl _)]).
  destruct (close_helper_returns w1 s Hs (proj1 Hv s Hs)) as [w2 E2].
  pose proof (settled_close_helper w1) as S2.
  rewrite E2 in S2. cbn [world_of] in S2.
  rewrite (bind_ok _ _ _ _ _ E2).
  assert (S02 : settled w w2) by (transitivity w1; assumption).
  exists w2. split; [exact S02|].
  destruct S02 as (Hsch2 & Hin2 & _).
  unfold schedule_restart, schedule_restart_from. do 2 mstep.
  rewrite Hsch2, Hin2, Hsch, Hin. cbn [negb andb]. mstep.
  reflexivity.
Qed.

(** [open_twitter_stream] less than 5 seconds after the last opening: it
    sets a timeout for itself. *)
Lemma open_twitter_stream_guarded w t0 :
  _stream_restart_time (self w) = Some t0 ->
  Qltb (time (ioloop w) - t0) 5 = true ->
  _stream_restart_in_process (self w) = false ->
  open_twitter_stream w =
  add_timeout 5 cb_open_twitter_stream
    (set_self (upd_stream_restart_scheduled true (self w))
       (set_trace (trace w ++ [Log info_open_twitter_stream]) w)).
Proof.
  intros Ht0 Hlt Hin.
  unfold open_twitter_stream, open_twitter_stream_from. do 4 mstep.
  cbn [_stream_restart_time upd_stream_restart_scheduled].
  rewrite Ht0, Hlt.
  unfold schedule_restart_from. do 2 mstep.
  cbn [_stream_restart_scheduled _stream_restart_in_process
         upd_stream_restart_scheduled].
  rewrite Hin. cbn [negb andb]. mstep.
  replace (Qeq_bool 5 0) with false by reflexivity.
  f_equal.
Qed.

(** [open_twitter_stream] otherwise, with an address that resolves: the
    stream of the object is closed, and a new one is made the current
    attempt and connects. *)
Lemma open_twitter_stream_opens w socket_address :
  valid w ->
  match _stream_restart_time (self w) with
  | Some t0 => Qltb (time (ioloop w) - t0) 5
  | None => false
  end = false ->
  getaddrinfo (_twitter_stream_host (self w)) (_twitter_stream_port (self w))
  = Some socket_address ->
  let n := length (streams w) in
  exists w',
    open_twitter_stream w = Ok tt w' /\
    _current_iostream (self w') = Some n /\
    _twitter_stream (self w') = Some n /\
    streams w' !! n
    = Some {| ssl := bool_decide (_twitter_stream_scheme (self w)
                                  = PyStr "https");
              closed := false;
              close_callback_of := Some cb_close_before_established_callback;
              waiting := Some (Connect socket_address (cb_on_connect n));
              written := [] |} /\
    _stream_restart_scheduled (self w') = false /\
    _stream_restart_in_process (self w') = true /\
    _stream_restart_time (self w') = Some (time (ioloop w)) /\
    time (ioloop w') = time (ioloop w) /\
    next_timeout (ioloop w') = next_timeout (ioloop w) /\
    incl (timeouts (ioloop w')) (timeouts (ioloop w)).
Proof.
  intros Hv Hge Haddr.
  unfold open_twitter_stream, open_twitter_stream_from. do 4 mstep.
  cbn [_stream_restart_time upd_stream_restart_scheduled].
  rewrite Hge. cbv zeta. do 3 mstep.
  cbn [_twitter_stream upd_stream_restart_in_process
         upd_stream_restart_time upd_stream_restart_scheduled].
  match goal with |- context [bind _ _ ?W] => set (w3 := W) end.
  assert (S03 : settled
                  (set_self (upd_stream_restart_in_process true
                               (upd_stream_restart_time
                                  (Some (time (ioloop w)))
                                  (upd_stream_restart_scheduled false
                                     (self w)))) w) w3)
    by (subst w3; repeat split; solve [reflexivity | exact (incl_refl _)]).
  assert (Hv3 : valid w3) by exact Hv.
  assert (exists w4, settled w3 w4 /\
            match _twitter_stream (self w) with
            | Some _ => close
            | None => ret tt
            end w3 = Ok tt w4) as (w4 & S4 & E4).
  { destruct (_twitter_stream (self w)).
    - destruct (close_returns w3 Hv3) as [w4 E4]. exists w4.
      split; [|exact E4]. pose proof (settled_close w3) as S4.
      rewrite E4 in S4. exact S4.
    - exists w3. split; reflexivity. }
  rewrite (bind_ok _ _ _ _ _ E4).
  assert (S04 := transitivity S03 S4). clear S03 S4.
  destruct S04 as (Hsch4&Hin4&Ht4&_&_&Hh4&Hp4&Hsc4&Htime4&Hn4&Hl4&Hi4).
  cbn [self set_self ioloop streams set_trace
         _stream_restart_scheduled _stream_restart_in_process
         _stream_restart_time _twitter_stream_host _twitter_stream_port
         _twitter_stream_scheme upd_stream_restart_in_process
         upd_stream_restart_time upd_stream_restart_scheduled] in *.
  do 2 mstep. rewrite Hh4, Hp4, Haddr. do 2 mstep.
  rewrite bind_stream_new. mstep. rewrite Hsc4, Hl4.
  set (n := length (streams w)).
  set (st := {| ssl := _; closed := false; close_callback_of := None;
                waiting := None; written := [] |}).
  match goal with |- context [bind _ _ ?W] => set (w5 := W) end.
  assert (H5 : streams w5 !! n = Some st).
  { subst w5 n. cbn [streams set_self set_trace set_streams].
    rewrite <- Hl4. apply list_lookup_middle. reflexivity. }
  rewrite (bind_ok _ _ _ _ _
             (stream_set_close_callback_eq n
                cb_close_before_established_callback w5 st H5)).
  mstep.
  match goal with |- context [stream_connect _ _ _ ?W] => set (w6 := W) end.
  assert (H6 : streams w6 !! n
               = Some {| ssl := ssl st; closed := closed st;
                         close_callback_of :=
                           Some cb_close_before_established_callback;
                         waiting := waiting st; written := written st |}).
  { subst w6. cbn [streams set_self set_streams].
    apply list_lookup_insert_eq. eapply lookup_lt_Some, H5. }
  unfold stream_connect.
  rewrite (stream_wait_eq n _ w6 _ H6 eq_refl eq_refl).
  eexists. split; [reflexivity|].
  cbn [self ioloop streams set_self set_streams set_trace set_ioloop].
  split; [reflexivity|]. split; [reflexivity|].
  split.
  { rewrite list_lookup_insert_eq; [reflexivity|].
    eapply lookup_lt_Some, H6. }
  subst w6 w5.
  cbn [self ioloop set_self set_streams set_trace
         _stream_restart_scheduled _stream_restart_in_process
         _stream_restart_time upd_current_iostream upd_twitter_stream].
  repeat split; assumption.
Qed.

(** What [close_callback] does with no restart scheduled or in process:
    it reopens, at once or in 5 seconds. *)
Lemma close_callback_reopens w s t0 :
  valid w ->
  _twitter_stream (self w) = Some s ->
  _stream_restart_scheduled (self w) = false ->
  _stream_restart_in_process (self w) = false ->
  _stream_restart_time (self w) = Some t0 ->
  delays (world_of (close_callback w)) = delays w /\
  (Qltb (time (ioloop w) - t0) 5 = true ->
   exists w',
     close_callback w = Ok tt w' /\
     restart_deadline w' = Some (time (ioloop w) + 5)%Q /\
     _current_iostream (self w') = _current_iostream (self w) /\
     length (streams w') = length (streams w)) /\
  (Qltb (time (ioloop w) - t0) 5 = false ->
   forall socket_address,
     getaddrinfo (_twitter_stream_host (self w)) (_twitter_stream_port (self w))
     = Some socket_address ->
     let n := length (streams w) in
     exists w',
       close_callback w = Ok tt w' /\
       _current_iostream (self w') = Some n /\
       _twitter_stream (self w') = Some n /\
       (waiting <$> streams w' !! n)
       = Some (Some (Connect socket_address (cb_on_connect n))) /\
       next_timeout (ioloop w') = next_timeout (ioloop w) /\
       incl (timeouts (ioloop w')) (timeouts (ioloop w))).
Proof.
  intros Hv Hs Hsch Hin Ht0.
  split.
  { destruct (quiet_close_callback w) as (_ & Hd & _). exact Hd. }
  destruct (close_callback_eq w s Hv Hs Hsch Hin) as (w2 & S02 & E).
  rewrite E. clear E.
  pose proof (settled_valid _ _ S02 Hv) as Hv2.
  destruct S02 as (Hsch2&Hin2&Ht2&Hts2&Hc2&Hh2&Hp2&Hsc2&Htime2&Hn2&Hl2&Hi2).
  set (w3 := set_self _ w2).
  split.
  - intros Hlt.
    rewrite (open_twitter_stream_guarded w3 t0);
      [ | subst w3; cbn; congruence
        | subst w3; cbn [ioloop set_self]; rewrite Htime2; exact Hlt
        | subst w3; cbn; congruence ].
    rewrite add_timeout_eq by reflexivity. eexists. split; [reflexivity|].
    split; [|split; [exact Hc2 | exact Hl2]].
    eapply restart_deadline_added.
    + reflexivity.
    + unfold new_timeout. subst w3.
      cbn [self set_self ioloop set_ioloop timeouts set_trace trace].
      rewrite Htime2. reflexivity.
    + apply without_restart_fresh. exact (proj2 Hv2).
  - intros Hge socket_address Haddr.
    destruct (open_twitter_stream_opens w3 socket_address)
      as (w' & E & Hcur & Hst & Hnew & _ & _ & _ & _ & Hn & Hi).
    + exact Hv2.
    + subst w3. cbn [self set_self ioloop _stream_restart_time
                       upd_stream_restart_scheduled].
      rewrite Ht2, Ht0, Htime2. exact Hge.
    + subst w3. cbn [self set_self _twitter_stream_host _twitter_stream_port
                       upd_stream_restart_scheduled].
      rewrite Hh2, Hp2. exact Haddr.
    + subst w3. cbn [self set_self ioloop streams] in *. rewrite Hl2 in *.
      exists w'. split; [exact E|]. split; [exact Hcur|].
      split; [exact Hst|]. split; [rewrite Hnew; reflexivity|].
      split; [congruence|]. eapply incl_tran; eassumption.
Qed.

(** C2 (amended).  When the stream is closed while the object is streaming,
    [close_callback] uses none of the three delays and leaves them as they
    are.  Less than 5 seconds after the stream was opened it sets a timeout
    for [open_twitter_stream] due in 5 seconds; otherwise, the address
    resolving, it reopens at once: when it returns, a new stream is the
    current attempt and is connecting, and the loop has been given no
    timeout. *)
Theorem close_while_streaming_reopens w s t0 :
  valid w ->
  _twitter_stream (self w) = Some s ->
  _stream_restart_scheduled (self w) = false ->
  _stream_restart_in_process (self w) = false ->
  _stream_restart_time (self w) = Some t0 ->
  delays (world_of (close_callback w)) = delays w /\
  (Qltb (time (ioloop w) - t0) 5 = true ->
   exists w',
     close_callback w = Ok tt w' /\
     restart_deadline w' = Some (time (ioloop w) + 5)%Q /\
     _current_iostream (self w') = _current_iostream (self w) /\
     length (streams w') = length (streams w)) /\
  (Qltb (time (ioloop w) - t0) 5 = false ->
   forall socket_address,
     getaddrinfo (_twitter_stream_host (self w)) (_twitter_stream_port (self w))
     = Some socket_address ->
     let n := length (streams w) in
     exists w',
       close_callback w = Ok tt w' /\
       _current_iostream (self w') = Some n /\
       _twitter_stream (self w') = Some n /\
       (waiting <$> streams w' !! n)
       = Some (Some (Connect socket_address (cb_on_connect n))) /\
       next_timeout (ioloop w') = next_timeout (ioloop w) /\
       incl (timeouts (ioloop w')) (timeouts (ioloop w))).
Proof. exact (close_callback_reopens w s t0). Qed.

End Close_while_streaming.

(** ** The stall timeout *)

Definition is_stall (t : Timeout) : bool :=
  match timeout_callback t with
  | cb_stall_callback => true
  | _ => false
  end.

(** The pending timeouts that run [stall_callback], and when they are due. *)
Definition stall_timeouts (w : World) : list Timeout :=
  List.filter is_stall (timeouts (ioloop w)).

Definition stall_deadlines (w : World) : list Q :=
  map deadline (stall_timeouts w).

(** The loop runs [stall_callback] for handle [h]: the timeout is pending,
    due, and a stall timeout. *)
Definition stall_fires (h : nat) (w : World) : bool :=
  match List.find (fun t => Nat.eqb (timeout_id t) h) (timeouts (ioloop w))
  with
  | Some t => due (ioloop w) t && is_stall t
  | None => false
  end.

(** At most one stall timeout is pending, and it is the one the object
    holds the handle of. *)
Definition armed_once (w : World) : Prop :=
  fresh_handles (ioloop w) /\
  (length (stall_timeouts w) <= 1)%nat /\
  Forall (fun t => _stall_timeout_handle (self w) = Some (timeout_id t))
    (stall_timeouts w).

Definition keeps_armed (w w' : World) : Prop := armed_once w -> armed_once w'.

#[global] Instance keeps_armed_preorder : PreOrder keeps_armed.
Proof.
  split; [intros w Hw; exact Hw|].
  intros a b c Hab Hbc Ha. exact (Hbc (Hab Ha)).
Qed.

Lemma filter_filter_comm {A} (f g : A -> bool) (l : list A) :
  List.filter f (List.filter g l) = List.filter g (List.filter f l).
Proof.
  induction l as [|x l IH]; [reflexivity|]. cbn.
  destruct (g x) eqn:Hg, (f x) eqn:Hf; cbn; rewrite ?Hg, ?Hf, IH; reflexivity.
Qed.

Lemma Forall_filter_weaken {A} (P : A -> Prop) (f : A -> bool) (l : list A) :
  Forall P l -> Forall P (List.filter f l).
Proof.
  rewrite !List.Forall_forall. intros Hl x Hx.
  apply List.filter_In in Hx. apply Hl, Hx.
Qed.

(** The stall timeouts are gone once the handle the object holds has been
    removed. *)
Lemma stall_removed (handle : option nat) (l : list Timeout) :
  Forall (fun t => handle = Some (timeout_id t)) (List.filter is_stall l) ->
  List.filter is_stall
    (match handle with
     | Some h => List.filter (other_than h) l
     | None => l
     end) = [].
Proof.
  intros Hf. destruct handle as [h|].
  - rewrite filter_filter_comm.
    induction (List.filter is_stall l) as [|t ts IH]; [reflexivity|].
    inversion Hf as [|? ? Ht Hts]; subst. injection Ht as ->.
    cbn. unfold other_than at 1. rewrite Nat.eqb_refl. cbn. apply IH, Hts.
  - destruct (List.filter is_stall l) as [|t ts]; [reflexivity|].
    inversion Hf as [|? ? Ht Hts]. discriminate Ht.
Qed.

Lemma keeps_armed_remove_timeout h : keeps keeps_armed (ioloop_remove_timeout h).
Proof.
  intros w (Hf & Hl & Hh). unfold armed_once, stall_timeouts, fresh_handles.
  cbn. rewrite filter_filter_comm. split; [|split].
  - apply Forall_filter_weaken, Hf.
  - etransitivity; [apply List.filter_length_le | exact Hl].
  - apply Forall_filter_weaken, Hh.
Qed.

Lemma keeps_armed_add_timeout seconds cb :
  match cb with cb_stall_callback => false | _ => true end = true ->
  keeps keeps_armed (ioloop_add_timeout seconds cb).
Proof.
  intros Hcb w (Hf & Hl & Hh). unfold armed_once, stall_timeouts, fresh_handles.
  cbn [ioloop_add_timeout world_of ioloop set_ioloop timeouts next_timeout self].
  rewrite List.filter_app.
  assert (Hn : List.filter is_stall
                 [{| timeout_id := next_timeout (ioloop w);
                     deadline := (time (ioloop w) + seconds)%Q;
                     timeout_callback := cb |}] = [])
    by (destruct cb; try reflexivity; discriminate Hcb).
  rewrite Hn, app_nil_r. split; [|split; assumption].
  apply Forall_app. split.
  - eapply List.Forall_impl; [|exact Hf]. cbn. intros t Ht. lia.
  - constructor; [cbn; lia | constructor].
Qed.

Lemma remove_stall_timeout_eq w :
  remove_stall_timeout w =
  Ok tt
    (match _stall_timeout_handle (self w) with
     | Some h =>
         set_self (upd_stall_timeout_handle None (self w))
           (set_ioloop
              (set_timeouts (List.filter (other_than h) (timeouts (ioloop w)))
                 (ioloop w)) w)
     | None => w
     end).
Proof.
  unfold remove_stall_timeout, bind, get.
  destruct (_stall_timeout_handle (self w)); reflexivity.
Qed.

Lemma keeps_armed_remove_stall_timeout : keeps keeps_armed remove_stall_timeout.
Proof.
  intros w (Hf & Hl & Hh). rewrite remove_stall_timeout_eq. cbn [world_of].
  pose proof (stall_removed _ _ Hh) as Hnone.
  destruct (_stall_timeout_handle (self w)) as [h|] eqn:Hhandle.
  2: { unfold armed_once. rewrite Hhandle. exact (conj Hf (conj Hl Hh)). }
  unfold armed_once, stall_timeouts, fresh_handles. cbn.
  rewrite Hnone. split; [|split].
  - apply Forall_filter_weaken, Hf.
  - cbn. lia.
  - constructor.
Qed.

(** What arming gives: the handle held before is removed, and the one
    stall timeout that is pending is due in 90 seconds. *)
Lemma set_stall_timeout_armed w :
  armed_once w ->
  exists w',
    set_stall_timeout w = Ok tt w' /\
    armed_once w' /\
    stall_timeouts w'
    = [{| timeout_id := next_timeout (ioloop w);
          deadline := (time (ioloop w) + 90)%Q;
          timeout_callback := cb_stall_callback |}] /\
    _stall_timeout_handle (self w') = Some (next_timeout (ioloop w)) /\
    time (ioloop w') = time (ioloop w) /\
    List.find (fun t => Nat.eqb (timeout_id t) (next_timeout (ioloop w)))
      (timeouts (ioloop w'))
    = Some {| timeout_id := next_timeout (ioloop w);
              deadline := (time (ioloop w) + 90)%Q;
              timeout_callback := cb_stall_callback |}.
Proof.
  intros (Hf & Hl & Hh). rewrite set_stall_timeout_eq.
  eexists. split; [reflexivity|].
  pose proof (stall_removed _ _ Hh) as Hnone.
  assert (Hfresh :
    Forall (fun t => (timeout_id t < next_timeout (ioloop w))%nat)
      match _stall_timeout_handle (self w) with
      | Some h => List.filter (other_than h) (timeouts (ioloop w))
      | None => timeouts (ioloop w)
      end).
  { destruct (_stall_timeout_handle (self w));
      [apply Forall_filter_weaken|]; exact Hf. }
  assert (Hst :
    stall_timeouts
      (set_self
         (upd_stall_timeout_handle (Some (next_timeout (ioloop w))) (self w))
         (set_ioloop
            {| time := time (ioloop w);
               timeouts :=
                 match _stall_timeout_handle (self w) with
                 | Some h => List.filter (other_than h) (timeouts (ioloop w))
                 | None => timeouts (ioloop w)
                 end ++
                 [{| timeout_id := next_timeout (ioloop w);
                     deadline := (time (ioloop w) + 90)%Q;
                     timeout_callback := cb_stall_callback |}];
               next_timeout := S (next_timeout (ioloop w));
               callbacks := callbacks (ioloop w) |} w))
    = [{| timeout_id := next_timeout (ioloop w);
          deadline := (time (ioloop w) + 90)%Q;
          timeout_callback := cb_stall_callback |}]).
  { unfold stall_timeouts. cbn [ioloop set_self set_ioloop timeouts].
    rewrite List.filter_app, Hnone. reflexivity. }
  split; [|split; [exact Hst|split; [reflexivity|split; [reflexivity|]]]].
  - unfold armed_once. rewrite Hst. split; [|split].
    + unfold fresh_handles. cbn [ioloop set_self set_ioloop timeouts next_timeout].
      apply Forall_app. split.
      * eapply List.Forall_impl; [|exact Hfresh]. cbn. intros t Ht. lia.
      * constructor; [cbn; lia | constructor].
    + cbn. lia.
    + constructor; [reflexivity | constructor].
  - cbn [ioloop set_self set_ioloop timeouts].
    apply find_app_fresh; [reflexivity | exact Hfresh].
Qed.

Lemma keeps_armed_set_stall_timeout : keeps keeps_armed set_stall_timeout.
Proof.
  intros w Hw. destruct (set_stall_timeout_armed w Hw) as (w' & E & Hw' & _).
  rewrite E. exact Hw'.
Qed.

Ltac prim_armed :=
  first [ apply keeps_armed_set_stall_timeout
        | apply keeps_armed_remove_stall_timeout
        | apply keeps_armed_remove_timeout
        | apply keeps_armed_add_timeout; reflexivity
        | intros ? ?; assumption ].

(** What leaves the loop as it is. *)
Definition same_loop (w w' : World) : Prop := ioloop w' = ioloop w.

#[global] Instance same_loop_preorder : PreOrder same_loop.
Proof.
  split; [intros w; reflexivity|].
  intros a b c Hab Hbc. unfold same_loop in *. congruence.
Qed.

Section Stall.

Context `{Library}.

Lemma keeps_armed_call cb data : keeps keeps_armed (call cb data).
Proof. destruct cb; cbn [call]; frame prim_armed. Qed.

Lemma keeps_armed_stream_close s : keeps keeps_armed (stream_close s).
Proof. frame prim_armed. Qed.

Lemma keeps_armed_step e : keeps keeps_armed (step e).
Proof.
  destruct e; cbn [step].
  - frame prim_armed.
  - frame prim_armed.
  - intros w Hw. exact Hw.
  - intros w. unfold fire.
    destruct (List.find _ _) as [t|]; [|reflexivity].
    destruct (due _ t); [|reflexivity].
    apply (keeps_bind keeps_armed); [apply keeps_armed_remove_timeout|].
    intros _. apply keeps_armed_call.
  - intros w. unfold run_queued.
    destruct (callbacks (ioloop w)) as [|cb rest]; [reflexivity|].
    etransitivity; [|apply keeps_armed_call]. intros Hw. exact Hw.
  - intros w. unfold connected.
    destruct (streams w !! s) as [st|]; [|reflexivity].
    destruct (closed st); [reflexivity|].
    destruct (waiting st) as [[]|]; try reflexivity.
    apply (keeps_bind keeps_armed); [frame prim_armed|].
    intros _ w1. unfold stream_call.
    pose proof (keeps_armed_call cb "" w1) as Hc.
    destruct (call cb "" w1) as [a w'|e w']; cbn [world_of] in *; [exact Hc|].
    etransitivity; [exact Hc | apply keeps_armed_stream_close].
  - intros w. unfold read.
    destruct (streams w !! s) as [st|]; [|reflexivity].
    destruct (closed st); [reflexivity|].
    destruct (waiting st) as [p|]; [|reflexivity].
    destruct (completes p data) as [cb|]; [|reflexivity].
    apply (keeps_bind keeps_armed); [frame prim_armed|].
    intros _ w1. unfold stream_call.
    pose proof (keeps_armed_call cb data w1) as Hc.
    destruct (call cb data w1) as [a w'|e w']; cbn [world_of] in *; [exact Hc|].
    etransitivity; [exact Hc | apply keeps_armed_stream_close].
  - intros w. unfold peer_close.
    destruct (streams w !! s); [|reflexivity].
    apply keeps_armed_stream_close.
Qed.

Lemma armed_once_run events w : armed_once w -> armed_once (run events w).
Proof.
  revert w. induction events as [|e events IH]; intros w Hw; [exact Hw|].
  cbn [run]. apply IH, keeps_armed_step, Hw.
Qed.

Lemma armed_once_init c clean t w0 :
  TweetStream_ c clean t = Ok tt w0 -> armed_once w0.
Proof.
  intros Hw. apply init_returns in Hw.
  destruct Hw as (_ & _ & Hl & _).
  unfold armed_once, stall_timeouts, fresh_handles. rewrite Hl. cbn.
  repeat split; try constructor. lia.
Qed.

(** The stalls the object has logged. *)
Definition is_stall_record (o : output) : bool :=
  match o with
  | Log error_stalled => true
  | _ => false
  end.

Definition stalls (w : World) : nat :=
  length (List.filter is_stall_record (trace w)).

Definition same_stalls (w w' : World) : Prop := stalls w' = stalls w.

#[local] Instance same_stalls_preorder : PreOrder same_stalls.
Proof.
  split; [intros w; reflexivity|].
  intros a b c Hab Hbc. unfold same_stalls in *. congruence.
Qed.

Lemma same_stalls_emit o :
  is_stall_record o = false -> keeps same_stalls (emit o).
Proof.
  intros Ho w. unfold same_stalls, stalls. cbn.
  rewrite List.filter_app. cbn. rewrite Ho, app_nil_r. reflexivity.
Qed.

Ltac prim_stalls :=
  first [ apply same_stalls_emit; reflexivity | intros ?; reflexivity ].

Lemma same_stalls_call cb data :
  is_stall {| timeout_id := 0; deadline := 0; timeout_callback := cb |} = false ->
  keeps same_stalls (call cb data).
Proof.
  intros Hcb. destruct cb; try discriminate Hcb; cbn [call];
    frame prim_stalls.
Qed.

Lemma stall_callback_stalls w :
  stalls (world_of (stall_callback w)) = S (stalls w).
Proof.
  unfold stall_callback. mstep.
  assert (Hk : keeps same_stalls (close ;; schedule_restart 0))
    by frame prim_stalls.
  rewrite (Hk _). unfold stalls. cbn. rewrite List.filter_app, length_app.
  cbn. lia.
Qed.

(** What the loop does with a handle: [stall_callback] runs exactly when
    [stall_fires]. *)
Lemma fire_stall h w :
  (stall_fires h w = true ->
   fire h w = (ioloop_remove_timeout h ;; stall_callback) w) /\
  stalls (world_of (fire h w))
  = if stall_fires h w then S (stalls w) else stalls w.
Proof.
  unfold fire, stall_fires.
  destruct (List.find _ _) as [t|]; [|split; [discriminate | reflexivity]].
  destruct (due (ioloop w) t); [|split; [discriminate | reflexivity]].
  cbn [andb]. unfold is_stall.
  destruct (timeout_callback t) eqn:Hcb;
    (split; [try discriminate | ]);
    try (rewrite (bind_ok _ _ _ _ _ (eq_refl : ioloop_remove_timeout h w = _));
         match goal with
         | |- stalls (world_of (call ?cb ?data ?W)) = _ =>
             exact (same_stalls_call cb data eq_refl W)
         end).
  - reflexivity.
  - rewrite (bind_ok _ _ _ _ _ (eq_refl : ioloop_remove_timeout h w = _)).
    cbn [call]. rewrite stall_callback_stalls. reflexivity.
Qed.

(** The stall timeout with handle [h], due at [d], is the one that is
    pending. *)
Definition armed_at (h : nat) (d : Q) (w : World) : Prop :=
  let t := {| timeout_id := h; deadline := d;
              timeout_callback := cb_stall_callback |} in
  stall_timeouts w = [t] /\
  List.find (fun t' => Nat.eqb (timeout_id t') h) (timeouts (ioloop w))
  = Some t.

Lemma armed_at_ext h d w w' :
  timeouts (ioloop w') = timeouts (ioloop w) -> armed_at h d w -> armed_at h d w'.
Proof.
  intros Ht [Hs Hf]. unfold armed_at, stall_timeouts in *.
  rewrite Ht. split; assumption.
Qed.

(** While it is pending, the loop runs [stall_callback] exactly for its
    handle, once its deadline has come. *)
Lemma armed_at_fires h d w :
  armed_at h d w ->
  stall_deadlines w = [d] /\
  forall h', stall_fires h' w = true <->
             h' = h /\ (d <= time (ioloop w))%Q.
Proof.
  intros [Hs Hf]. split; [unfold stall_deadlines; rewrite Hs; reflexivity|].
  intros h'. unfold stall_fires. split.
  - intros Hfire.
    destruct (List.find (fun t => Nat.eqb (timeout_id t) h')
                (timeouts (ioloop w))) as [t'|] eqn:Hf';
      [|discriminate Hfire].
    apply andb_true_iff in Hfire. destruct Hfire as [Hdue Hstall].
    apply List.find_some in Hf'. destruct Hf' as [Hin Hid].
    assert (Hin' : In t' (stall_timeouts w)).
    { unfold stall_timeouts. apply List.filter_In. split; assumption. }
    rewrite Hs in Hin'. destruct Hin' as [<-|[]].
    cbn in Hid. apply Nat.eqb_eq in Hid. split; [symmetry; exact Hid|].
    unfold due in Hdue. cbn in Hdue. apply Qle_bool_iff in Hdue. exact Hdue.
  - intros [-> Hle]. rewrite Hf. apply andb_true_iff. split; [|reflexivity].
    unfold due. cbn. apply Qle_bool_iff. exact Hle.
Qed.

(** What leaves the pending timeouts as they are. *)
Definition same_timeouts (w w' : World) : Prop :=
  timeouts (ioloop w') = timeouts (ioloop w).

#[local] Instance same_timeouts_preorder : PreOrder same_timeouts.
Proof.
  split; [intros w; reflexivity|].
  intros a b c Hab Hbc. unfold same_timeouts in *. congruence.
Qed.

Lemma same_timeouts_on_result response id :
  keeps same_timeouts (on_result response id).
Proof. frame ltac:(intros ?; reflexivity). Qed.

Lemma same_timeouts_stream_close s : keeps same_timeouts (stream_close s).
Proof. frame ltac:(intros ?; reflexivity). Qed.

Lemma same_timeouts_stream_unwait s : keeps same_timeouts (stream_unwait s).
Proof. frame ltac:(intros ?; reflexivity). Qed.

(** The events between two payloads: time passes, and the stream
    completes a read for the callback of the frame lines, as it does for
    the line with the length of a frame, for the line break that ends a
    payload, and for a keep-alive line. *)
Definition idle (e : event) (w : World) : Prop :=
  match e with
  | ev_sleep _ => True
  | ev_read s data =>
      forall st p cb,
        streams w !! s = Some st -> waiting st = Some p ->
        completes p data = Some cb -> exists id, cb = cb_on_result id
  | _ => False
  end.

Fixpoint idle_run (events : list event) (w : World) : Prop :=
  match events with
  | [] => True
  | e :: rest => idle e w /\ idle_run rest (world_of (step e w))
  end.

Lemma same_timeouts_idle e w : idle e w -> same_timeouts w (world_of (step e w)).
Proof.
  destruct e; cbn [idle step]; try contradiction; intros Hidle.
  - reflexivity.
  - unfold read.
    destruct (streams w !! s) as [st|] eqn:Hst; [|reflexivity].
    destruct (closed st); [reflexivity|].
    destruct (waiting st) as [p|] eqn:Hw; [|reflexivity].
    destruct (completes p data) as [cb|] eqn:Hcb; [|reflexivity].
    destruct (Hidle st p cb eq_refl Hw Hcb) as [id ->].
    apply (keeps_bind same_timeouts); [apply same_timeouts_stream_unwait|].
    intros _ w1. unfold stream_call. cbn [call].
    pose proof (same_timeouts_on_result data id w1) as Hc.
    destruct (on_result data id w1) as [a w'|e w']; cbn [world_of] in *;
      [exact Hc|].
    etransitivity; [exact Hc | apply same_timeouts_stream_close].
Qed.

Lemma armed_at_idle_run h d events w :
  armed_at h d w -> idle_run events w -> armed_at h d (run events w).
Proof.
  revert w. induction events as [|e events IH]; intros w Ha Hidle; [exact Ha|].
  destruct Hidle as [He Hrest]. cbn [run]. apply IH; [|exact Hrest].
  apply (armed_at_ext h d w); [|exact Ha]. apply same_timeouts_idle, He.
Qed.

(** A payload of the current attempt that is well-formed UTF-8 arms
    again. *)
Lemma parse_json_armed response text id w :
  armed_once w ->
  _current_iostream (self w) = Some id ->
  PyStr.decode response = Some text ->
  armed_at (next_timeout (ioloop w)) (time (ioloop w) + 90)
    (world_of (parse_json response id w)).
Proof.
  intros Hw Hid Hd. unfold parse_json. mstep. rewrite Hid.
  rewrite bool_decide_eq_true_2 by reflexivity. cbn [negb].
  unfold bind at 1, decode. rewrite Hd. cbn [ret].
  destruct (set_stall_timeout_armed w Hw)
    as (w' & E & _ & Hst & _ & _ & Hfind).
  rewrite (bind_ok _ _ _ _ _ E).
  match goal with
  | |- armed_at _ _ (world_of (?m w')) =>
      assert (Hk : keeps same_loop m) by frame ltac:(intros ?; reflexivity);
      specialize (Hk w')
  end.
  apply (armed_at_ext _ _ w'); [rewrite Hk; reflexivity|].
  split; assumption.
Qed.

(** C6 (amended).  In every world the object reaches at most one stall
    timeout is pending.  [set_stall_timeout] returns with the one stall
    timeout that is then pending due 90 seconds from now, and so does
    [parse_json] on a payload of the current attempt that is well-formed
    UTF-8, called by itself or by the stream that has read the payload; a
    payload that is not well-formed raises [UnicodeDecodeError] before the
    timeout is set, and the timeouts stay as they are.  While time passes
    and the stream completes reads for the callback of the frame lines,
    the timeouts stay as they are: the stall timeout stays pending, and
    the loop runs [stall_callback] for a handle exactly when the handle is
    that of the stall timeout and its deadline has come.  The loop running
    a handle logs a stall exactly when [stall_callback] is what it runs. *)
Theorem stall_timeout_is_rearmed c clean t w0 events :
  TweetStream_ c clean t = Ok tt w0 ->
  let w := run events w0 in
  let h := next_timeout (ioloop w) in
  let d := (time (ioloop w) + 90)%Q in
  (length (stall_deadlines w) <= 1)%nat /\
  (exists w', set_stall_timeout w = Ok tt w' /\ armed_at h d w') /\
  (forall response id,
     _current_iostream (self w) = Some id ->
     match PyStr.decode response with
     | Some _ => armed_at h d (world_of (parse_json response id w))
     | None => parse_json response id w = Raise UnicodeDecodeError w
     end) /\
  (forall s st id payload,
     _current_iostream (self w) = Some id ->
     streams w !! s = Some st -> closed st = false ->
     waiting st
     = Some (ReadBytes (Z.of_nat (String.length payload)) (cb_parse_json id)) ->
     let w' := world_of (step (ev_read s payload) w) in
     match PyStr.decode payload with
     | Some _ => armed_at h d w'
     | None =>
         raised (step (ev_read s payload) w) = Some UnicodeDecodeError /\
         timeouts (ioloop w') = timeouts (ioloop w)
     end) /\
  (forall h' d' w' later,
     armed_at h' d' w' -> idle_run later w' ->
     timeouts (ioloop (run later w')) = timeouts (ioloop w') /\
     stall_deadlines (run later w') = [d'] /\
     forall h'', stall_fires h'' (run later w') = true <->
                 h'' = h' /\ (d' <= time (ioloop (run later w')))%Q) /\
  (forall h' w',
     (stall_fires h' w' = true ->
      fire h' w' = (ioloop_remove_timeout h' ;; stall_callback) w') /\
     stalls (world_of (fire h' w'))
     = if stall_fires h' w' then S (stalls w') else stalls w').
Proof.
  intros Hinit w h d.
  assert (Hw : armed_once w)
    by (apply armed_once_run, (armed_once_init _ _ _ _ Hinit)).
  split; [|split; [|split; [|split; [|split]]]].
  - unfold stall_deadlines. rewrite length_map. apply Hw.
  - destruct (set_stall_timeout_armed w Hw)
      as (w' & E & _ & Hst & _ & _ & Hfind).
    exists w'. split; [exact E|]. split; assumption.
  - intros response id Hid.
    destruct (PyStr.decode response) as [text|] eqn:Hd.
    + apply (parse_json_armed response text); assumption.
    + unfold parse_json. mstep. rewrite Hid.
      rewrite bool_decide_eq_true_2 by reflexivity. cbn [negb].
      unfold bind, decode. rewrite Hd. reflexivity.
  - intros s st id payload Hid Hst Hopen Hwait. cbn [step]. unfold read.
    rewrite Hst, Hopen, Hwait. cbn [completes]. rewrite Z.eqb_refl.
    rewrite (bind_ok _ _ _ _ _ (stream_unwait_eq s w st Hst)).
    set (wu := set_streams _ w).
    assert (Hwu : armed_once wu) by exact Hw.
    unfold stream_call. cbn [call].
    destruct (PyStr.decode payload) as [text|] eqn:Hd.
    + pose proof (parse_json_armed payload text id wu Hwu Hid Hd) as Ha.
      destruct (parse_json payload id wu) as [a w'|e w'];
        cbn [world_of] in *; [exact Ha|].
      apply (armed_at_ext _ _ w'); [apply same_timeouts_stream_close|].
      exact Ha.
    + rewrite (parse_json_undecodable payload id wu Hid Hd).
      split; [reflexivity|]. apply (same_timeouts_stream_close s wu).
  - intros h' d' w' later Ha Hidle.
    pose proof (armed_at_idle_run h' d' later w' Ha Hidle) as Ha'.
    split; [|apply armed_at_fires, Ha'].
    clear Ha Ha'. revert w' Hidle.
    induction later as [|e later IH]; intros w' Hidle; [reflexivity|].
    destruct Hidle as [He Hrest]. cbn [run].
    rewrite (IH _ Hrest). apply same_timeouts_idle, He.
  - intros h' w'. apply fire_stall.
Qed.

End Stall.

(** ** A frame line that is no length *)

Section Frame_length.

Context `{Library}.

(** The object is streaming on stream [s], opened at [t0]: the stream is
    the current attempt, it is open and waits for a frame line for
    [on_result], its close callback is [close_callback], no restart is
    scheduled or in process, and the loop has no callback queued. *)
Definition streaming_on (s : token) (t0 : Q) (w : World) : Prop :=
  valid w /\
  _current_iostream (self w) = Some s /\
  _twitter_stream (self w) = Some s /\
  (exists st,
     streams w !! s = Some st /\ closed st = false /\
     waiting st = Some (ReadUntil PyStr.CRLF (cb_on_result s)) /\
     close_callback_of st = Some cb_close_callback) /\
  callbacks (ioloop w) = [] /\
  _stream_restart_scheduled (self w) = false /\
  _stream_restart_in_process (self w) = false /\
  _stream_restart_time (self w) = Some t0.

Lemma on_result_raises line text id w :
  _current_iostream (self w) = Some id ->
  PyStr.decode line = Some text ->
  str_strip text <> "" ->
  int_of 16 (str_strip text) = None ->
  on_result line id w = Raise ValueError w.
Proof.
  intros Hid Hd Hblank Hint. unfold on_result. mstep. rewrite Hid.
  rewrite bool_decide_eq_true_2 by reflexivity. cbn [negb].
  rewrite (bind_decode _ _ _ _ Hd).
  rewrite bool_decide_eq_false_2 by exact Hblank.
  rewrite Hint. reflexivity.
Qed.

Lemma on_result_undecodable line id w :
  _current_iostream (self w) = Some id ->
  PyStr.decode line = None ->
  on_result line id w = Raise UnicodeDecodeError w.
Proof.
  intros Hid Hd. unfold on_result. mstep. rewrite Hid.
  rewrite bool_decide_eq_true_2 by reflexivity. cbn [negb].
  unfold bind, decode. rewrite Hd. reflexivity.
Qed.

Lemma logged_close_callback w :
  logged error_close_callback w (world_of (close_callback w)).
Proof.
  unfold close_callback. mstep. apply logged_intro.
  match goal with
  | |- hushed ?W (world_of (?m ?W)) =>
      assert (Hk : keeps hushed m)
        by (pose proof hushed_schedule_restart;
            frame ltac:(first [assumption | prim_hushed]));
      exact (Hk W)
  end.
Qed.

(** The world after a callback of stream [s] has raised while the stream
    completed a read: the stream is closed and its close callback is
    queued on the loop. *)
Lemma read_raises s st cb cb' data e w :
  streams w !! s = Some st -> closed st = false ->
  waiting st = Some (ReadUntil PyStr.CRLF cb) ->
  completes (ReadUntil PyStr.CRLF cb) data = Some cb ->
  close_callback_of st = Some cb' ->
  (forall w', self w' = self w -> call cb data w' = Raise e w') ->
  exists w1,
    read s data w = Raise e w1 /\
    self w1 = self w /\ trace w1 = trace w /\
    length (streams w1) = length (streams w) /\
    (closed <$> streams w1 !! s) = Some true /\
    ioloop w1 = {| time := time (ioloop w);
                   timeouts := timeouts (ioloop w);
                   next_timeout := next_timeout (ioloop w);
                   callbacks := callbacks (ioloop w) ++ [cb'] |}.
Proof.
  intros Hst Hopen Hwait Hdone Hcb Hraise. unfold read.
  rewrite Hst, Hopen, Hwait, Hdone.
  rewrite (bind_ok _ _ _ _ _ (stream_unwait_eq s w st Hst)).
  unfold stream_call. rewrite Hraise by reflexivity.
  unfold stream_close, bind, stream_get, stream_put, ioloop_add_callback.
  cbn [streams set_streams].
  rewrite list_lookup_insert_eq by (eapply lookup_lt_Some, Hst).
  cbn [closed close_callback_of]. rewrite Hopen, Hcb.
  eexists. split; [reflexivity|]. cbn.
  repeat split.
  - rewrite !length_insert. reflexivity.
  - rewrite list_lookup_insert_eq; [reflexivity|].
    rewrite length_insert. eapply lookup_lt_Some, Hst.
Qed.

(** C3 (amended).  While the object is streaming, a frame line of the
    current attempt that is well-formed UTF-8, is not blank and is no
    base-16 integer makes [on_result] raise [ValueError], and one that is
    not well-formed UTF-8 makes it raise [UnicodeDecodeError]; the class
    catches neither and has logged and scheduled nothing when the
    exception leaves it.  The exception reaches the loop through the
    stream, which closes itself and queues [close_callback]: the object,
    the trace and the timeouts are as before.  When the loop then runs the
    callback, [close_callback] logs its own record and no failure of a
    tier, leaves the three delays as they are, and reopens as after any
    close while streaming: less than 5 seconds after the stream was opened
    it sets a timeout for [open_twitter_stream] due in 5 seconds;
    otherwise, the address resolving, a new stream is the current attempt
    and is connecting, and the loop has been given no timeout. *)
Theorem unparsable_frame_length_closes_the_stream s t0 line text w :
  streaming_on s t0 w ->
  completes (ReadUntil PyStr.CRLF (cb_on_result s)) line
  = Some (cb_on_result s) ->
  PyStr.decode line = Some text ->
  str_strip text <> "" ->
  int_of 16 (str_strip text) = None ->
  on_result line s w = Raise ValueError w /\
  (forall line', PyStr.decode line' = None ->
                 on_result line' s w = Raise UnicodeDecodeError w) /\
  exists w1,
    step (ev_read s line) w = Raise ValueError w1 /\
    self w1 = self w /\ trace w1 = trace w /\
    timeouts (ioloop w1) = timeouts (ioloop w) /\
    (closed <$> streams w1 !! s) = Some true /\
    callbacks (ioloop w1) = [cb_close_callback] /\
    let w2 := world_of (step ev_callback w1) in
    logged error_close_callback w w2 /\
    delays w2 = delays w /\
    (forall t, consecutive_failures t (trace w2)
               = consecutive_failures t (trace w)) /\
    (Qltb (time (ioloop w) - t0) 5 = true ->
     restart_deadline w2 = Some (time (ioloop w) + 5)%Q /\
     _current_iostream (self w2) = Some s /\
     length (streams w2) = length (streams w)) /\
    (Qltb (time (ioloop w) - t0) 5 = false ->
     forall socket_address,
       getaddrinfo (_twitter_stream_host (self w))
         (_twitter_stream_port (self w)) = Some socket_address ->
       let n := length (streams w) in
       _current_iostream (self w2) = Some n /\
       _twitter_stream (self w2) = Some n /\
       (waiting <$> streams w2 !! n)
       = Some (Some (Connect socket_address (cb_on_connect n))) /\
       next_timeout (ioloop w2) = next_timeout (ioloop w) /\
       incl (timeouts (ioloop w2)) (timeouts (ioloop w))).
Proof.
  intros (Hv & Hcur & Hs & (st & Hst & Hopen & Hwait & Hcb) & Hq & Hsch & Hin
          & Ht0) Hdone Hd Hblank Hint.
  split; [exact (on_result_raises line text s w Hcur Hd Hblank Hint)|].
  split; [intros line' Hd'; exact (on_result_undecodable line' s w Hcur Hd')|].
  destruct (read_raises s st (cb_on_result s) cb_close_callback line
              ValueError w Hst Hopen Hwait Hdone Hcb)
    as (w1 & E1 & Hself & Htr & Hlen & Hclosed & Hloop).
  { intros w' Hw'. cbn [call].
    apply (on_result_raises line text); try assumption.
    rewrite Hw'. exact Hcur. }
  exists w1. split; [exact E1|]. split; [exact Hself|]. split; [exact Htr|].
  split; [rewrite Hloop; reflexivity|]. split; [exact Hclosed|].
  split; [rewrite Hloop, Hq; reflexivity|].
  cbn [step]. unfold run_queued. rewrite Hloop, Hq. cbn [callbacks app call].
  match goal with |- context [close_callback ?W] => set (w1' := W) end.
  assert (Hself' : self w1' = self w) by (subst w1'; exact Hself).
  assert (Htr' : trace w1' = trace w) by (subst w1'; exact Htr).
  assert (Hlen' : length (streams w1') = length (streams w))
    by (subst w1'; exact Hlen).
  assert (Htime' : time (ioloop w1') = time (ioloop w)) by reflexivity.
  assert (Hnext' : next_timeout (ioloop w1') = next_timeout (ioloop w))
    by reflexivity.
  assert (Hto' : timeouts (ioloop w1') = timeouts (ioloop w)) by reflexivity.
  assert (Hv' : valid w1').
  { destruct Hv as [Hex Hf]. split.
    - intros s'. rewrite Hself', Hlen'. apply Hex.
    - unfold fresh_handles. rewrite Hto', Hnext'. exact Hf. }
  clearbody w1'. cbv zeta.
  pose proof (logged_close_callback w1') as Hlog.
  destruct (close_callback_reopens w1' s t0 Hv')
    as (Hdel & Hsoon & Hlate); try (rewrite Hself'; assumption).
  split; [unfold logged in *; rewrite <- Htr'; exact Hlog|].
  split; [rewrite Hdel; unfold delays; rewrite Hself'; reflexivity|].
  split.
  { intros t. destruct Hlog as (l & Ht & Hl). unfold consecutive_failures.
    rewrite Ht, Htr', fold_left_app. cbn [fold_left].
    rewrite count_quiet by exact Hl. destruct t; reflexivity. }
  rewrite Htime', Hself', Hlen', Hnext', Hto' in *.
  split.
  - intros Hlt. destruct (Hsoon Hlt) as (w' & E & Hdl & Hc & Hl).
    rewrite E. cbn [world_of]. rewrite Hcur in Hc. repeat split; assumption.
  - intros Hge socket_address Haddr.
    destruct (Hlate Hge socket_address Haddr)
      as (w' & E & Hc & Hts & Hw & Hn & Hi).
    rewrite E. cbn [world_of]. repeat split; assumption.
Qed.

End Frame_length.

(** ** Examples *)

Section Examples.

#[local] Existing Instance Sample.library.

Definition response_200 : string :=
  "HTTP/1.1 200 OK" +:+ PyStr.CRLF +:+ "Transfer-Encoding: chunked"
  +:+ PyStr.CRLF +:+ PyStr.CRLF.

Definition connect : list event :=
  [ev_fetch "/1.1/statuses/filter.json?track=ferguson" "GET" (Some 7%nat)
     None;
   ev_connected 0%nat].

(** The first attempt has been answered with status 200: the object is
    streaming on stream 0, at time 0. *)
Definition streaming : World :=
  run (connect ++ [ev_read 0%nat response_200]) sample_world.

Lemma stale_callback_witness :
  token_of (cb_on_result 3%nat) = Some 3%nat /\
  _current_iostream (self streaming) <> Some 3%nat /\
  call (cb_on_result 3%nat) ("1f" +:+ PyStr.CRLF) streaming = Ok tt streaming.
Proof.
  assert (H1 : token_of (cb_on_result 3%nat) = Some 3%nat) by reflexivity.
  assert (H2 : _current_iostream (self streaming) <> Some 3%nat)
    by (vm_compute; discriminate).
  split; [exact H1|]. split; [exact H2|].
  exact (proj1 (stale_callback_is_ignored (cb_on_result 3%nat) 3%nat
                  ("1f" +:+ PyStr.CRLF) streaming H1 H2)).
Defined.

(** Stream 0 has been closed by its peer after 100 seconds and the object
    has reopened: it is streaming on stream 1. *)
Definition streaming_again : World :=
  run [ev_sleep 100; ev_close 0%nat; ev_callback; ev_connected 1%nat;
       ev_read 1%nat response_200; ev_sleep 100] streaming.

(** C5, as stated, fails: the stall callback carries no token and is not
    checked against the current attempt.  Run when attempt 1 is streaming,
    whichever attempt had set its timeout, it closes stream 1 and opens
    stream 2. *)
Lemma stall_callback_is_not_tagged :
  token_of cb_stall_callback = None /\
  _current_iostream (self streaming_again) = Some 1%nat /\
  (closed <$> streams streaming_again !! 1%nat) = Some false /\
  let w := world_of (call cb_stall_callback "" streaming_again) in
  (closed <$> streams w !! 1%nat) = Some true /\
  _current_iostream (self w) = Some 2%nat.
Proof. vm_compute. repeat split. Qed.

Definition not_a_length : string := "zz" +:+ PyStr.CRLF.

(** The object has been streaming for a minute. *)
Definition streaming_for_a_minute : World := run [ev_sleep 60] streaming.

Lemma unparsable_frame_length_witness :
  let w := streaming_for_a_minute in
  streaming_on 0%nat 0%Q w /\
  completes (ReadUntil PyStr.CRLF (cb_on_result 0%nat)) not_a_length
  = Some (cb_on_result 0%nat) /\
  PyStr.decode not_a_length = Some not_a_length /\
  str_strip not_a_length <> "" /\
  int_of 16 (str_strip not_a_length) = None /\
  on_result not_a_length 0%nat w = Raise ValueError w.
Proof.
  cbv zeta.
  assert (H1 : streaming_on 0%nat 0%Q streaming_for_a_minute).
  { split.
    { split.
      - intros s Hs. vm_compute in Hs. injection Hs as <-. vm_compute. lia.
      - unfold fresh_handles. vm_compute. repeat constructor. }
    split; [vm_compute; reflexivity|]. split; [vm_compute; reflexivity|].
    split.
    { destruct (streams streaming_for_a_minute !! 0%nat) as [st|] eqn:Hst;
        [|vm_compute in Hst; discriminate Hst].
      exists st. split; [reflexivity|].
      vm_compute in Hst. injection Hst as <-.
      split; [reflexivity|]. split; reflexivity. }
    split; [vm_compute; reflexivity|]. split; [vm_compute; reflexivity|].
    split; vm_compute; reflexivity. }
  assert (H2 : completes (ReadUntil PyStr.CRLF (cb_on_result 0%nat))
                 not_a_length = Some (cb_on_result 0%nat))
    by (vm_compute; reflexivity).
  assert (H3 : PyStr.decode not_a_length = Some not_a_length)
    by (vm_compute; reflexivity).
  assert (H4 : str_strip not_a_length <> "") by (vm_compute; discriminate).
  assert (H5 : int_of 16 (str_strip not_a_length) = None)
    by (vm_compute; reflexivity).
  split; [exact H1|]. split; [exact H2|]. split; [exact H3|].
  split; [exact H4|]. split; [exact H5|].
  exact (proj1 (unparsable_frame_length_closes_the_stream 0%nat 0%Q
                  not_a_length not_a_length streaming_for_a_minute
                  H1 H2 H3 H4 H5)).
Defined.

(** C3, as stated, fails: on the line [zz], a minute after the stream was
    opened, [ValueError] leaves the object and the loop gets it from the
    stream, with no log record added and no timeout set; the stream is
    closed.  Its close callback then reopens at once: stream 1 is
    connecting, no timeout is pending, and the error delay is still 5
    seconds, with no failure of its tier in the log. *)
Lemma unparsable_frame_length_escapes :
  let w := streaming_for_a_minute in
  let w1 := world_of (step (ev_read 0%nat not_a_length) w) in
  let w2 := world_of (step ev_callback w1) in
  raised (on_result not_a_length 0%nat w) = Some ValueError /\
  raised (step (ev_read 0%nat not_a_length) w) = Some ValueError /\
  trace w1 = trace w /\
  timeouts (ioloop w1) = timeouts (ioloop w) /\
  (closed <$> streams w1 !! 0%nat) = Some true /\
  callbacks (ioloop w1) = [cb_close_callback] /\
  time (ioloop w2) = 60%Q /\
  timeouts (ioloop w2) = [] /\
  _current_iostream (self w2) = Some 1%nat /\
  (exists socket_address,
     (waiting <$> streams w2 !! 1%nat)
     = Some (Some (Connect socket_address (cb_on_connect 1%nat)))) /\
  _retry_delay (self w2) = 5 /\
  consecutive_failures error_tier (trace w2) = 0%nat.
Proof.
  vm_compute. repeat split. eexists. reflexivity.
Qed.

(** A frame as the stream delivers it: the line with the length, the
    payload, and the line break that ends it. *)
Definition frame (s : token) (length payload : string) : list event :=
  [ev_read s (length +:+ PyStr.CRLF); ev_read s payload; ev_read s PyStr.CRLF].

Lemma split_document_witness :
  let first := "[1," in
  let rest := "2]" in
  let w' := world_of (parse_json first 0%nat streaming) in
  _current_iostream (self streaming) = Some 0%nat /\
  _partial_tweet (self streaming) = "" /\
  PyStr.decode first = Some first /\ PyStr.decode rest = Some rest /\
  str_strip first <> "" /\ str_strip rest <> "" /\
  json_loads first = None /\ json_loads rest = None /\
  json_loads (first +:+ rest) = Some (JList [JInt 1; JInt 2]) /\
  _clean_message (self streaming) = false /\
  _callback (self streaming) = Some 7%nat /\
  messages (world_of (parse_json first 0%nat streaming)) = messages streaming /\
  messages (world_of (parse_json rest 0%nat w'))
  = messages w' ++ [JList [JInt 1; JInt 2]].
Proof.
  cbv zeta.
  assert (H1 : _current_iostream (self streaming) = Some 0%nat)
    by (vm_compute; reflexivity).
  assert (H2 : _partial_tweet (self streaming) = "")
    by (vm_compute; reflexivity).
  assert (H3 : PyStr.decode "[1," = Some "[1,") by (vm_compute; reflexivity).
  assert (H4 : PyStr.decode "2]" = Some "2]") by (vm_compute; reflexivity).
  assert (H5 : str_strip "[1," <> "") by (vm_compute; discriminate).
  assert (H6 : str_strip "2]" <> "") by (vm_compute; discriminate).
  assert (H7 : json_loads "[1," = None) by (vm_compute; reflexivity).
  assert (H8 : json_loads "2]" = None) by (vm_compute; reflexivity).
  assert (H9 : json_loads ("[1," +:+ "2]") = Some (JList [JInt 1; JInt 2]))
    by (vm_compute; reflexivity).
  assert (H10 : _clean_message (self streaming) = false)
    by (vm_compute; reflexivity).
  assert (H11 : _callback (self streaming) = Some 7%nat)
    by (vm_compute; reflexivity).
  split; [exact H1|]. split; [exact H2|]. split; [exact H3|].
  split; [exact H4|]. split; [exact H5|]. split; [exact H6|].
  split; [exact H7|]. split; [exact H8|]. split; [exact H9|].
  split; [exact H10|]. split; [exact H11|].
  pose proof (split_document_is_reassembled 0%nat "[1," "2]" "[1," "2]"
                (JList [JInt 1; JInt 2]) streaming
                (world_of (parse_json "[1," 0%nat streaming))
                H1 H2 H3 H5 H7 eq_refl H4 H6 H8 H9)
    as ((Ha & _) & (_ & Hb) & _).
  split; [exact Ha|]. exact (proj1 (Hb 7%nat H10 H11)).
Defined.

(** C7, as stated, fails when the rest of a document is a JSON text by
    itself: of [-5], sent as [-] and [5], the object hands over [5]. *)
Lemma split_number_is_not_reassembled :
  json_loads "-" = None /\
  json_loads "-5" = Some (JInt (-5)) /\
  messages (run (frame 0%nat "1" "-" ++ frame 0%nat "1" "5") streaming)
  = [JInt 5].
Proof. vm_compute. repeat split. Qed.

(** The first attempt streams a fragment; its stream is closed by the peer
    after 100 seconds; the object reopens and is streaming again. *)
Definition reconnect : list event :=
  [ev_sleep 100; ev_close 0%nat; ev_callback; ev_connected 1%nat;
   ev_read 1%nat response_200].

(** C4, as stated, fails: the fragment buffered on stream 0 is still in the
    buffer when stream 1 is streaming, and it decides what the object reads
    from stream 1.  The payload [2]] gives the message [[1, 2]] after the
    fragment, and no message without it. *)
Lemma fragment_outlives_the_stream :
  _partial_tweet (self (run (frame 0%nat "3" "[1," ++ reconnect) streaming))
  = "[1," /\
  messages (run (frame 0%nat "3" "[1," ++ reconnect ++ frame 1%nat "2" "2]")
              streaming)
  = [JList [JInt 1; JInt 2]] /\
  messages (run (reconnect ++ frame 1%nat "2" "2]") streaming) = [].
Proof. vm_compute. repeat split. Qed.

Definition response_401 (content_length : string) : string :=
  "HTTP/1.1 401 Unauthorized" +:+ PyStr.CRLF +:+ "Content-Length: "
  +:+ content_length +:+ PyStr.CRLF +:+ PyStr.CRLF.

(** The first attempt of an object with error callback 9 has sent its
    request, and the stream has the header block. *)
Definition answered : World :=
  world_of (stream_unwait 0%nat
              (run (ev_set_error_callback (Some 9%nat) :: connect)
                 sample_world)).

Lemma fatal_status_witness :
  let w := answered in
  let exception_string :=
    exception_string_of "HTTP/1.1 401 Unauthorized" (response_401 "6") in
  _current_iostream (self w) = Some 0%nat /\
  _twitter_stream (self w) = Some 0%nat /\
  PyStr.decode (response_401 "6") = Some (response_401 "6") /\
  status_of (response_401 "6") = inr ("HTTP/1.1 401 Unauthorized", 401) /\
  (waiting <$> streams (world_of (on_headers (response_401 "6") 0%nat w))
               !! 0%nat)
  = Some (Some (ReadBytes 6 (cb_get_error_body exception_string))) /\
  self (world_of (on_headers (response_401 "6") 0%nat w)) = self w /\
  ioloop (world_of (on_headers (response_401 "6") 0%nat w)) = ioloop w.
Proof.
  cbv zeta.
  assert (H1 : _current_iostream (self answered) = Some 0%nat)
    by (vm_compute; reflexivity).
  assert (H2 : _twitter_stream (self answered) = Some 0%nat)
    by (vm_compute; reflexivity).
  destruct (streams answered !! 0%nat) as [st|] eqn:H3;
    [|vm_compute in H3; discriminate H3].
  assert (H4 : closed st = false)
    by (vm_compute in H3; injection H3 as <-; reflexivity).
  assert (H5 : waiting st = None)
    by (vm_compute in H3; injection H3 as <-; reflexivity).
  assert (H6 : status_of (response_401 "6")
               = inr ("HTTP/1.1 401 Unauthorized", 401))
    by (vm_compute; reflexivity).
  assert (H7 : PyStr.decode (response_401 "6") = Some (response_401 "6"))
    by (vm_compute; reflexivity).
  split; [exact H1|]. split; [exact H2|]. split; [exact H7|].
  split; [exact H6|].
  pose proof (fatal_status_is_reported (response_401 "6") (response_401 "6")
                0%nat 0%nat st "HTTP/1.1 401 Unauthorized" 401 answered
                H1 H2 H3 H4 H5 H7 H6) as [Hfatal _].
  destruct (Hfatal eq_refl) as (Hbody & _ & Hself & Hloop).
  split; [|split; assumption].
  replace (content_length_of (response_401 "6")) with (Some 6) in Hbody
    by (vm_compute; reflexivity).
  cbn [Z.eqb] in Hbody. cbv zeta in Hbody. destruct Hbody as [-> _].
  cbn [world_of streams set_streams].
  rewrite list_lookup_insert_eq by (eapply lookup_lt_Some, H3).
  reflexivity.
Defined.

(** C8, as stated, fails on a Content-Length that is no number: the
    exception of [int] leaves the object, the error callback gets nothing
    and the stream is closed.  A response with no Content-Length is
    reported as it is, with no body read; and a body that is read is
    reported as the [repr] of its bytes. *)
Lemma malformed_content_length_is_not_reported :
  let w := run (ev_set_error_callback (Some 9%nat) :: connect) sample_world in
  let bad := response_401 "six" in
  let bare := "HTTP/1.1 401 Unauthorized" +:+ PyStr.CRLF +:+ PyStr.CRLF in
  status_of bad = inr ("HTTP/1.1 401 Unauthorized", 401) /\
  _error_callback (self w) = Some 9%nat /\
  raised (step (ev_read 0%nat bad) w) = Some ValueError /\
  errors (world_of (step (ev_read 0%nat bad) w)) = [] /\
  (closed <$> streams (world_of (step (ev_read 0%nat bad) w)) !! 0%nat)
  = Some true /\
  errors (world_of (step (ev_read 0%nat bare) w))
  = [Exception (exception_string_of "HTTP/1.1 401 Unauthorized" bare)] /\
  (waiting <$> streams (world_of (step (ev_read 0%nat bare) w)) !! 0%nat)
  = Some None /\
  errors (run [ev_read 0%nat (response_401 "6"); ev_read 0%nat "denied"] w)
  = [Exception (exception_string_of "HTTP/1.1 401 Unauthorized"
                  (response_401 "6") +:+ NL +:+ "b'denied'")].
Proof. vm_compute. repeat split. Qed.

Lemma close_while_streaming_witness :
  let w := run [ev_sleep 100] streaming in
  valid w /\
  _twitter_stream (self w) = Some 0%nat /\
  _stream_restart_scheduled (self w) = false /\
  _stream_restart_in_process (self w) = false /\
  _stream_restart_time (self w) = Some 0%Q /\
  delays (world_of (close_callback w)) = delays w.
Proof.
  cbv zeta.
  assert (H1 : valid (run [ev_sleep 100] streaming)).
  { split.
    - intros s Hs. vm_compute in Hs. injection Hs as <-. vm_compute. lia.
    - unfold fresh_handles. vm_compute. repeat constructor. }
  assert (H2 : _twitter_stream (self (run [ev_sleep 100] streaming))
               = Some 0%nat) by (vm_compute; reflexivity).
  assert (H3 : _stream_restart_scheduled (self (run [ev_sleep 100] streaming))
               = false) by (vm_compute; reflexivity).
  assert (H4 : _stream_restart_in_process (self (run [ev_sleep 100] streaming))
               = false) by (vm_compute; reflexivity).
  assert (H5 : _stream_restart_time (self (run [ev_sleep 100] streaming))
               = Some 0%Q) by (vm_compute; reflexivity).
  split; [exact H1|]. split; [exact H2|]. split; [exact H3|].
  split; [exact H4|]. split; [exact H5|].
  exact (proj1 (close_while_streaming_reopens
                  (run [ev_sleep 100] streaming) 0%nat 0%Q H1 H2 H3 H4 H5)).
Defined.

(** C2, as stated, fails: the stream closed by its peer 100 seconds after
    it was opened, the close callback reopens at once.  When it has run,
    stream 1 is connecting and no timeout is pending; the delay of 5
    seconds of the error tier has not been waited for. *)
Lemma close_while_streaming_is_not_delayed :
  let w := run [ev_sleep 100; ev_close 0%nat; ev_callback] streaming in
  _retry_delay (self streaming) = 5 /\
  timeouts (ioloop w) = [] /\
  time (ioloop w) = 100%Q /\
  _current_iostream (self w) = Some 1%nat /\
  (closed <$> streams w !! 1%nat) = Some false /\
  exists socket_address,
    (waiting <$> streams w !! 1%nat)
    = Some (Some (Connect socket_address (cb_on_connect 1%nat))).
Proof. vm_compute. repeat split. eexists. reflexivity. Qed.

(** The object has been streaming for 89 seconds, and the stream has the
    line with the length of a frame of one byte. *)
Definition payload_due : list event :=
  connect ++ [ev_read 0%nat response_200; ev_sleep 89;
              ev_read 0%nat ("1" +:+ PyStr.CRLF)].

(** The line break that ends the payload, 89 seconds, a keep-alive line,
    and a second more. *)
Definition no_payload : list event :=
  [ev_read 0%nat PyStr.CRLF; ev_sleep 89; ev_read 0%nat PyStr.CRLF;
   ev_sleep 1].

Lemma stall_timeout_witness :
  let w := run payload_due sample_world in
  let w' := world_of (step (ev_read 0%nat "7") w) in
  TweetStream_ Sample.configuration false 0%Q = Ok tt sample_world /\
  time (ioloop w) = 89%Q /\
  (length (stall_deadlines w) <= 1)%nat /\
  armed_at (next_timeout (ioloop w)) (time (ioloop w) + 90) w' /\
  idle_run no_payload w' /\
  stall_deadlines (run no_payload w') = [(time (ioloop w) + 90)%Q].
Proof.
  cbv zeta.
  assert (H0 : TweetStream_ Sample.configuration false 0%Q
               = Ok tt sample_world) by (vm_compute; reflexivity).
  assert (H1 : _current_iostream (self (run payload_due sample_world))
               = Some 0%nat) by (vm_compute; reflexivity).
  pose proof (stall_timeout_is_rearmed Sample.configuration false 0%Q
                sample_world payload_due H0)
    as (Hone & _ & _ & Hread & Hidle & _).
  destruct (streams (run payload_due sample_world) !! 0%nat) as [st|] eqn:H2;
    [|vm_compute in H2; discriminate H2].
  assert (H3 : closed st = false)
    by (vm_compute in H2; injection H2 as <-; reflexivity).
  assert (H4 : waiting st
               = Some (ReadBytes (Z.of_nat (String.length "7"))
                         (cb_parse_json 0%nat)))
    by (vm_compute in H2; injection H2 as <-; reflexivity).
  pose proof (Hread 0%nat st 0%nat "7" H1 H2 H3 H4) as Harmed.
  cbv zeta in Harmed.
  change (PyStr.decode "7") with (Some "7") in Harmed. cbv iota in Harmed.
  assert (H5 : idle_run no_payload
                 (world_of (step (ev_read 0%nat "7")
                              (run payload_due sample_world)))).
  { unfold no_payload. cbn [idle_run idle].
    split; [|split; [exact I|split; [|split; exact I]]].
    - intros st' p cb Hst Hp Hcb. vm_compute in Hst. injection Hst as <-.
      vm_compute in Hp. injection Hp as <-.
      vm_compute in Hcb. injection Hcb as <-. eexists. reflexivity.
    - intros st' p cb Hst Hp Hcb. vm_compute in Hst. injection Hst as <-.
      vm_compute in Hp. injection Hp as <-.
      vm_compute in Hcb. injection Hcb as <-. eexists. reflexivity. }
  split; [exact H0|]. split; [vm_compute; reflexivity|].
  split; [exact Hone|]. split; [exact Harmed|]. split; [exact H5|].
  exact (proj1 (proj2 (Hidle _ _ _ no_payload Harmed H5))).
Defined.

(** C6, as stated, fails on a payload that is not well-formed UTF-8: with
    the stall timeout due at 90 seconds, the byte [0xFF] received at 89
    seconds raises [UnicodeDecodeError] before the timeout is set again,
    and the deadline stays where it was; the payload [7] moves it to 179
    seconds. *)
Lemma undecodable_payload_does_not_rearm :
  let w := run payload_due sample_world in
  let bad := String (ascii_of_nat 255) "" in
  time (ioloop w) = 89%Q /\
  stall_deadlines w = [90%Q] /\
  PyStr.decode bad = None /\
  raised (parse_json bad 0%nat w) = Some UnicodeDecodeError /\
  raised (step (ev_read 0%nat bad) w) = Some UnicodeDecodeError /\
  stall_deadlines (world_of (step (ev_read 0%nat bad) w)) = [90%Q] /\
  stall_deadlines (world_of (step (ev_read 0%nat "7") w)) = [179%Q].
Proof. vm_compute. repeat split. Qed.

End Examples.
